(** * wireguard-action: the configuration transformer and the two phases

    A shallow embedding of [src/main.ts] (setup) and [src/cleanup.ts]
    (teardown).  JavaScript strings are sequences of UTF-16 code units,
    kept as [list Z]; the host runtime ([String.prototype.replace],
    [String.prototype.match], [Buffer.from(_, "base64")],
    [Buffer.prototype.toString("utf-8")], [@actions/core],
    [@actions/exec]) is modelled next to the code that calls it. *)

From Stdlib Require Import ZArith Bool Lia String Ascii List.
Import ListNotations.
Open Scope Z_scope.

(** ** JavaScript strings *)

Definition jsstring := list Z.

(** An ASCII literal as a JavaScript string. *)
Definition js (s : string) : jsstring :=
  map (fun a => Z.of_N (N_of_ascii a)) (list_ascii_of_string s).

Definition LF : Z := 10.

(** [if (s)] on a string: only the empty string is falsy. *)
Definition truthy (s : jsstring) : bool :=
  match s with [] => false | _ :: _ => true end.

Fixpoint jsstring_eqb (a b : jsstring) : bool :=
  match a, b with
  | [], [] => true
  | x :: a', y :: b' => (x =? y) && jsstring_eqb a' b'
  | _, _ => false
  end.

Fixpoint startsWith (s prefix : jsstring) {struct prefix} : bool :=
  match prefix, s with
  | [], _ => true
  | p :: prefix', c :: s' => (c =? p) && startsWith s' prefix'
  | _ :: _, [] => false
  end.

(** [String.prototype.includes]. *)
Fixpoint includes (s needle : jsstring) : bool :=
  startsWith s needle ||
  match s with
  | [] => false
  | _ :: s' => includes s' needle
  end.

(** ** Regular expressions

    The ECMAScript character classes that the patterns of [main.ts] use. *)

Definition isLineTerminator (c : Z) : bool :=
  (c =? 10) || (c =? 13) || (c =? 0x2028) || (c =? 0x2029).

Definition isWhiteSpace (c : Z) : bool :=
  (c =? 9) || (c =? 11) || (c =? 12) || (c =? 32) || (c =? 0xA0) ||
  (c =? 0x1680) || ((0x2000 <=? c) && (c <=? 0x200A)) ||
  (c =? 0x202F) || (c =? 0x205F) || (c =? 0x3000) || (c =? 0xFEFF).

Inductive cclass :=
| CChar (c : Z)   (* a literal character *)
| CSpace          (* \s *)
| CDot.           (* .  (no s flag) *)

Definition accepts (k : cclass) (c : Z) : bool :=
  match k with
  | CChar x => c =? x
  | CSpace => isWhiteSpace c || isLineTerminator c
  | CDot => negb (isLineTerminator c)
  end.

Inductive node :=
| Bol                (* ^ under the m flag *)
| One (k : cclass)   (* x *)
| Star (k : cclass)  (* x*  greedy *)
| Opt (k : cclass).  (* x?  greedy *)

Definition regex := list node.

Definition lit (s : string) : regex := map (fun c => One (CChar c)) (js s).

(** [^] with the multiline flag: start of input, or just after a line
    terminator.  [prev] is the character before the current position. *)
Definition at_line_start (prev : option Z) : bool :=
  match prev with
  | None => true
  | Some c => isLineTerminator c
  end.

Definition step_one (k : cclass) (cont : option Z -> jsstring -> option nat)
    (s : jsstring) : option nat :=
  match s with
  | c :: s' => if accepts k c then option_map S (cont (Some c) s') else None
  | [] => None
  end.

(** The backtracking matcher: [matchAt r prev s] is the length of the match
    of [r] that starts at the head of [s], the first one in the priority
    order of the ECMAScript semantics, or [None]. *)
Fixpoint matchAt (r : regex) : option Z -> jsstring -> option nat :=
  match r with
  | [] => fun _ _ => Some 0%nat
  | Bol :: r' => fun prev s =>
      if at_line_start prev then matchAt r' prev s else None
  | One k :: r' => fun _ s => step_one k (matchAt r') s
  | Opt k :: r' => fun prev s =>
      match step_one k (matchAt r') s with
      | Some n => Some n
      | None => matchAt r' prev s
      end
  | Star k :: r' =>
      fix star (prev : option Z) (s : jsstring) {struct s} : option nat :=
        match s with
        | c :: s' =>
            if accepts k c then
              match star (Some c) s' with
              | Some n => Some (S n)
              | None => matchAt r' prev s
              end
            else matchAt r' prev s
        | [] => matchAt r' prev []
        end
  end.

(** [RegExpBuiltinExec] without the sticky flag: the leftmost position at
    or after the current one where the pattern matches, as an offset,
    together with the match length. *)
Fixpoint search (r : regex) (prev : option Z) (s : jsstring)
    : option (nat * nat) :=
  match matchAt r prev s with
  | Some n => Some (0%nat, n)
  | None =>
      match s with
      | [] => None
      | c :: s' =>
          match search r (Some c) s' with
          | Some (i, n) => Some (S i, n)
          | None => None
          end
      end
  end.

(** [String.prototype.match] with a non-global pattern, as a test. *)
Definition matches (s : jsstring) (r : regex) : bool :=
  match search r None s with Some _ => true | None => false end.

(** [GetSubstitution] for a pattern without capture groups: [$$], [$&],
    [$`] and [$'] are expanded, every other [$] is literal. *)
Fixpoint GetSubstitution (matched pre post template : jsstring) : jsstring :=
  match template with
  | [] => []
  | c :: t =>
      if c =? 36 then
        match t with
        | d :: t' =>
            if d =? 36 then 36 :: GetSubstitution matched pre post t'
            else if d =? 38 then matched ++ GetSubstitution matched pre post t'
            else if d =? 96 then pre ++ GetSubstitution matched pre post t'
            else if d =? 39 then post ++ GetSubstitution matched pre post t'
            else 36 :: GetSubstitution matched pre post t
        | [] => [36]
        end
      else c :: GetSubstitution matched pre post t
  end.

(** [s.replace(r, template)] for a pattern without the g flag. *)
Definition replace_first (r : regex) (template s : jsstring) : jsstring :=
  match search r None s with
  | None => s
  | Some (i, n) =>
      let pre := firstn i s in
      let matched := firstn n (skipn i s) in
      let post := skipn n (skipn i s) in
      pre ++ GetSubstitution matched pre post template ++ post
  end.

(** [s.replace(r, template)] for a pattern with the g flag.  [before] holds
    the characters already passed, last one first; [skip] counts the
    characters of the current match still to be dropped.  After an empty
    match the scan advances by one character, which is kept. *)
Fixpoint replace_scan (r : regex) (template : jsstring)
    (before : jsstring) (skip : nat) (s : jsstring) : jsstring :=
  match skip with
  | S k =>
      match s with
      | c :: s' => replace_scan r template (c :: before) k s'
      | [] => []
      end
  | O =>
      match matchAt r (hd_error before) s with
      | Some n =>
          GetSubstitution (firstn n s) (rev before) (skipn n s) template ++
          match n, s with
          | O, c :: s' => c :: replace_scan r template (c :: before) 0 s'
          | S k, c :: s' => replace_scan r template (c :: before) k s'
          | _, [] => []
          end
      | None =>
          match s with
          | c :: s' => c :: replace_scan r template (c :: before) 0 s'
          | [] => []
          end
      end
  end.

Definition replace_all (r : regex) (template s : jsstring) : jsstring :=
  replace_scan r template [] 0 s.

(** The three patterns of [main.ts]. *)

(** [/^AllowedIPs\s*=.*/m] *)
Definition ALLOWED_IPS_RE : regex :=
  Bol :: lit "AllowedIPs" ++ [Star CSpace; One (CChar 61); Star CDot].

(** [/^DNS\s*=.*/m] *)
Definition DNS_RE : regex :=
  Bol :: lit "DNS" ++ [Star CSpace; One (CChar 61); Star CDot].

(** [/^DNS\s*=.*\n?/gm] *)
Definition DNS_LINE_RE : regex :=
  Bol :: lit "DNS" ++ [Star CSpace; One (CChar 61); Star CDot; Opt (CChar 10)].

(** ** Buffers

    [Buffer.prototype.toString("utf-8")]: UTF-8 decoding into UTF-16 code
    units.  Every maximal ill-formed subsequence becomes one U+FFFD and the
    byte that broke the sequence is read again; a byte order mark is kept. *)

Definition REPLACEMENT : Z := 0xFFFD.

Definition is_cont (b : Z) : bool := (0x80 <=? b) && (b <=? 0xBF).

Definition units_of_code_point (cp : Z) : jsstring :=
  if cp <? 0x10000 then [cp]
  else [0xD800 + Z.shiftr (cp - 0x10000) 10;
        0xDC00 + Z.land (cp - 0x10000) 0x3FF].

(** Bounds of the second byte after the lead byte [b0]. *)
Definition second_lo (b0 : Z) : Z :=
  if b0 =? 0xE0 then 0xA0 else if b0 =? 0xF0 then 0x90 else 0x80.
Definition second_hi (b0 : Z) : Z :=
  if b0 =? 0xED then 0x9F else if b0 =? 0xF4 then 0x8F else 0xBF.

Definition second_ok (b0 b1 : Z) : bool :=
  (second_lo b0 <=? b1) && (b1 <=? second_hi b0).

Fixpoint utf8_toString (buf : list Z) : jsstring :=
  match buf with
  | [] => []
  | b0 :: r =>
      if b0 <=? 0x7F then b0 :: utf8_toString r
      else if (0xC2 <=? b0) && (b0 <=? 0xDF) then
        match r with
        | b1 :: r1 =>
            if is_cont b1 then
              (Z.shiftl (Z.land b0 0x1F) 6 + Z.land b1 0x3F) :: utf8_toString r1
            else REPLACEMENT :: utf8_toString r
        | [] => [REPLACEMENT]
        end
      else if (0xE0 <=? b0) && (b0 <=? 0xEF) then
        match r with
        | b1 :: r1 =>
            if second_ok b0 b1 then
              match r1 with
              | b2 :: r2 =>
                  if is_cont b2 then
                    (Z.shiftl (Z.land b0 0x0F) 12 +
                     Z.shiftl (Z.land b1 0x3F) 6 + Z.land b2 0x3F)
                    :: utf8_toString r2
                  else REPLACEMENT :: utf8_toString r1
              | [] => [REPLACEMENT]
              end
            else REPLACEMENT :: utf8_toString r
        | [] => [REPLACEMENT]
        end
      else if (0xF0 <=? b0) && (b0 <=? 0xF4) then
        match r with
        | b1 :: r1 =>
            if second_ok b0 b1 then
              match r1 with
              | b2 :: r2 =>
                  if is_cont b2 then
                    match r2 with
                    | b3 :: r3 =>
                        if is_cont b3 then
                          units_of_code_point
                            (Z.shiftl (Z.land b0 0x07) 18 +
                             Z.shiftl (Z.land b1 0x3F) 12 +
                             Z.shiftl (Z.land b2 0x3F) 6 + Z.land b3 0x3F)
                          ++ utf8_toString r3
                        else REPLACEMENT :: utf8_toString r2
                    | [] => [REPLACEMENT]
                    end
                  else REPLACEMENT :: utf8_toString r1
              | [] => [REPLACEMENT]
              end
            else REPLACEMENT :: utf8_toString r
        | [] => [REPLACEMENT]
        end
      else REPLACEMENT :: utf8_toString r
  end.

(** [Buffer.from(_, "base64")], the lenient decoder of Node: the low byte
    of each code unit is looked up in the table, which holds the standard
    and the URL-safe alphabet; a character outside the table is skipped;
    the first [=] ends the decoding; a last group of one character gives no
    byte.  Nothing in it throws. *)

Definition unbase64 (c : Z) : option Z :=
  let x := c mod 256 in
  if (65 <=? x) && (x <=? 90) then Some (x - 65)
  else if (97 <=? x) && (x <=? 122) then Some (x - 71)
  else if (48 <=? x) && (x <=? 57) then Some (x + 4)
  else if (x =? 43) || (x =? 45) then Some 62
  else if (x =? 47) || (x =? 95) then Some 63
  else None.

(** The sextets of the legal characters before the first [=]. *)
Fixpoint legal_sextets (s : jsstring) : list Z :=
  match s with
  | [] => []
  | c :: s' =>
      match unbase64 c with
      | Some v => v :: legal_sextets s'
      | None => if c mod 256 =? 61 then [] else legal_sextets s'
      end
  end.

Fixpoint bytes_of_sextets (l : list Z) : list Z :=
  match l with
  | a :: b :: c :: d :: r =>
      Z.lor (Z.shiftl (Z.land a 0x3F) 2) (Z.shiftr (Z.land b 0x30) 4) ::
      Z.lor (Z.shiftl (Z.land b 0x0F) 4) (Z.shiftr (Z.land c 0x3C) 2) ::
      Z.lor (Z.shiftl (Z.land c 0x03) 6) (Z.land d 0x3F) ::
      bytes_of_sextets r
  | [a; b; c] =>
      [Z.lor (Z.shiftl (Z.land a 0x3F) 2) (Z.shiftr (Z.land b 0x30) 4);
       Z.lor (Z.shiftl (Z.land b 0x0F) 4) (Z.shiftr (Z.land c 0x3C) 2)]
  | [a; b] =>
      [Z.lor (Z.shiftl (Z.land a 0x3F) 2) (Z.shiftr (Z.land b 0x30) 4)]
  | _ => []
  end.

Definition base64_decode (s : jsstring) : list Z :=
  bytes_of_sextets (legal_sextets s).

(** What is thrown and caught: [catch (error)] tests [error instanceof
    Error] and reads [error.message]. *)
Inductive thrown :=
| ErrorObj (message : jsstring)
| OtherValue.

Definition Buffer_from_base64 (s : jsstring) : list Z + thrown :=
  inl (base64_decode s).

(** ** The encoders a user applies before handing the configuration over

    They are not part of the action: the README has the user run
    [base64 -w 0 < your-wireguard.conf].  [utf8_encode] is
    [Buffer.from(_, "utf-8")] (an unpaired surrogate is written as U+FFFD),
    [base64_encode] is RFC 4648 with padding. *)

Definition is_high (c : Z) : bool := (0xD800 <=? c) && (c <=? 0xDBFF).
Definition is_low (c : Z) : bool := (0xDC00 <=? c) && (c <=? 0xDFFF).

Definition utf8_of_code_point (cp : Z) : list Z :=
  if cp <? 0x80 then [cp]
  else if cp <? 0x800 then
    [0xC0 + Z.shiftr cp 6; 0x80 + Z.land cp 0x3F]
  else if cp <? 0x10000 then
    [0xE0 + Z.shiftr cp 12; 0x80 + Z.land (Z.shiftr cp 6) 0x3F;
     0x80 + Z.land cp 0x3F]
  else
    [0xF0 + Z.shiftr cp 18; 0x80 + Z.land (Z.shiftr cp 12) 0x3F;
     0x80 + Z.land (Z.shiftr cp 6) 0x3F; 0x80 + Z.land cp 0x3F].

Fixpoint utf8_encode (s : jsstring) : list Z :=
  match s with
  | [] => []
  | c :: s' =>
      if is_high c then
        match s' with
        | d :: s'' =>
            if is_low d then
              utf8_of_code_point
                (0x10000 + (c - 0xD800) * 0x400 + (d - 0xDC00))
              ++ utf8_encode s''
            else [0xEF; 0xBF; 0xBD] ++ utf8_encode s'
        | [] => [0xEF; 0xBF; 0xBD]
        end
      else if is_low c then [0xEF; 0xBF; 0xBD] ++ utf8_encode s'
      else utf8_of_code_point c ++ utf8_encode s'
  end.

Definition base64_char (v : Z) : Z :=
  if v <? 26 then 65 + v
  else if v <? 52 then 71 + v
  else if v <? 62 then v - 4
  else if v =? 62 then 43 else 47.

Fixpoint base64_encode (bs : list Z) : jsstring :=
  match bs with
  | a :: b :: c :: r =>
      base64_char (Z.shiftr a 2) ::
      base64_char (Z.lor (Z.shiftl (Z.land a 3) 4) (Z.shiftr b 4)) ::
      base64_char (Z.lor (Z.shiftl (Z.land b 15) 2) (Z.shiftr c 6)) ::
      base64_char (Z.land c 63) :: base64_encode r
  | [a; b] =>
      [base64_char (Z.shiftr a 2);
       base64_char (Z.lor (Z.shiftl (Z.land a 3) 4) (Z.shiftr b 4));
       base64_char (Z.shiftl (Z.land b 15) 2); 61]
  | [a] =>
      [base64_char (Z.shiftr a 2); base64_char (Z.shiftl (Z.land a 3) 4);
       61; 61]
  | [] => []
  end.

(** ** Well-formed strings, bytes and strict base64

    A JavaScript string holds 16-bit code units. *)
Definition is_code_unit (c : Z) : bool := (0 <=? c) && (c <? 0x10000).

Definition is_byte (b : Z) : bool := (0 <=? b) && (b <? 256).

(** [String.prototype.isWellFormed]: no unpaired surrogate. *)
Fixpoint isWellFormed (s : jsstring) : bool :=
  match s with
  | [] => true
  | c :: s' =>
      if is_high c then
        match s' with
        | d :: s'' => is_low d && isWellFormed s''
        | [] => false
        end
      else negb (is_low c) && isWellFormed s'
  end.

(** [String.prototype.toWellFormed]: every unpaired surrogate becomes
    U+FFFD. *)
Fixpoint toWellFormed (s : jsstring) : jsstring :=
  match s with
  | [] => []
  | c :: s' =>
      if is_high c then
        match s' with
        | d :: s'' =>
            if is_low d then c :: d :: toWellFormed s''
            else REPLACEMENT :: toWellFormed s'
        | [] => [REPLACEMENT]
        end
      else if is_low c then REPLACEMENT :: toWellFormed s'
      else c :: toWellFormed s'
  end.

(** Base64 as RFC 4648 has it: the standard alphabet, groups of four,
    padding only to fill the last group. *)
Definition is_base64_char (c : Z) : bool :=
  ((65 <=? c) && (c <=? 90)) || ((97 <=? c) && (c <=? 122)) ||
  ((48 <=? c) && (c <=? 57)) || (c =? 43) || (c =? 47).

Fixpoint strict_base64 (s : jsstring) : bool :=
  match s with
  | [] => true
  | a :: b :: c :: d :: r =>
      is_base64_char a && is_base64_char b &&
      ((is_base64_char c && is_base64_char d && strict_base64 r) ||
       (is_base64_char c && (d =? 61) && negb (truthy r)) ||
       ((c =? 61) && (d =? 61) && negb (truthy r)))
  | _ => false
  end.

(** ** Checks by enumeration, for the base64 round trip

    [P] holds of the [n] integers from [lo] on. *)
Fixpoint all_from (n : nat) (lo : Z) (P : Z -> bool) : bool :=
  match n with
  | O => true
  | S k => P lo && all_from k (lo + 1) P
  end.

(** The decoder reads back the character of a sextet. *)
Definition sextet_ok (v : Z) : bool :=
  match unbase64 (base64_char v) with
  | Some w => w =? v
  | None => false
  end.

Definition is_sextet (v : Z) : bool := (0 <=? v) && (v <? 64).

(** What the round trip of a group needs of two neighbouring bytes, to be
    checked on all of them. *)
Definition pair_ok (a b : Z) : bool :=
  is_sextet (Z.shiftr a 2) &&
  is_sextet (Z.lor (Z.shiftl (Z.land a 3) 4) (Z.shiftr b 4)) &&
  is_sextet (Z.lor (Z.shiftl (Z.land a 15) 2) (Z.shiftr b 6)) &&
  is_sextet (Z.land b 63) &&
  is_sextet (Z.shiftl (Z.land a 15) 2) &&
  is_sextet (Z.shiftl (Z.land a 3) 4) &&
  (Z.lor (Z.shiftl (Z.land (Z.shiftr a 2) 0x3F) 2)
     (Z.shiftr (Z.land (Z.lor (Z.shiftl (Z.land a 3) 4) (Z.shiftr b 4)) 0x30)
        4) =? a) &&
  (Z.land (Z.lor (Z.shiftl (Z.land a 3) 4) (Z.shiftr b 4)) 0x0F
   =? Z.shiftr b 4) &&
  (Z.lor (Z.shiftl (Z.shiftr a 4) 4)
     (Z.shiftr (Z.land (Z.lor (Z.shiftl (Z.land a 15) 2) (Z.shiftr b 6)) 0x3C)
        2) =? a) &&
  (Z.lor (Z.shiftl
            (Z.land (Z.lor (Z.shiftl (Z.land a 15) 2) (Z.shiftr b 6)) 0x03) 6)
     (Z.land (Z.land b 63) 0x3F) =? b) &&
  (Z.lor (Z.shiftl (Z.shiftr a 4) 4)
     (Z.shiftr (Z.land (Z.shiftl (Z.land a 15) 2) 0x3C) 2) =? a) &&
  (Z.lor (Z.shiftl (Z.land (Z.shiftr a 2) 0x3F) 2)
     (Z.shiftr (Z.land (Z.shiftl (Z.land a 3) 4) 0x30) 4) =? a).

(** [x] is the code unit [y], or U+FFFD put for the surrogate [y]. *)
Definition mended (x y : Z) : Prop :=
  x = y \/ (x = REPLACEMENT /\ (is_high y || is_low y) = true).

(** ** [decodeConfig] (main.ts, lines 80-91)

    The [try] block is kept: [from_base64] may throw, and the [catch]
    falls through to [return wgConfig]. *)

Definition INTERFACE_MARKER : jsstring := js "[Interface]".

Definition decodeConfig_with (from_base64 : jsstring -> list Z + thrown)
    (wgConfig : jsstring) : jsstring :=
  match from_base64 wgConfig with
  | inl buf =>
      let decoded := utf8_toString buf in
      if includes decoded INTERFACE_MARKER then decoded else wgConfig
  | inr _ => wgConfig
  end.

Definition decodeConfig (wgConfig : jsstring) : jsstring :=
  decodeConfig_with Buffer_from_base64 wgConfig.

(** [needle] occurs in [s] as a substring. *)
Definition occurs_in (needle s : jsstring) : Prop :=
  exists a b, s = a ++ needle ++ b.


(** ** The host runtime: [@actions/core], [@actions/exec], [fs]

    A phase runs on a state made of the outside world and of what the
    phase has emitted so far.  An awaited call either returns or throws. *)

Inductive event :=
| Info (message : jsstring)                        (* core.info *)
| Warning (message : jsstring)                     (* core.warning *)
| SetFailed (message : jsstring)                   (* core.setFailed *)
| SaveState (name value : jsstring)                (* core.saveState *)
| Exec (commandLine : jsstring) (args : list jsstring) (silent : bool)
| WriteFileSync (path data : jsstring) (mode : Z).

Record state (World : Type) := mkState { world : World; emitted : list event }.
Arguments mkState {World}.
Arguments world {World}.
Arguments emitted {World}.

Definition M (World A : Type) : Type :=
  state World -> (A + thrown) * state World.

Definition ret {World A} (a : A) : M World A := fun st => (inl a, st).

Definition throw {World A} (e : thrown) : M World A := fun st => (inr e, st).

Definition bind {World A B} (c : M World A) (k : A -> M World B) : M World B :=
  fun st =>
    match c st with
    | (inl a, st') => k a st'
    | (inr e, st') => (inr e, st')
    end.

(** [try { c } catch (error) { handler(error) }] *)
Definition try_catch {World A} (c : M World A) (handler : thrown -> M World A)
    : M World A :=
  fun st =>
    match c st with
    | (inl a, st') => (inl a, st')
    | (inr e, st') => handler e st'
    end.

Declare Scope action_scope.
Delimit Scope action_scope with action.
Notation "x <- c ;; k" := (bind c (fun x => k))
  (at level 61, c at next level, right associativity) : action_scope.
Notation "c ;; k" := (bind c (fun _ => k))
  (at level 61, right associativity) : action_scope.
Open Scope action_scope.

Definition emit {World} (e : event) : M World unit :=
  fun st => (inl tt, mkState (world st) (emitted st ++ [e])).

Definition info {World} (message : jsstring) : M World unit :=
  emit (Info message).
Definition warning {World} (message : jsstring) : M World unit :=
  emit (Warning message).
Definition setFailed {World} (message : jsstring) : M World unit :=
  emit (SetFailed message).
Definition saveState {World} (name value : jsstring) : M World unit :=
  emit (SaveState name value).

(** A call of the runtime that returns or throws and has no other
    effect. *)
Definition call {World A} (r : A + thrown) : M World A := fun st => (r, st).

(** [decodeConfig] with its [try] and [catch] written out, for what the
    function throws.  The [try] block gives [Some decoded] when it leaves
    by [return decoded] and [None] when control falls out of it; the empty
    [catch] lets control fall out too; [return wgConfig] follows. *)
Definition try_block {World}
    (from_base64 : jsstring -> list Z + thrown) (wgConfig : jsstring)
    : M World (option jsstring) :=
  buf <- call (from_base64 wgConfig) ;;
  let decoded := utf8_toString buf in
  if includes decoded INTERFACE_MARKER then ret (Some decoded)
  else ret None.

Definition decodeConfig_try {World}
    (from_base64 : jsstring -> list Z + thrown) (wgConfig : jsstring)
    : M World jsstring :=
  left_by_return <-
    try_catch (try_block from_base64 wgConfig) (fun _ => ret None) ;;
  match left_by_return with
  | Some decoded => ret decoded
  | None => ret wgConfig
  end.

(** [String.prototype.trim] *)
Fixpoint trimStart (s : jsstring) : jsstring :=
  match s with
  | c :: s' => if accepts CSpace c then trimStart s' else s
  | [] => []
  end.

Definition trim (s : jsstring) : jsstring :=
  rev (trimStart (rev (trimStart s))).

(** ** [removeDnsConfig] (main.ts, lines 9-16) *)

Definition removeDnsConfig {World} (configContent : jsstring)
    : M World jsstring :=
  if matches configContent DNS_RE then
    info (js "Removing DNS setting to prevent resolvconf hang...") ;;
    ret (replace_all DNS_LINE_RE [] configContent)
  else ret configContent.

(** The override of lines 40-44 of [run]. *)
Definition overrideAllowedIps {World} (allowedIps configContent : jsstring)
    : M World jsstring :=
  if truthy allowedIps then
    info (js "Overriding AllowedIPs with: " ++ allowedIps) ;;
    ret (replace_first ALLOWED_IPS_RE (js "AllowedIPs = " ++ allowedIps)
           configContent)
  else ret configContent.

(** The DNS removal of lines 46-49 of [run]. *)
Definition stripDns {World} (keepDns : bool) (configContent : jsstring)
    : M World jsstring :=
  if negb keepDns then removeDnsConfig configContent else ret configContent.

(** Lines 37-49 of [run]: decode, override, strip. *)
Definition transformConfig {World} (wgConfig allowedIps : jsstring)
    (keepDns : bool) : M World jsstring :=
  let configContent := decodeConfig wgConfig in
  configContent <- overrideAllowedIps allowedIps configContent ;;
  stripDns keepDns configContent.

(** The value a computation returns from a given state. *)
Definition returned {World A} (c : M World A) (st : state World) : option A :=
  match fst (c st) with
  | inl a => Some a
  | inr _ => None
  end.

Section Runtime.

Variable World : Type.

(** What running a command does to the world, and whether
    [exec.exec] rejects. *)
Variable exec_world :
  jsstring -> list jsstring -> World -> option thrown * World.

(** The same for [fs.writeFileSync]. *)
Variable write_world :
  jsstring -> jsstring -> Z -> World -> option thrown * World.

(** The action's inputs, as the runner hands them over. *)
Variable inputs : jsstring -> jsstring.

Definition exec (commandLine : jsstring) (args : list jsstring)
    (silent : bool) : M World unit :=
  fun st =>
    let (r, w) := exec_world commandLine args (world st) in
    let st' := mkState w (emitted st ++ [Exec commandLine args silent]) in
    match r with
    | None => (inl tt, st')
    | Some e => (inr e, st')
    end.

Definition writeFileSync (path data : jsstring) (mode : Z) : M World unit :=
  fun st =>
    let (r, w) := write_world path data mode (world st) in
    let st' := mkState w (emitted st ++ [WriteFileSync path data mode]) in
    match r with
    | None => (inl tt, st')
    | Some e => (inr e, st')
    end.

(** [core.getInput(name, { required })] *)
Definition getInput (name : jsstring) (required : bool) : M World jsstring :=
  let val := inputs name in
  if required && negb (truthy val) then
    throw (ErrorObj (js "Input required and not supplied: " ++ name))
  else ret (trim val).

(** *** [run] (main.ts, lines 18-78) *)

Definition run : M World unit :=
  try_catch
    (wgConfig <- getInput (js "wg-config-file") true ;;
     allowedIps <- getInput (js "allowed-ips") false ;;
     keepDnsInput <- getInput (js "keep-dns") false ;;
     let keepDns := jsstring_eqb keepDnsInput (js "true") in
     info (js "Installing WireGuard...") ;;
     exec (js "sudo") [js "apt-get"; js "update"] false ;;
     exec (js "sudo")
       [js "apt-get"; js "install"; js "-y"; js "wireguard";
        js "wireguard-tools"; js "resolvconf"] false ;;
     configContent <- transformConfig wgConfig allowedIps keepDns ;;
     info (js "Setting up WireGuard configuration...") ;;
     exec (js "sudo") [js "mkdir"; js "-p"; js "/etc/wireguard"] false ;;
     let tempConfigPath := js "/tmp/wg0.conf" in
     writeFileSync tempConfigPath configContent 384 ;;
     exec (js "sudo") [js "mv"; tempConfigPath; js "/etc/wireguard/wg0.conf"]
       false ;;
     exec (js "sudo") [js "chmod"; js "600"; js "/etc/wireguard/wg0.conf"]
       false ;;
     info (js "Starting WireGuard connection...") ;;
     exec (js "sudo") [js "wg-quick"; js "up"; js "wg0"] false ;;
     info (js "WireGuard connection established") ;;
     exec (js "sudo") [js "wg"; js "show"] false ;;
     saveState (js "wireguard-started") (js "true"))
    (fun error =>
       match error with
       | ErrorObj message => setFailed (js "Action failed: " ++ message)
       | OtherValue => setFailed (js "Action failed with unknown error")
       end).

(** *** cleanup.ts *)

Definition checkInterfaceExists (interfaceName : jsstring) : M World bool :=
  try_catch
    (exec (js "ip") [js "link"; js "show"; interfaceName] true ;; ret true)
    (fun _ => ret false).

Definition checkFileExists (filePath : jsstring) : M World bool :=
  try_catch
    (exec (js "sudo") [js "test"; js "-f"; filePath] true ;; ret true)
    (fun _ => ret false).

Definition cleanup : M World unit :=
  try_catch
    (info (js "Starting WireGuard cleanup...") ;;
     interfaceExists <- checkInterfaceExists (js "wg0") ;;
     (if interfaceExists : bool then
        info (js "Stopping WireGuard connection...") ;;
        try_catch
          (exec (js "sudo") [js "wg-quick"; js "down"; js "wg0"] false ;;
           info (js "WireGuard connection stopped"))
          (fun error =>
             match error with
             | ErrorObj message =>
                 warning (js "Failed to stop WireGuard: " ++ message)
             | OtherValue => ret tt
             end)
      else
        info (js "WireGuard interface wg0 not found, skipping disconnect")) ;;
     configExists <- checkFileExists (js "/etc/wireguard/wg0.conf") ;;
     (if configExists : bool then
        info (js "Removing WireGuard configuration...") ;;
        exec (js "sudo") [js "rm"; js "-f"; js "/etc/wireguard/wg0.conf"]
          false ;;
        info (js "WireGuard configuration removed")
      else
        info (js "WireGuard config file not found, skipping cleanup")) ;;
     info (js "WireGuard cleanup completed"))
    (fun error =>
       match error with
       | ErrorObj message => warning (js "Cleanup failed: " ++ message)
       | OtherValue => warning (js "Cleanup failed with unknown error")
       end).

End Runtime.

Arguments exec {World}.
Arguments writeFileSync {World}.
Arguments getInput {World}.
Arguments run {World}.
Arguments checkInterfaceExists {World}.
Arguments checkFileExists {World}.
Arguments cleanup {World}.

(** ** Reading what a phase emitted *)

Definition fatal_messages (l : list event) : list jsstring :=
  flat_map (fun e => match e with SetFailed m => [m] | _ => [] end) l.

Definition warnings (l : list event) : list jsstring :=
  flat_map (fun e => match e with Warning m => [m] | _ => [] end) l.

Definition saved_states (l : list event) : list (jsstring * jsstring) :=
  flat_map (fun e => match e with SaveState n v => [(n, v)] | _ => [] end) l.

(** The operations on the outside world, in the order they were issued. *)
Inductive operation :=
| OpExec (commandLine : jsstring) (args : list jsstring)
| OpWrite (path data : jsstring) (mode : Z).

Definition operations_of (l : list event) : list operation :=
  flat_map (fun e =>
              match e with
              | Exec c a _ => [OpExec c a]
              | WriteFileSync p d m => [OpWrite p d m]
              | _ => []
              end) l.

(** What [transformConfig] returns and emits; it never touches the world. *)
Definition effectiveConfig (wgConfig allowedIps : jsstring) (keepDns : bool)
    : jsstring :=
  match returned (transformConfig wgConfig allowedIps keepDns) (mkState tt [])
  with
  | Some c => c
  | None => wgConfig
  end.

Definition transform_log (wgConfig allowedIps : jsstring) (keepDns : bool)
    : list event :=
  emitted (snd (transformConfig wgConfig allowedIps keepDns (mkState tt []))).

(** The values of the two steps after the decoding. *)
Definition overridden (allowedIps configContent : jsstring) : jsstring :=
  if truthy allowedIps then
    replace_first ALLOWED_IPS_RE (js "AllowedIPs = " ++ allowedIps)
      configContent
  else configContent.

Definition stripped (keepDns : bool) (configContent : jsstring) : jsstring :=
  if keepDns then configContent
  else replace_all DNS_LINE_RE [] configContent.

(** The configuration [run] writes, from the action's inputs. *)
Definition configured (inputs : jsstring -> jsstring) : jsstring :=
  effectiveConfig (trim (inputs (js "wg-config-file")))
    (trim (inputs (js "allowed-ips")))
    (jsstring_eqb (trim (inputs (js "keep-dns"))) (js "true")).

(** Steps 1 to 7 of the setup phase as operations: index 0 and 1 are the
    package steps, 2 the directory, 3 to 5 the write, move and chmod, 6 the
    tunnel up, 7 the status query. *)
Definition setup_operations (configContent : jsstring) : list operation :=
  [ OpExec (js "sudo") [js "apt-get"; js "update"];
    OpExec (js "sudo")
      [js "apt-get"; js "install"; js "-y"; js "wireguard";
       js "wireguard-tools"; js "resolvconf"];
    OpExec (js "sudo") [js "mkdir"; js "-p"; js "/etc/wireguard"];
    OpWrite (js "/tmp/wg0.conf") configContent 384;
    OpExec (js "sudo")
      [js "mv"; js "/tmp/wg0.conf"; js "/etc/wireguard/wg0.conf"];
    OpExec (js "sudo") [js "chmod"; js "600"; js "/etc/wireguard/wg0.conf"];
    OpExec (js "sudo") [js "wg-quick"; js "up"; js "wg0"];
    OpExec (js "sudo") [js "wg"; js "show"] ].

Section Outcomes.

Variable World : Type.
Variable exec_world :
  jsstring -> list jsstring -> World -> option thrown * World.
Variable write_world :
  jsstring -> jsstring -> Z -> World -> option thrown * World.

Definition perform (op : operation) (w : World) : option thrown * World :=
  match op with
  | OpExec c a => exec_world c a w
  | OpWrite p d m => write_world p d m w
  end.

(** Performing [ops] in order from [w]: the index of the first one that
    throws, with what it throws. *)
Fixpoint first_failure (ops : list operation) (w : World)
    : option (nat * thrown) :=
  match ops with
  | [] => None
  | op :: ops' =>
      match perform op w with
      | (Some e, _) => Some (0%nat, e)
      | (None, w') =>
          match first_failure ops' w' with
          | Some (i, e) => Some (S i, e)
          | None => None
          end
      end
  end.

End Outcomes.

Arguments perform {World}.
Arguments first_failure {World}.

(** [exec.exec] rejects with an [Error] whose message names the exit code
    when the command exits with a non-zero status. *)
Definition command_failure (message : jsstring) : option thrown :=
  Some (ErrorObj message).

(** A small runner to try the phases on: an interface, a configuration
    file, and switches that make single commands fail. *)
Record runner := mkRunner {
  interface_up : bool;
  config_present : bool;
  broken : list jsstring   (* first arguments of the commands that fail *)
}.

Definition is_broken (w : runner) (args : list jsstring) : bool :=
  match args with
  | a :: _ => existsb (jsstring_eqb a) (broken w)
  | [] => false
  end.

Definition runner_exec (commandLine : jsstring) (args : list jsstring)
    (w : runner) : option thrown * runner :=
  if is_broken w args then
    (command_failure (js "The process failed with exit code 1"), w)
  else if jsstring_eqb commandLine (js "ip") then
    ((if interface_up w then None
      else command_failure (js "The process failed with exit code 1")), w)
  else
    match args with
    | a :: _ =>
        if jsstring_eqb a (js "test") then
          ((if config_present w then None
            else command_failure (js "The process failed with exit code 1")),
           w)
        else if jsstring_eqb a (js "rm") then
          (None, mkRunner (interface_up w) false (broken w))
        else if jsstring_eqb a (js "mv") then
          (None, mkRunner (interface_up w) true (broken w))
        else if jsstring_eqb a (js "wg-quick") then
          (None, mkRunner (negb (interface_up w)) (config_present w) (broken w))
        else (None, w)
    | [] => (None, w)
    end.

Definition runner_write (path data : jsstring) (mode : Z) (w : runner)
    : option thrown * runner := (None, w).

Definition runner_file_exists (path : jsstring) (w : runner) : bool :=
  jsstring_eqb path (js "/etc/wireguard/wg0.conf") && config_present w.

(** ** Describing matches *)

(** A pattern without [^]: it does not look at the character before. *)
Fixpoint anchor_free (r : regex) : bool :=
  match r with
  | [] => true
  | Bol :: _ => false
  | _ :: r' => anchor_free r'
  end.

(** The length of the longest prefix of [s] whose characters satisfy [p]. *)
Fixpoint span (p : Z -> bool) (s : jsstring) : nat :=
  match s with
  | c :: s' => if p c then S (span p s') else 0%nat
  | [] => 0%nat
  end.

(** [/^key\s*=.*/m] *)
Definition line_pattern (key : jsstring) : regex :=
  Bol :: map (fun c => One (CChar c)) key ++
  [Star CSpace; One (CChar 61); Star CDot].

(** The length of the match of [^key\s*=.*] at the head of [s], and of
    [^key\s*=.*\n?] when [with_nl] is set. *)
Definition line_match (key : jsstring) (with_nl : bool) (prev : option Z)
    (s : jsstring) : option nat :=
  if at_line_start prev && startsWith s key then
    let r := skipn (length key) s in
    let w := span (accepts CSpace) r in
    match skipn w r with
    | c :: t =>
        if c =? 61 then
          let b := span (accepts CDot) t in
          let e :=
            match skipn b t with
            | d :: _ => if with_nl && (d =? 10) then 1%nat else 0%nat
            | [] => 0%nat
            end in
          Some (length key + (w + 1 + (b + e)))%nat
        else None
    | [] => None
    end
  else None.

(** An assignment to [key] starts at the head of [s], which is at the start
    of a line: the pattern [^key\s*=] matches there. *)
Definition AssignmentAt (key : jsstring) (prev : option Z) (s : jsstring)
    : Prop :=
  at_line_start prev = true /\
  exists ws tail,
    forallb (accepts CSpace) ws = true /\ s = key ++ ws ++ 61 :: tail.




(** The replacement of the first assignment to [key] by [line], in the
    words of the spec: the text up to the first assignment that starts a
    line is kept, the assignment is replaced up to the end of its line,
    the rest of the text is kept; a text without such an assignment is
    kept whole. *)
Inductive FirstAssignmentReplaced (key line : jsstring)
    : option Z -> jsstring -> jsstring -> Prop :=
| first_none (prev : option Z) : FirstAssignmentReplaced key line prev [] []
| first_later (prev : option Z) (c : Z) (s out : jsstring) :
    ~ AssignmentAt key prev (c :: s) ->
    FirstAssignmentReplaced key line (Some c) s out ->
    FirstAssignmentReplaced key line prev (c :: s) (c :: out)
| first_here (prev : option Z) (ws body rest : jsstring) :
    at_line_start prev = true ->
    forallb (accepts CSpace) ws = true ->
    forallb (accepts CDot) body = true ->
    match rest with
    | [] => True
    | c :: _ => isLineTerminator c = true
    end ->
    FirstAssignmentReplaced key line prev
      (key ++ ws ++ 61 :: body ++ rest) (line ++ rest).

(** [s] starts with [DNS], blanks that are not line terminators, and [=]. *)
Definition dns_line_at (s : jsstring) : bool :=
  startsWith s (js "DNS") &&
  let r := skipn 3 s in
  match skipn (span isWhiteSpace r) r with
  | c :: _ => c =? 61
  | [] => false
  end.

(** Some line of [s] starts so.  [prev] is the character before [s]. *)
Fixpoint has_dns_line (prev : option Z) (s : jsstring) : bool :=
  (at_line_start prev && dns_line_at s) ||
  match s with
  | c :: s' => has_dns_line (Some c) s'
  | [] => false
  end.

(** ** Lines that begin with a key *)

(** What [test] says of the first character after the blanks at the head
    of [r]; blanks here are the [\s] characters that end no line. *)
Definition after_blanks (test : Z -> bool) (r : jsstring) : bool :=
  match skipn (span isWhiteSpace r) r with
  | c :: _ => test c
  | [] => false
  end.

(** [s] starts with [key], blanks, and a character that passes [test]. *)
Definition key_then (key : jsstring) (test : Z -> bool) (s : jsstring)
    : bool :=
  startsWith s key && after_blanks test (skipn (length key) s).

Definition is_equals (c : Z) : bool := c =? 61.

Definition equals_or_terminator (c : Z) : bool :=
  (c =? 61) || isLineTerminator c.

(** A line that holds only [key] and blanks: [\s*] runs over its end, and
    an [=] further down makes an assignment of it. *)
Definition dangling_key (key : jsstring) : jsstring -> bool :=
  key_then key isLineTerminator.

(** [P] holds of the text at the start of some line of [s]. *)
Fixpoint at_some_line_start (P : jsstring -> bool) (prev : option Z)
    (s : jsstring) : bool :=
  (at_line_start prev && P s) ||
  match s with
  | c :: s' => at_some_line_start P (Some c) s'
  | [] => false
  end.

Definition no_dangling (key content : jsstring) : Prop :=
  at_some_line_start (dangling_key key) None content = false.

(** The text up to the end of its first line, terminator included. *)
Fixpoint line_head (s : jsstring) : jsstring :=
  match s with
  | [] => []
  | c :: s' => if isLineTerminator c then [c] else c :: line_head s'
  end.

(** A text that is empty or ends with a line terminator: what follows it
    starts a line. *)
Definition line_closed (p : jsstring) : Prop :=
  p = [] \/ exists p0 t, p = p0 ++ [t] /\ isLineTerminator t = true.

(** An override that holds no [$] and no line terminator. *)
Definition plain_override (allowedIps : jsstring) : bool :=
  forallb (fun c => negb (c =? 36) && negb (isLineTerminator c)) allowedIps.

(** ** Configurations to try the pipeline on *)

(** The configuration of the README's kind. *)
Definition sample_config : jsstring :=
  js "[Interface]" ++ [LF] ++ js "PrivateKey = x" ++ [LF] ++
  js "DNS = 1.1.1.1" ++ [LF] ++ js "[Peer]" ++ [LF] ++
  js "AllowedIPs = 0.0.0.0/0" ++ [LF].

(** A configuration with a comment in which the decoder of Node reads
    [[Interface]] again. *)
Definition commented_config : jsstring :=
  js "[Interface]" ++ [LF] ++ js "#AAAW0ludGVyZmFjZV0=".

(** ** The setup phase before the DNS removal (unnamed/part_001)

    The earlier [main.ts]: no [keep-dns] input, no DNS removal. *)

Module Previous.

Definition decodeConfig (wgConfig : jsstring) : jsstring :=
  match Buffer_from_base64 wgConfig with
  | inl buf =>
      let decoded := utf8_toString buf in
      if includes decoded (js "[Interface]") then decoded else wgConfig
  | inr _ => wgConfig
  end.

Section Runtime.

Variable World : Type.
Variable exec_world :
  jsstring -> list jsstring -> World -> option thrown * World.
Variable write_world :
  jsstring -> jsstring -> Z -> World -> option thrown * World.
Variable inputs : jsstring -> jsstring.

Definition run : M World unit :=
  try_catch
    (wgConfig <- getInput inputs (js "wg-config-file") true ;;
     allowedIps <- getInput inputs (js "allowed-ips") false ;;
     info (js "Installing WireGuard...") ;;
     exec exec_world (js "sudo") [js "apt-get"; js "update"] false ;;
     exec exec_world (js "sudo")
       [js "apt-get"; js "install"; js "-y"; js "wireguard";
        js "wireguard-tools"; js "resolvconf"] false ;;
     let configContent := decodeConfig wgConfig in
     configContent <-
       (if truthy allowedIps then
          info (js "Overriding AllowedIPs with: " ++ allowedIps) ;;
          ret (replace_first ALLOWED_IPS_RE (js "AllowedIPs = " ++ allowedIps)
                 configContent)
        else ret configContent) ;;
     info (js "Setting up WireGuard configuration...") ;;
     exec exec_world (js "sudo") [js "mkdir"; js "-p"; js "/etc/wireguard"]
       false ;;
     let tempConfigPath := js "/tmp/wg0.conf" in
     writeFileSync write_world tempConfigPath configContent 384 ;;
     exec exec_world (js "sudo")
       [js "mv"; tempConfigPath; js "/etc/wireguard/wg0.conf"] false ;;
     exec exec_world (js "sudo")
       [js "chmod"; js "600"; js "/etc/wireguard/wg0.conf"] false ;;
     info (js "Starting WireGuard connection...") ;;
     exec exec_world (js "sudo") [js "wg-quick"; js "up"; js "wg0"] false ;;
     info (js "WireGuard connection established") ;;
     exec exec_world (js "sudo") [js "wg"; js "show"] false ;;
     saveState (js "wireguard-started") (js "true"))
    (fun error =>
       match error with
       | ErrorObj message => setFailed (js "Action failed: " ++ message)
       | OtherValue => setFailed (js "Action failed with unknown error")
       end).

End Runtime.

Arguments run {World}.

End Previous.

(** ** Reading the teardown phase *)

(** Whether an awaited command resolved. *)
Definition resolved (r : option thrown) : bool :=
  match r with None => true | Some _ => false end.

(** The four commands of [cleanup.ts]. *)
Definition IP_LINK_SHOW : operation :=
  OpExec (js "ip") [js "link"; js "show"; js "wg0"].
Definition WG_QUICK_DOWN : operation :=
  OpExec (js "sudo") [js "wg-quick"; js "down"; js "wg0"].
Definition TEST_CONFIG : operation :=
  OpExec (js "sudo") [js "test"; js "-f"; js "/etc/wireguard/wg0.conf"].
Definition RM_CONFIG : operation :=
  OpExec (js "sudo") [js "rm"; js "-f"; js "/etc/wireguard/wg0.conf"].

(** ** Configurations as lists of lines *)

(** The text of [lines], each ended by [\n]. *)
Definition unlines (lines : list jsstring) : jsstring :=
  flat_map (fun l => l ++ [LF]) lines.

(** The same with the line ends of Windows, [\r\n]. *)
Definition unlines_crlf (lines : list jsstring) : jsstring :=
  flat_map (fun l => l ++ [13; LF]) lines.

(** A line holds no line terminator. *)
Definition is_line (l : jsstring) : bool := forallb (accepts CDot) l.

(** The line [l] starts with [key], blanks, and [=]. *)
Definition assigns (key l : jsstring) : bool := key_then key is_equals l.

(** The line [l] holds [key] and blanks, nothing else. *)
Definition bare_key (key l : jsstring) : bool :=
  startsWith l key && forallb isWhiteSpace (skipn (length key) l).

(** ** Other ways of writing base64 *)

(** The characters the decoder of Node reads: those of its table, and the
    [=] that ends the decoding.  Every other character is passed over. *)
Definition significant (c : Z) : bool :=
  match unbase64 c with
  | Some _ => true
  | None => c mod 256 =? 61
  end.

(** RFC 4648, section 5: the URL-safe alphabet, without padding, as
    [Buffer.prototype.toString("base64url")] writes it. *)
Definition url_safe (c : Z) : Z :=
  if c =? 43 then 45 else if c =? 47 then 95 else c.

Definition base64url_encode (bs : list Z) : jsstring :=
  map url_safe (filter (fun c => negb (c =? 61)) (base64_encode bs)).

(** The decoder reads back the URL-safe character of a sextet, which is
    not [=]; to be checked on all sextets. *)
Definition url_ok (v : Z) : bool :=
  match unbase64 (url_safe (base64_char v)) with
  | Some w => (w =? v) && negb (base64_char v =? 61)
  | None => false
  end.

(** ** Inputs to try the setup phase on *)

(** The sample configuration as [wg-config-file], some [keep-dns], no
    [allowed-ips]. *)
Definition sample_inputs (keepDns : jsstring) (name : jsstring) : jsstring :=
  if jsstring_eqb name (js "wg-config-file") then sample_config
  else if jsstring_eqb name (js "keep-dns") then keepDns
  else [].

(* ================================================================== *)
(** * Properties *)

(** ** The teardown phase *)

Lemma fatal_messages_app (l1 l2 : list event) :
  fatal_messages (l1 ++ l2) = fatal_messages l1 ++ fatal_messages l2.
Proof. apply flat_map_app. Qed.

Lemma warnings_app (l1 l2 : list event) :
  warnings (l1 ++ l2) = warnings l1 ++ warnings l2.
Proof. apply flat_map_app. Qed.

Lemma operations_of_app (l1 l2 : list event) :
  operations_of (l1 ++ l2) = operations_of l1 ++ operations_of l2.
Proof. apply flat_map_app. Qed.

Lemma saved_states_app (l1 l2 : list event) :
  saved_states (l1 ++ l2) = saved_states l1 ++ saved_states l2.
Proof. apply flat_map_app. Qed.

(** Splits on the outcome of the next command the goal is waiting for. *)
Ltac next_outcome :=
  match goal with
  | |- context [match ?f ?c ?a ?w with pair _ _ => _ end] =>
      let E := fresh "E" in
      destruct (f c a w) as [[[?m|]|] ?w] eqn:E; cbn [fst snd world emitted]
  end.

Ltac run_phase :=
  cbv [cleanup run checkInterfaceExists checkFileExists try_catch bind ret
       throw exec writeFileSync info warning setFailed saveState emit
       world emitted].



(** An error of the delete command has no handler of its own: it reaches
    the outer [catch] and becomes the last thing emitted, a warning. *)
Lemma cleanup_delete_failure_warns :
  forall (World : Type)
         (exec_world : jsstring -> list jsstring -> World ->
                       option thrown * World)
         (st : state World) (e : thrown),
    (forall w,
        fst (exec_world (js "sudo")
               [js "test"; js "-f"; js "/etc/wireguard/wg0.conf"] w)
        = None) ->
    (forall w,
        fst (exec_world (js "sudo")
               [js "rm"; js "-f"; js "/etc/wireguard/wg0.conf"] w)
        = Some e) ->
    exists st' l,
      cleanup exec_world st = (inl tt, st') /\
      emitted st' = emitted st ++ l /\
      last l (Info [])
      = Warning match e with
                | ErrorObj message => js "Cleanup failed: " ++ message
                | OtherValue => js "Cleanup failed with unknown error"
                end.
Proof.
  intros World exec_world [w0 l0] e Htest Hrm.
  run_phase.
  repeat next_outcome;
    repeat match goal with
      | E : exec_world (js "sudo") [js "test"; _; _] ?w = _ |- _ =>
          let K := fresh "K" in
          pose proof (Htest w) as K; rewrite E in K; cbn [fst] in K;
          try discriminate K; clear E
      | E : exec_world (js "sudo") [js "rm"; _; _] ?w = _ |- _ =>
          let K := fresh "K" in
          pose proof (Hrm w) as K; rewrite E in K; cbn [fst] in K;
          try discriminate K; inversion K; subst; clear E
      end;
    (eexists; eexists; split; [reflexivity |]);
    (split; [cbn [emitted]; rewrite <- ?app_assoc; reflexivity |]);
    rewrite ?app_assoc; apply last_last.
Qed.

(** C8.  The interface probe succeeds, the down command is rejected with an
    [Error], the file probe succeeds and the delete command succeeds,
    leaving no configuration file: [cleanup] returns normally in the world
    the delete left, having issued the delete after the failed down, with
    exactly one warning and no fatal error. *)
Theorem cleanup_survives_down_failure :
  forall (World : Type)
         (exec_world : jsstring -> list jsstring -> World ->
                       option thrown * World)
         (file_exists : jsstring -> World -> bool)
         (st : state World) (message : jsstring) (w1 w2 w3 w4 : World),
    exec_world (js "ip") [js "link"; js "show"; js "wg0"] (world st)
      = (None, w1) ->
    exec_world (js "sudo") [js "wg-quick"; js "down"; js "wg0"] w1
      = (command_failure message, w2) ->
    exec_world (js "sudo") [js "test"; js "-f"; js "/etc/wireguard/wg0.conf"] w2
      = (None, w3) ->
    exec_world (js "sudo") [js "rm"; js "-f"; js "/etc/wireguard/wg0.conf"] w3
      = (None, w4) ->
    file_exists (js "/etc/wireguard/wg0.conf") w4 = false ->
    exists st',
      cleanup exec_world st = (inl tt, st') /\
      file_exists (js "/etc/wireguard/wg0.conf") (world st') = false /\
      exists l,
        emitted st' = emitted st ++ l /\
        warnings l = [js "Failed to stop WireGuard: " ++ message] /\
        fatal_messages l = [] /\
        operations_of l =
          [ OpExec (js "ip") [js "link"; js "show"; js "wg0"];
            OpExec (js "sudo") [js "wg-quick"; js "down"; js "wg0"];
            OpExec (js "sudo")
              [js "test"; js "-f"; js "/etc/wireguard/wg0.conf"];
            OpExec (js "sudo")
              [js "rm"; js "-f"; js "/etc/wireguard/wg0.conf"] ].
Proof.
  intros World exec_world file_exists [w0 l0] message w1 w2 w3 w4
         Hip Hdown Htest Hrm Hgone.
  cbn [world] in Hip.
  run_phase.
  rewrite Hip; cbn [fst snd world emitted].
  rewrite Hdown; cbn [fst snd world emitted command_failure].
  rewrite Htest; cbn [fst snd world emitted].
  rewrite Hrm; cbn [fst snd world emitted].
  eexists; split; [reflexivity |].
  split; [exact Hgone |].
  eexists; split; [cbn [emitted]; rewrite <- ?app_assoc; reflexivity |].
  repeat split.
Qed.

(** What the down command throws is tested with [instanceof Error]: a
    value of another kind is swallowed without a warning.  [exec.exec]
    rejects with [Error] objects only. *)
Remark cleanup_down_throws_other_value :
  forall (World : Type)
         (exec_world : jsstring -> list jsstring -> World ->
                       option thrown * World)
         (st : state World) (w1 w2 w3 w4 : World),
    exec_world (js "ip") [js "link"; js "show"; js "wg0"] (world st)
      = (None, w1) ->
    exec_world (js "sudo") [js "wg-quick"; js "down"; js "wg0"] w1
      = (Some OtherValue, w2) ->
    exec_world (js "sudo") [js "test"; js "-f"; js "/etc/wireguard/wg0.conf"] w2
      = (None, w3) ->
    exec_world (js "sudo") [js "rm"; js "-f"; js "/etc/wireguard/wg0.conf"] w3
      = (None, w4) ->
    exists l,
      cleanup exec_world st = (inl tt, mkState w4 (emitted st ++ l)) /\
      warnings l = [] /\ fatal_messages l = [].
Proof.
  intros World exec_world [w0 l0] w1 w2 w3 w4 Hip Hdown Htest Hrm.
  cbn [world] in Hip.
  run_phase.
  rewrite Hip; cbn [fst snd world emitted].
  rewrite Hdown; cbn [fst snd world emitted].
  rewrite Htest; cbn [fst snd world emitted].
  rewrite Hrm; cbn [fst snd world emitted].
  eexists. split; [rewrite <- ?app_assoc; reflexivity |].
  split; reflexivity.
Qed.

Lemma cleanup_survives_down_failure_witness :
  exists st',
    cleanup runner_exec (mkState (mkRunner true true [js "wg-quick"]) [])
      = (inl tt, st') /\
    runner_file_exists (js "/etc/wireguard/wg0.conf") (world st') = false /\
    warnings (emitted st')
      = [js "Failed to stop WireGuard: The process failed with exit code 1"].
Proof.
  destruct (cleanup_survives_down_failure runner runner_exec
              runner_file_exists
              (mkState (mkRunner true true [js "wg-quick"]) [])
              (js "The process failed with exit code 1")
              (mkRunner true true [js "wg-quick"])
              (mkRunner true true [js "wg-quick"])
              (mkRunner true true [js "wg-quick"])
              (mkRunner true false [js "wg-quick"])
              eq_refl eq_refl eq_refl eq_refl eq_refl)
    as [st' [Hrun [Hgone [l [Hl [Hw _]]]]]].
  exists st'. split; [exact Hrun |]. split; [exact Hgone |].
  rewrite Hl. exact Hw.
Defined.

(** ** The setup phase *)

(** [transformConfig] returns [effectiveConfig] and only logs. *)
Ltac run_transform :=
  cbv [effectiveConfig transform_log returned transformConfig
       overrideAllowedIps stripDns removeDnsConfig bind ret info emit negb
       fst snd world emitted].

Lemma transformConfig_run :
  forall (World : Type) (wgConfig allowedIps : jsstring) (keepDns : bool)
         (st : state World),
    transformConfig wgConfig allowedIps keepDns st
    = (inl (effectiveConfig wgConfig allowedIps keepDns),
       mkState (world st)
         (emitted st ++ transform_log wgConfig allowedIps keepDns)).
Proof.
  intros World wgConfig allowedIps keepDns [w l].
  run_transform.
  generalize (decodeConfig wgConfig); intros c.
  destruct (truthy allowedIps), keepDns; cbn [app];
    rewrite ?app_nil_r; try reflexivity;
    match goal with
    | |- context [matches ?c ?r] => destruct (matches c r); cbn [app]
    end;
    rewrite <- ?app_assoc, ?app_nil_r; reflexivity.
Qed.

Lemma transform_log_quiet (wgConfig allowedIps : jsstring) (keepDns : bool) :
  operations_of (transform_log wgConfig allowedIps keepDns) = [] /\
  fatal_messages (transform_log wgConfig allowedIps keepDns) = [] /\
  saved_states (transform_log wgConfig allowedIps keepDns) = [].
Proof.
  run_transform.
  generalize (decodeConfig wgConfig); intros c.
  destruct (truthy allowedIps), keepDns; cbn [app];
    try (repeat split; fail);
    match goal with
    | |- context [matches ?c ?r] => destruct (matches c r); repeat split
    end.
Qed.

Ltac setup_outcome Hff :=
  match type of Hff with
  | context [match ?f ?c ?a ?w with pair _ _ => _ end] =>
      let E := fresh "E" in
      destruct (f c a w) as [[?e|] ?w] eqn:E; cbn [fst snd world emitted] in *
  | context [match ?f ?p ?d ?m ?w with pair _ _ => _ end] =>
      let E := fresh "E" in
      destruct (f p d m w) as [[?e|] ?w] eqn:E;
      cbn [fst snd world emitted] in *
  end.

(** C7.  The required input is supplied and, of the operations of steps 1
    to 6 (refresh, install, mkdir, write, move, chmod, tunnel up), the one
    at index [k] is the first to throw, the value [e].  Then [run] issues
    the operations up to that one and no other, calls [core.setFailed]
    once, last, with the message of [e] when [e] is an [Error] (the generic
    text when it is any other value), and never records the
    [wireguard-started] state. *)
Theorem run_fails_fast :
  forall (World : Type)
         (exec_world : jsstring -> list jsstring -> World ->
                       option thrown * World)
         (write_world : jsstring -> jsstring -> Z -> World ->
                        option thrown * World)
         (inputs : jsstring -> jsstring)
         (st : state World) (k : nat) (e : thrown),
    truthy (inputs (js "wg-config-file")) = true ->
    (k < 7)%nat ->
    first_failure exec_world write_world
      (setup_operations (configured inputs)) (world st)
      = Some (k, e) ->
    let failure :=
      match e with
      | ErrorObj message => js "Action failed: " ++ message
      | OtherValue => js "Action failed with unknown error"
      end in
    exists st',
      run exec_world write_world inputs st = (inl tt, st') /\
      exists l,
        emitted st' = emitted st ++ l /\
        operations_of l
          = firstn (S k) (setup_operations (configured inputs)) /\
        fatal_messages l = [failure] /\
        last l (Info []) = SetFailed failure /\
        saved_states l = [].
Proof.
  intros World exec_world write_world inputs [w0 l0] k e Hin Hk Hff failure.
  subst failure.
  unfold configured in *.
  cbn [first_failure setup_operations perform world] in Hff.
  run_phase.
  cbv [getInput andb negb throw ret].
  rewrite Hin.
  repeat (setup_outcome Hff; cbv beta iota zeta in *;
          rewrite ?transformConfig_run; cbn [fst snd world emitted] in *);
    try discriminate Hff;
    inversion Hff; subst; try lia;
    match goal with
    | |- context [match ?x with ErrorObj _ => _ | OtherValue => _ end] =>
        destruct x
    end;
    (eexists; split; [reflexivity |]);
    (eexists; split; [rewrite <- ?app_assoc; reflexivity |]);
    destruct (transform_log_quiet (trim (inputs (js "wg-config-file")))
                (trim (inputs (js "allowed-ips")))
                (jsstring_eqb (trim (inputs (js "keep-dns"))) (js "true")))
      as [Hops [Hfatal Hsaved]];
    repeat split;
    rewrite ?operations_of_app, ?fatal_messages_app, ?saved_states_app,
      ?Hops, ?Hfatal, ?Hsaved;
    try reflexivity;
    rewrite ?app_assoc; apply last_last.
Qed.

Lemma run_fails_fast_witness :
  exists st',
    run runner_exec runner_write
      (fun name => if jsstring_eqb name (js "wg-config-file")
                   then js "[Interface]" else [])
      (mkState (mkRunner false false [js "wg-quick"]) [])
    = (inl tt, st') /\
    fatal_messages (emitted st')
    = [js "Action failed: The process failed with exit code 1"] /\
    saved_states (emitted st') = [].
Proof.
  destruct (run_fails_fast runner runner_exec runner_write
              (fun name => if jsstring_eqb name (js "wg-config-file")
                           then js "[Interface]" else [])
              (mkState (mkRunner false false [js "wg-quick"]) [])
              6%nat (ErrorObj (js "The process failed with exit code 1"))
              eq_refl (Nat.lt_succ_diag_r 6) eq_refl)
    as [st' [Hrun [l [Hl [_ [Hfatal [_ Hsaved]]]]]]].
  exists st'. split; [exact Hrun |].
  rewrite Hl. split; [exact Hfatal | exact Hsaved].
Defined.

(** ** The matcher on the patterns of [main.ts] *)

Lemma matchAt_star_cons (k : cclass) (r : regex) (prev : option Z) (c : Z)
    (s : jsstring) :
  matchAt (Star k :: r) prev (c :: s) =
  if accepts k c then
    match matchAt (Star k :: r) (Some c) s with
    | Some n => Some (S n)
    | None => matchAt r prev (c :: s)
    end
  else matchAt r prev (c :: s).
Proof. reflexivity. Qed.

Lemma matchAt_star_nil (k : cclass) (r : regex) (prev : option Z) :
  matchAt (Star k :: r) prev [] = matchAt r prev [].
Proof. reflexivity. Qed.

Lemma matchAt_anchor_free (r : regex) :
  anchor_free r = true ->
  forall p1 p2 s, matchAt r p1 s = matchAt r p2 s.
Proof.
  induction r as [| n r IH]; intros Hr; [reflexivity |].
  destruct n as [| k | k | k]; cbn [anchor_free] in Hr; try discriminate Hr.
  - reflexivity.
  - intros p1 p2 s; revert p1 p2.
    induction s as [| c s IHs]; intros p1 p2.
    + rewrite !matchAt_star_nil. now apply IH.
    + rewrite !matchAt_star_cons. rewrite (IH Hr p1 p2). reflexivity.
  - intros p1 p2 s. cbn [matchAt]. now rewrite (IH Hr p1 p2).
Qed.

Lemma matchAt_lit (key : jsstring) (r : regex) :
  anchor_free r = true ->
  forall prev s,
    matchAt (map (fun c => One (CChar c)) key ++ r) prev s =
    if startsWith s key then
      option_map (Nat.add (length key)) (matchAt r prev (skipn (length key) s))
    else None.
Proof.
  intros Hr. induction key as [| k key IH]; intros prev s.
  - cbn. now destruct (matchAt r prev s).
  - destruct s as [| c s];
      cbn [map app matchAt step_one startsWith length skipn];
      [reflexivity |].
    cbn [accepts]. destruct (c =? k); cbn [andb]; [| reflexivity].
    rewrite IH. destruct (startsWith s key); [| reflexivity].
    rewrite (matchAt_anchor_free r Hr (Some c) prev).
    now destruct (matchAt r prev (skipn (length key) s)).
Qed.

Lemma matchAt_blank_eq (r : regex) (prev : option Z) (s : jsstring) :
  matchAt (Star CSpace :: One (CChar 61) :: r) prev s =
  match skipn (span (accepts CSpace) s) s with
  | c :: t =>
      if c =? 61 then
        option_map (fun n => (span (accepts CSpace) s + 1 + n)%nat)
          (matchAt r (Some 61) t)
      else None
  | [] => None
  end.
Proof.
  revert prev. induction s as [| c s IH]; intros prev.
  - reflexivity.
  - rewrite matchAt_star_cons. cbn [span].
    destruct (accepts CSpace c) eqn:Hc.
    + cbn [skipn]. rewrite IH.
      destruct (skipn (span (accepts CSpace) s) s) as [| d t].
      * cbn [matchAt step_one accepts].
        destruct (c =? 61) eqn:Hd; [| reflexivity].
        apply Z.eqb_eq in Hd; subst c; discriminate Hc.
      * destruct (d =? 61) eqn:Hd.
        -- destruct (matchAt r (Some 61) t); [reflexivity |].
           cbn [matchAt step_one accepts option_map].
           destruct (c =? 61) eqn:Hc'; [| reflexivity].
           apply Z.eqb_eq in Hc'; subst c; discriminate Hc.
        -- cbn [matchAt step_one accepts].
           destruct (c =? 61) eqn:Hc'; [| reflexivity].
           apply Z.eqb_eq in Hc'; subst c; discriminate Hc.
    + cbn [skipn matchAt step_one accepts].
      destruct (c =? 61) eqn:Hd; [| reflexivity].
      apply Z.eqb_eq in Hd; subst c.
      now destruct (matchAt r (Some 61) s).
Qed.

Lemma matchAt_rest_of_line (prev : option Z) (s : jsstring) :
  matchAt [Star CDot] prev s = Some (span (accepts CDot) s).
Proof.
  revert prev. induction s as [| c s IH]; intros prev; [reflexivity |].
  rewrite matchAt_star_cons. cbn [span].
  destruct (accepts CDot c); [now rewrite IH | reflexivity].
Qed.

Lemma matchAt_rest_of_line_nl (prev : option Z) (s : jsstring) :
  matchAt [Star CDot; Opt (CChar 10)] prev s =
  Some (span (accepts CDot) s +
        match skipn (span (accepts CDot) s) s with
        | c :: _ => if (c =? 10)%Z then 1 else 0
        | [] => 0
        end)%nat.
Proof.
  revert prev. induction s as [| c s IH]; intros prev; [reflexivity |].
  rewrite matchAt_star_cons. cbn [span].
  destruct (accepts CDot c) eqn:Hc.
  - rewrite IH. reflexivity.
  - cbn [matchAt step_one accepts skipn Nat.add option_map].
    now destruct (c =? 10).
Qed.

Lemma matchAt_line (key : jsstring) (prev : option Z) (s : jsstring) :
  matchAt (Bol :: map (fun c => One (CChar c)) key ++
           [Star CSpace; One (CChar 61); Star CDot]) prev s
  = line_match key false prev s.
Proof.
  unfold line_match. cbn [matchAt].
  destruct (at_line_start prev); [| reflexivity]. cbn [andb].
  rewrite matchAt_lit by reflexivity.
  destruct (startsWith s key); [| reflexivity].
  rewrite matchAt_blank_eq.
  destruct (skipn _ (skipn (length key) s)) as [| c t]; [reflexivity |].
  destruct (c =? 61); [| reflexivity].
  rewrite matchAt_rest_of_line. cbn [option_map andb].
  f_equal. destruct (skipn (span (accepts CDot) t) t); lia.
Qed.

Lemma matchAt_line_nl (key : jsstring) (prev : option Z) (s : jsstring) :
  matchAt (Bol :: map (fun c => One (CChar c)) key ++
           [Star CSpace; One (CChar 61); Star CDot; Opt (CChar 10)]) prev s
  = line_match key true prev s.
Proof.
  unfold line_match. cbn [matchAt].
  destruct (at_line_start prev); [| reflexivity]. cbn [andb].
  rewrite matchAt_lit by reflexivity.
  destruct (startsWith s key); [| reflexivity].
  rewrite matchAt_blank_eq.
  destruct (skipn _ (skipn (length key) s)) as [| c t]; [reflexivity |].
  destruct (c =? 61); [| reflexivity].
  rewrite matchAt_rest_of_line_nl. cbn [option_map andb].
  reflexivity.
Qed.

Lemma matchAt_DNS_RE (prev : option Z) (s : jsstring) :
  matchAt DNS_RE prev s = line_match (js "DNS") false prev s.
Proof. exact (matchAt_line (js "DNS") prev s). Qed.

Lemma matchAt_DNS_LINE_RE (prev : option Z) (s : jsstring) :
  matchAt DNS_LINE_RE prev s = line_match (js "DNS") true prev s.
Proof. exact (matchAt_line_nl (js "DNS") prev s). Qed.

Lemma matchAt_ALLOWED_IPS_RE (prev : option Z) (s : jsstring) :
  matchAt ALLOWED_IPS_RE prev s = line_match (js "AllowedIPs") false prev s.
Proof. exact (matchAt_line (js "AllowedIPs") prev s). Qed.

(** The two DNS patterns match at the same places. *)
Lemma line_match_none_iff (key : jsstring) (prev : option Z) (s : jsstring) :
  line_match key false prev s = None <-> line_match key true prev s = None.
Proof.
  unfold line_match.
  destruct (at_line_start prev && startsWith s key); [| tauto].
  destruct (skipn _ (skipn (length key) s)) as [| c t]; [tauto |].
  destruct (c =? 61); [| tauto].
  split; discriminate.
Qed.

(** ** Spans and prefixes *)

Lemma span_le (p : Z -> bool) (s : jsstring) : (span p s <= length s)%nat.
Proof.
  induction s as [| c s IH]; cbn; [lia |]. destruct (p c); cbn; lia.
Qed.

Lemma span_firstn (p : Z -> bool) (s : jsstring) :
  forallb p (firstn (span p s) s) = true.
Proof.
  induction s as [| c s IH]; cbn; [reflexivity |].
  destruct (p c) eqn:Hc; cbn; [now rewrite Hc |reflexivity].
Qed.

Lemma span_skipn (p : Z -> bool) (s : jsstring) :
  match skipn (span p s) s with
  | c :: _ => p c = false
  | [] => True
  end.
Proof.
  induction s as [| c s IH]; cbn; [exact I |].
  destruct (p c) eqn:Hc; cbn; [exact IH | exact Hc].
Qed.

Lemma span_app_stop (p : Z -> bool) (u : jsstring) (c : Z) (t : jsstring) :
  forallb p u = true -> p c = false -> span p (u ++ c :: t) = length u.
Proof.
  intros Hu Hc. induction u as [| x u IH]; cbn.
  - now rewrite Hc.
  - cbn in Hu. apply andb_prop in Hu as [Hx Hu]. rewrite Hx.
    now rewrite IH.
Qed.

Lemma startsWith_app (s key : jsstring) :
  startsWith s key = true <-> exists t, s = key ++ t.
Proof.
  revert s. induction key as [| k key IH]; intros s; cbn.
  - split; [intros _; now exists s | reflexivity].
  - destruct s as [| c s].
    + split; [discriminate | intros [t Ht]; discriminate Ht].
    + split.
      * intros H. apply andb_prop in H as [Hc H]. apply Z.eqb_eq in Hc.
        apply IH in H as [t Ht]. exists t. now subst.
      * intros [t Ht]. inversion Ht; subst.
        rewrite Z.eqb_refl. cbn. apply IH. now exists t.
Qed.

Lemma skipn_length_app (u v : jsstring) : skipn (length u) (u ++ v) = v.
Proof. induction u; cbn; auto. Qed.

Lemma firstn_length_app (u v : jsstring) : firstn (length u) (u ++ v) = u.
Proof. induction u; cbn; [reflexivity | now f_equal]. Qed.

Ltac list_length :=
  repeat (rewrite ?length_app, ?length_firstn, ?length_rev; cbn [length]);
  lia.

(** What a match of a line pattern is made of. *)
Lemma line_match_Some (key : jsstring) (with_nl : bool) (prev : option Z)
    (s : jsstring) (n : nat) :
  line_match key with_nl prev s = Some n ->
  at_line_start prev = true /\
  exists ws body nl rest,
    s = key ++ ws ++ 61 :: body ++ nl ++ rest /\
    forallb (accepts CSpace) ws = true /\
    forallb (accepts CDot) body = true /\
    (if with_nl then
       nl = [LF] \/
       (nl = [] /\
        match rest with
        | [] => True
        | c :: _ => isLineTerminator c = true /\ c <> LF
        end)
     else nl = [] /\
          match rest with
          | [] => True
          | c :: _ => isLineTerminator c = true
          end) /\
    n = length (key ++ ws ++ 61 :: body ++ nl).
Proof.
  unfold line_match.
  destruct (at_line_start prev); [| discriminate]. cbn [andb].
  destruct (startsWith s key) eqn:Hkey; [| discriminate].
  apply startsWith_app in Hkey as [r ->].
  rewrite skipn_length_app.
  pose proof (span_firstn (accepts CSpace) r) as Hws.
  pose proof (firstn_skipn (span (accepts CSpace) r) r) as Hr.
  destruct (skipn (span (accepts CSpace) r) r) as [| c t]; [discriminate |].
  destruct (c =? 61) eqn:Hc; [| discriminate].
  apply Z.eqb_eq in Hc; subst c.
  pose proof (span_firstn (accepts CDot) t) as Hbody.
  pose proof (firstn_skipn (span (accepts CDot) t) t) as Ht.
  pose proof (span_skipn (accepts CDot) t) as Hstop.
  pose proof (span_le (accepts CSpace) r) as Hlw.
  pose proof (span_le (accepts CDot) t) as Hlb.
  intros Hn. split; [reflexivity |].
  exists (firstn (span (accepts CSpace) r) r),
         (firstn (span (accepts CDot) t) t).
  destruct (skipn (span (accepts CDot) t) t) as [| d u] eqn:Hu.
  - exists [], []. rewrite !app_nil_r in *.
    split; [now rewrite Ht, Hr |].
    repeat split; auto.
    + destruct with_nl; [right |]; now split.
    + inversion Hn. list_length.
  - cbn [accepts] in Hstop. apply negb_false_iff in Hstop.
    destruct (with_nl && (d =? 10)) eqn:Hd.
    + apply andb_prop in Hd as [-> Hd]. apply Z.eqb_eq in Hd. subst d.
      exists [LF], u.
      split; [unfold LF; cbn [app]; rewrite Ht, Hr; reflexivity |].
      repeat split; auto.
      inversion Hn. list_length.
    + exists [], (d :: u). cbn [app].
      split; [rewrite Ht, Hr; reflexivity |].
      repeat split; auto.
      * destruct with_nl.
        -- right. split; [reflexivity |]. split; [exact Hstop |].
           cbn in Hd. unfold LF. intros ->. discriminate Hd.
        -- now split.
      * inversion Hn. list_length.
Qed.

Lemma line_match_None (key : jsstring) (with_nl : bool) (prev : option Z)
    (s : jsstring) :
  line_match key with_nl prev s = None -> ~ AssignmentAt key prev s.
Proof.
  unfold line_match. intros H [Hprev [ws [tail [Hws ->]]]].
  rewrite Hprev in H. cbn [andb] in H.
  assert (Hk : startsWith (key ++ ws ++ 61 :: tail) key = true)
    by (apply startsWith_app; eauto).
  rewrite Hk, skipn_length_app in H.
  rewrite (span_app_stop _ ws 61 tail Hws eq_refl) in H.
  rewrite skipn_length_app in H. cbn in H.
  destruct (skipn _ tail); discriminate H.
Qed.

Lemma line_match_AssignmentAt (key : jsstring) (with_nl : bool)
    (prev : option Z) (s : jsstring) (n : nat) :
  line_match key with_nl prev s = Some n -> AssignmentAt key prev s.
Proof.
  intros H. apply line_match_Some in H
    as [Hprev [ws [body [nl [rest [-> [Hws _]]]]]]].
  split; [exact Hprev |]. exists ws, (body ++ nl ++ rest). now split.
Qed.

(** ** The global replacement *)

Lemma matchAt_le (r : regex) :
  forall prev s n, matchAt r prev s = Some n -> (n <= length s)%nat.
Proof.
  induction r as [| nd r IH]; intros prev s n.
  - cbn. intros H; inversion H. lia.
  - destruct nd as [| k | k | k].
    + cbn [matchAt]. destruct (at_line_start prev); [apply IH | discriminate].
    + destruct s as [| c s]; cbn [matchAt step_one]; [discriminate |].
      destruct (accepts k c); [| discriminate].
      destruct (matchAt r (Some c) s) eqn:E; [| discriminate].
      cbn. intros H; inversion H. apply IH in E. cbn. lia.
    + revert prev n. induction s as [| c s IHs]; intros prev n.
      * rewrite matchAt_star_nil. apply IH.
      * rewrite matchAt_star_cons.
        destruct (accepts k c); [| apply IH].
        destruct (matchAt (Star k :: r) (Some c) s) eqn:E; [| apply IH].
        intros H; inversion H. apply IHs in E. cbn. lia.
    + destruct s as [| c s]; cbn [matchAt step_one]; [apply IH |].
      destruct (accepts k c); [| apply IH].
      destruct (matchAt r (Some c) s) eqn:E; [| apply IH].
      cbn. intros H; inversion H. apply IH in E. cbn. lia.
Qed.

Lemma replace_scan_skip (r : regex) (t : jsstring) :
  forall k s before,
    (k <= length s)%nat ->
    replace_scan r t before k s
    = replace_scan r t (rev (firstn k s) ++ before) 0 (skipn k s).
Proof.
  induction k as [| k IH]; intros s before Hk.
  - reflexivity.
  - destruct s as [| c s]; [cbn in Hk; lia |].
    cbn [replace_scan firstn skipn rev]. rewrite IH by (cbn in Hk; lia).
    now rewrite <- app_assoc.
Qed.

Lemma replace_scan_hit (r : regex) (t before s : jsstring) (k : nat) :
  matchAt r (hd_error before) s = Some (S k) ->
  replace_scan r t before 0 s
  = GetSubstitution (firstn (S k) s) (rev before) (skipn (S k) s) t ++
    replace_scan r t (rev (firstn (S k) s) ++ before) 0 (skipn (S k) s).
Proof.
  intros H. pose proof (matchAt_le _ _ _ _ H) as Hle.
  destruct s as [| c s]; [cbn in Hle; lia |].
  cbn [replace_scan]. rewrite H. f_equal.
  rewrite replace_scan_skip by (cbn in Hle; lia).
  cbn [firstn skipn rev]. now rewrite <- app_assoc.
Qed.

Lemma replace_scan_miss (r : regex) (t before : jsstring) (c : Z)
    (s : jsstring) :
  matchAt r (hd_error before) (c :: s) = None ->
  replace_scan r t before 0 (c :: s)
  = c :: replace_scan r t (c :: before) 0 s.
Proof. intros H. cbn [replace_scan]. now rewrite H. Qed.

Lemma replace_scan_end (r : regex) (t before : jsstring) :
  matchAt r (hd_error before) [] = None ->
  replace_scan r t before 0 [] = [].
Proof. intros H. cbn [replace_scan]. now rewrite H. Qed.

(** Where the pattern matches nowhere, the global replacement changes
    nothing. *)
Lemma replace_scan_no_match (r : regex) (t : jsstring) :
  forall s before,
    search r (hd_error before) s = None ->
    replace_scan r t before 0 s = s.
Proof.
  induction s as [| c s IH]; intros before H; cbn [search] in H.
  - destruct (matchAt r (hd_error before) []) eqn:E; [discriminate |].
    now apply replace_scan_end.
  - destruct (matchAt r (hd_error before) (c :: s)) eqn:E; [discriminate |].
    rewrite replace_scan_miss by exact E. f_equal. apply IH.
    cbn [hd_error]. destruct (search r (Some c) s) as [[i n] |];
      [discriminate | reflexivity].
Qed.

Lemma search_none_ext (r1 r2 : regex) :
  (forall prev s, matchAt r1 prev s = None -> matchAt r2 prev s = None) ->
  forall s prev, search r1 prev s = None -> search r2 prev s = None.
Proof.
  intros Hext. induction s as [| c s IH]; intros prev; cbn [search].
  - destruct (matchAt r1 prev []) eqn:E; [discriminate |].
    now rewrite (Hext _ _ E).
  - destruct (matchAt r1 prev (c :: s)) eqn:E; [discriminate |].
    rewrite (Hext _ _ E).
    destruct (search r1 (Some c) s) as [[i n] |] eqn:E1; [discriminate |].
    now rewrite (IH _ E1).
Qed.

Lemma js_DNS : js "DNS" = [68; 78; 83].
Proof. reflexivity. Qed.

Lemma hd_error_rev_match (u : jsstring) (c : Z) (v before : jsstring) :
  hd_error (rev (u ++ c :: v) ++ before) = Some (last (c :: v) c).
Proof.
  rewrite rev_app_distr. cbn [rev].
  revert c. induction v as [| d v IH] using rev_ind; intros c.
  - reflexivity.
  - rewrite rev_app_distr. cbn [rev app hd_error].
    change (c :: v ++ [d]) with ((c :: v) ++ [d]). now rewrite last_last.
Qed.

(** ** [removeDnsConfig] *)

Lemma removeDnsConfig_run :
  forall (World : Type) (configContent : jsstring) (st : state World),
  exists l,
    removeDnsConfig configContent st
    = (inl (replace_all DNS_LINE_RE [] configContent),
       mkState (world st) (emitted st ++ l)) /\
    (l = [] \/
     l = [Info (js "Removing DNS setting to prevent resolvconf hang...")]).
Proof.
  intros World configContent [w l0].
  unfold removeDnsConfig, matches.
  destruct (search DNS_RE None configContent) as [p |] eqn:E.
  - eexists. split; [reflexivity | now right].
  - exists []. split; [| now left].
    unfold ret, replace_all. cbn [world emitted]. rewrite app_nil_r.
    rewrite replace_scan_no_match; [reflexivity |].
    cbn [hd_error]. revert E. apply search_none_ext.
    intros prev s. rewrite matchAt_DNS_RE, matchAt_DNS_LINE_RE.
    apply line_match_none_iff.
Qed.

(** C10.  [removeDnsConfig] returns what the single global replacement
    [configContent.replace(/^DNS\s*=.*\n?/gm, "")] returns, for every
    input: the [match] test before it only decides whether the line is
    logged, never the returned string, and the world is left as it was. *)
Theorem removeDnsConfig_is_global_replace :
  forall (World : Type) (configContent : jsstring) (st : state World),
    returned (removeDnsConfig configContent) st
    = Some (replace_all DNS_LINE_RE [] configContent) /\
    world (snd (removeDnsConfig configContent st)) = world st /\
    (emitted (snd (removeDnsConfig configContent st)) = emitted st \/
     emitted (snd (removeDnsConfig configContent st))
     = emitted st ++
       [Info (js "Removing DNS setting to prevent resolvconf hang...")]).
Proof.
  intros World configContent st.
  destruct (removeDnsConfig_run World configContent st) as [l [Hrun Hl]].
  unfold returned. rewrite Hrun. cbn [fst snd world emitted].
  repeat split.
  destruct Hl as [-> | ->]; [left; apply app_nil_r | now right].
Qed.

(** ** The DNS removal *)

Lemma line_match_length_pos (key : jsstring) (b : bool) (prev : option Z)
    (s : jsstring) (n : nat) :
  line_match key b prev s = Some n -> exists k, n = S k.
Proof.
  unfold line_match.
  destruct (at_line_start prev && startsWith s key); [| discriminate].
  destruct (skipn _ (skipn (length key) s)) as [| c t]; [discriminate |].
  destruct (c =? 61); [| discriminate].
  intros H; inversion H as [Hn].
  destruct n as [| k]; [lia | now exists k].
Qed.




Lemma isWhiteSpace_not_terminator (c : Z) :
  isWhiteSpace c = true -> isLineTerminator c = false.
Proof.
  unfold isWhiteSpace, isLineTerminator. intros H.
  repeat (apply orb_prop in H as [H | H]);
    try (apply andb_prop in H as [H1 H2]; apply Z.leb_le in H1, H2);
    try apply Z.eqb_eq in H;
    repeat (apply orb_false_intro); apply Z.eqb_neq; lia.
Qed.

Lemma replace_scan_inside_line (t before : jsstring) (c : Z) (s : jsstring) :
  at_line_start (hd_error before) = false ->
  replace_scan DNS_LINE_RE t before 0 (c :: s)
  = c :: replace_scan DNS_LINE_RE t (c :: before) 0 s.
Proof.
  intros H. apply replace_scan_miss. rewrite matchAt_DNS_LINE_RE.
  unfold line_match. now rewrite H.
Qed.

Lemma replace_scan_inside_line_end (t before : jsstring) :
  at_line_start (hd_error before) = false ->
  replace_scan DNS_LINE_RE t before 0 [] = [].
Proof.
  intros H. apply replace_scan_end. rewrite matchAt_DNS_LINE_RE.
  unfold line_match. now rewrite H.
Qed.

(** Inside a line, the blanks and the character after them are the ones of
    the input. *)
Lemma replace_scan_blanks (t : jsstring) :
  forall s before,
    at_line_start (hd_error before) = false ->
    match skipn (span isWhiteSpace (replace_scan DNS_LINE_RE t before 0 s))
            (replace_scan DNS_LINE_RE t before 0 s) with
    | c :: _ => c =? 61
    | [] => false
    end
    = match skipn (span isWhiteSpace s) s with
      | c :: _ => c =? 61
      | [] => false
      end.
Proof.
  induction s as [| c s IH]; intros before H.
  - now rewrite replace_scan_inside_line_end.
  - rewrite replace_scan_inside_line by exact H. cbn [span].
    destruct (isWhiteSpace c) eqn:Hc; [| reflexivity].
    cbn [skipn]. apply IH. cbn [hd_error at_line_start].
    now apply isWhiteSpace_not_terminator.
Qed.

Lemma replace_scan_dns_line_at (t : jsstring) (s before : jsstring) :
  matchAt DNS_LINE_RE (hd_error before) s = None ->
  dns_line_at (replace_scan DNS_LINE_RE t before 0 s) = dns_line_at s.
Proof.
  intros E. unfold dns_line_at. rewrite js_DNS.
  destruct s as [| c1 s]; [now rewrite replace_scan_end |].
  rewrite replace_scan_miss by exact E. cbn [startsWith].
  destruct (c1 =? 68) eqn:H1; [| reflexivity].
  apply Z.eqb_eq in H1; subst c1.
  destruct s as [| c2 s]; [now rewrite replace_scan_inside_line_end |].
  rewrite replace_scan_inside_line by reflexivity. cbn [startsWith].
  destruct (c2 =? 78) eqn:H2; [| reflexivity].
  apply Z.eqb_eq in H2; subst c2.
  destruct s as [| c3 s]; [now rewrite replace_scan_inside_line_end |].
  rewrite replace_scan_inside_line by reflexivity. cbn [startsWith].
  destruct (c3 =? 83) eqn:H3; [| reflexivity].
  apply Z.eqb_eq in H3; subst c3.
  cbn [andb skipn]. now apply replace_scan_blanks.
Qed.

Lemma dns_line_at_AssignmentAt (prev : option Z) (s : jsstring) :
  at_line_start prev = true -> dns_line_at s = true ->
  AssignmentAt (js "DNS") prev s.
Proof.
  unfold dns_line_at. intros Hprev H. apply andb_prop in H as [Hk H].
  apply startsWith_app in Hk as [r ->].
  change 3%nat with (length (js "DNS")) in H.
  rewrite skipn_length_app in H.
  pose proof (span_firstn isWhiteSpace r) as Hws.
  pose proof (firstn_skipn (span isWhiteSpace r) r) as Hr.
  destruct (skipn (span isWhiteSpace r) r) as [| c t]; [discriminate |].
  apply Z.eqb_eq in H; subst c.
  split; [exact Hprev |].
  exists (firstn (span isWhiteSpace r) r), t. split; [| now rewrite Hr].
  eapply forallb_forall. intros x Hx.
  rewrite forallb_forall in Hws. cbn [accepts]. now rewrite (Hws x Hx).
Qed.

(** No line of what the scan returns starts with [DNS], blanks and [=].
    [oprev] is the last character kept so far, [before] the input passed
    so far. *)
Lemma replace_scan_no_dns_line :
  forall n s before oprev,
    (length s <= n)%nat ->
    (at_line_start oprev = true ->
     at_line_start (hd_error before) = true \/ startsWith s [68] = false) ->
    has_dns_line oprev (replace_scan DNS_LINE_RE [] before 0 s) = false.
Proof.
  induction n as [| n IH]; intros s before oprev Hn Hsync.
  - destruct s; [| cbn in Hn; lia].
    destruct (matchAt DNS_LINE_RE (hd_error before) []) eqn:E.
    + rewrite matchAt_DNS_LINE_RE in E. unfold line_match in E.
      destruct (at_line_start (hd_error before)); discriminate E.
    + rewrite replace_scan_end by exact E. cbn.
      now rewrite andb_false_r.
  - destruct (matchAt DNS_LINE_RE (hd_error before) s) as [m |] eqn:E.
    + pose proof E as E'. rewrite matchAt_DNS_LINE_RE in E'.
      destruct (line_match_length_pos _ _ _ _ _ E') as [k ->].
      rewrite (replace_scan_hit _ _ _ _ _ E). cbn [GetSubstitution app].
      apply line_match_Some in E'
        as [Hprev [ws [body [nl [rest [Hs [Hws [Hbody [Hbreak Hlen]]]]]]]]].
      rewrite Hlen.
      assert (Hs' : s = (js "DNS" ++ ws ++ 61 :: body ++ nl) ++ rest)
        by (rewrite Hs, <- !app_assoc; cbn [app];
            now rewrite <- !app_assoc).
      rewrite (f_equal (firstn _) Hs'), (f_equal (skipn _) Hs').
      rewrite firstn_length_app, skipn_length_app.
      apply IH.
      * rewrite Hs in Hn. rewrite !length_app in Hn. cbn [length] in Hn.
        rewrite !length_app in Hn. rewrite js_DNS in Hn. cbn [length] in Hn.
        lia.
      * intros _.
        replace (js "DNS" ++ ws ++ 61 :: body ++ nl)
          with ((js "DNS" ++ ws) ++ 61 :: body ++ nl)
          by now rewrite <- app_assoc.
        rewrite hd_error_rev_match.
        destruct Hbreak as [-> | [-> Hrest]].
        -- left. change (61 :: body ++ [LF]) with ((61 :: body) ++ [LF]).
           now rewrite last_last.
        -- right. destruct rest as [| c rest]; [reflexivity |].
           destruct Hrest as [Hlt _]. cbn [startsWith].
           destruct (c =? 68) eqn:Hc; [| reflexivity].
           apply Z.eqb_eq in Hc; subst c. discriminate Hlt.
    + pose proof (replace_scan_dns_line_at [] s before E) as Hline.
      assert (Hhere : at_line_start oprev && dns_line_at s = false).
      { destruct (at_line_start oprev) eqn:Ho; [| reflexivity].
        cbn [andb]. destruct (dns_line_at s) eqn:Hd; [| reflexivity].
        destruct (Hsync eq_refl) as [Hb | Hb].
        - exfalso. rewrite matchAt_DNS_LINE_RE in E.
          apply line_match_None in E. apply E.
          now apply dns_line_at_AssignmentAt.
        - unfold dns_line_at in Hd. rewrite js_DNS in Hd.
          destruct s as [| c s]; [discriminate Hd |].
          cbn [startsWith] in Hd, Hb.
          destruct (c =? 68); [discriminate Hb | discriminate Hd]. }
      destruct s as [| c s].
      * rewrite replace_scan_end by exact E. cbn [has_dns_line].
        now rewrite Hhere.
      * rewrite replace_scan_miss in * by exact E. cbn [has_dns_line].
        rewrite Hline, Hhere. cbn [orb].
        apply IH; [cbn in Hn; lia |]. intros H. now left.
Qed.




(** A DNS assignment that spreads over lines can still be left: removing
    the line between [DNS] and [= x] joins them. *)
Example stripDns_can_leave_a_match :
  replace_all DNS_LINE_RE []
    (js "DNS" ++ [LF] ++ js "DNS = 1" ++ [LF] ++ js "= x")
  = js "DNS" ++ [LF] ++ js "= x" /\
  matches (js "DNS" ++ [LF] ++ js "= x") DNS_RE = true.
Proof. split; reflexivity. Qed.

(** ** The AllowedIPs override *)

Lemma GetSubstitution_literal (matched pre post template : jsstring) :
  forallb (fun c => negb (c =? 36)) template = true ->
  GetSubstitution matched pre post template = template.
Proof.
  induction template as [| c t IH]; cbn [GetSubstitution forallb];
    [reflexivity |].
  intros H. apply andb_prop in H as [Hc Ht].
  apply negb_true_iff in Hc. rewrite Hc. f_equal. now apply IH.
Qed.

Lemma assignment_assoc (key ws body rest : jsstring) :
  (key ++ ws ++ 61 :: body) ++ rest = key ++ ws ++ 61 :: body ++ rest.
Proof. rewrite <- !app_assoc. reflexivity. Qed.

(** Where [search] finds the first match of a line pattern, replacing it
    by [line] is the replacement of the first assignment. *)
Lemma search_FirstAssignmentReplaced (key line : jsstring) :
  forall s prev,
    FirstAssignmentReplaced key line prev s
      match search (Bol :: map (fun c => One (CChar c)) key ++
                    [Star CSpace; One (CChar 61); Star CDot]) prev s with
      | Some (i, n) => firstn i s ++ line ++ skipn n (skipn i s)
      | None => s
      end.
Proof.
  induction s as [| c s IH]; intros prev; cbn [search];
    rewrite matchAt_line.
  - destruct (line_match key false prev []) as [n |] eqn:E; [| constructor].
    apply line_match_Some in E
      as [Hprev [ws [body [nl [rest [Hs _]]]]]].
    exfalso. destruct key; [destruct ws |]; discriminate Hs.
  - destruct (line_match key false prev (c :: s)) as [n |] eqn:E.
    + apply line_match_Some in E
        as [Hprev [ws [body [nl [rest [Hs [Hws [Hbody [[-> Hrest] Hlen]]]]]]]]].
      cbn [firstn skipn app]. rewrite Hs, Hlen.
      cbn [app]. rewrite app_nil_r.
      rewrite <- (assignment_assoc key ws body rest), skipn_length_app.
      rewrite assignment_assoc. now apply first_here.
    + specialize (IH (Some c)).
      destruct (search _ (Some c) s) as [[i n] |].
      * cbn [firstn skipn app]. apply first_later; [| exact IH].
        now apply (line_match_None _ false).
      * apply first_later; [| exact IH].
        now apply (line_match_None _ false).
Qed.

(** An override without [$] replaces the first AllowedIPs assignment by
    the line [AllowedIPs = <override>], and nothing else. *)
Lemma overrideAllowedIps_literal :
  forall (World : Type) (allowedIps configContent : jsstring)
         (st : state World),
    truthy allowedIps = true ->
    forallb (fun c => negb (c =? 36)) allowedIps = true ->
    exists out,
      returned (overrideAllowedIps allowedIps configContent) st = Some out /\
      FirstAssignmentReplaced (js "AllowedIPs")
        (js "AllowedIPs = " ++ allowedIps) None configContent out.
Proof.
  intros World allowedIps configContent st Hv Hlit.
  unfold overrideAllowedIps, returned. rewrite Hv.
  cbv [bind info emit ret fst].
  eexists. split; [reflexivity |].
  unfold replace_first.
  pose proof (search_FirstAssignmentReplaced (js "AllowedIPs")
                (js "AllowedIPs = " ++ allowedIps) configContent None) as H.
  change (Bol :: map (fun c => One (CChar c)) (js "AllowedIPs") ++
          [Star CSpace; One (CChar 61); Star CDot])
    with ALLOWED_IPS_RE in H.
  destruct (search ALLOWED_IPS_RE None configContent) as [[i n] |];
    [| exact H].
  rewrite GetSubstitution_literal; [exact H |].
  cbn [forallb app js]. exact Hlit.
Qed.

(** C1, at an override that holds a replacement pattern: [$&] is expanded
    to the matched line instead of being inserted as it is. *)
Theorem overrideAllowedIps_expands_patterns :
  forall (World : Type) (st : state World),
    returned
      (overrideAllowedIps (js "$&") (js "AllowedIPs = 0.0.0.0/0")) st
    = Some (js "AllowedIPs = AllowedIPs = 0.0.0.0/0").
Proof. intros World st. reflexivity. Qed.

(** ** Base64 *)

Lemma all_from_spec (P : Z -> bool) :
  forall n lo,
    all_from n lo P = true ->
    forall x, lo <= x < lo + Z.of_nat n -> P x = true.
Proof.
  induction n as [| n IH]; intros lo H x Hx.
  - lia.
  - cbn [all_from] in H. apply andb_prop in H as [H0 H].
    destruct (Z.eq_dec x lo) as [-> | Hne]; [exact H0 |].
    apply (IH (lo + 1) H). lia.
Qed.

Lemma is_byte_range (b : Z) : is_byte b = true -> 0 <= b < 256.
Proof. unfold is_byte. lia. Qed.

Lemma sextet_ok_all : all_from 64 0 sextet_ok = true.
Proof. vm_compute. reflexivity. Qed.

Lemma unbase64_base64_char (v : Z) :
  0 <= v < 64 -> unbase64 (base64_char v) = Some v.
Proof.
  intros Hv. pose proof (all_from_spec _ _ _ sextet_ok_all v Hv) as H.
  unfold sextet_ok in H.
  destruct (unbase64 (base64_char v)) as [w |]; [| discriminate H].
  apply Z.eqb_eq in H. now subst.
Qed.

Lemma pair_ok_all :
  all_from 256 0 (fun a => all_from 256 0 (pair_ok a)) = true.
Proof. vm_compute. reflexivity. Qed.

Lemma pair_ok_bytes (a b : Z) :
  is_byte a = true -> is_byte b = true -> pair_ok a b = true.
Proof.
  intros Ha Hb. apply is_byte_range in Ha, Hb.
  pose proof (all_from_spec _ _ _ pair_ok_all a Ha) as H.
  cbv beta in H. exact (all_from_spec _ _ _ H b Hb).
Qed.

Lemma is_sextet_range (v : Z) : is_sextet v = true -> 0 <= v < 64.
Proof. unfold is_sextet. lia. Qed.

Lemma legal_sextets_char (v : Z) (s : jsstring) :
  is_sextet v = true ->
  legal_sextets (base64_char v :: s) = v :: legal_sextets s.
Proof.
  intros Hv. cbn [legal_sextets].
  now rewrite (unbase64_base64_char v (is_sextet_range v Hv)).
Qed.

Ltac split_ok H :=
  repeat match type of H with
         | (_ && _) = true =>
             let H' := fresh "Hok" in
             apply andb_prop in H as [H H']
         end.

Lemma list_ind3 (P : list Z -> Prop) :
  P [] -> (forall a, P [a]) -> (forall a b, P [a; b]) ->
  (forall a b c r, P r -> P (a :: b :: c :: r)) ->
  forall l, P l.
Proof.
  intros H0 H1 H2 H3.
  fix IH 1.
  intros [| a [| b [| c r]]];
    [exact H0 | apply H1 | apply H2 | apply H3; apply IH].
Qed.

(** Decoding what the standard encoder wrote gives the bytes back. *)
Lemma base64_roundtrip :
  forall bs,
    forallb is_byte bs = true -> base64_decode (base64_encode bs) = bs.
Proof.
  unfold base64_decode.
  induction bs as [| a | a b | a b c r IH] using list_ind3; intros Hbs.
  - reflexivity.
  - cbn [forallb] in Hbs. apply andb_prop in Hbs as [Ha _].
    pose proof (pair_ok_bytes a a Ha Ha) as H. unfold pair_ok in H.
    split_ok H.
    cbn [base64_encode]. rewrite !legal_sextets_char by assumption.
    cbn [legal_sextets unbase64 bytes_of_sextets]. cbn.
    f_equal. now apply Z.eqb_eq.
  - cbn [forallb] in Hbs. apply andb_prop in Hbs as [Ha Hbs].
    apply andb_prop in Hbs as [Hb _].
    pose proof (pair_ok_bytes a b Ha Hb) as H. unfold pair_ok in H.
    split_ok H.
    pose proof (pair_ok_bytes b b Hb Hb) as H'. unfold pair_ok in H'.
    split_ok H'.
    cbn [base64_encode]. rewrite !legal_sextets_char by assumption.
    cbn [legal_sextets].
    change (unbase64 61) with (@None Z). change (61 mod 256 =? 61) with true.
    cbv iota. cbn [bytes_of_sextets].
    repeat match goal with
           | E : (_ =? _) = true |- _ => apply Z.eqb_eq in E
           end.
    f_equal; [assumption |]. f_equal.
    match goal with
    | E : Z.land (Z.lor (Z.shiftl (Z.land a 3) 4) (Z.shiftr b 4)) 15 = _
      |- _ => rewrite E
    end.
    assumption.
  - cbn [forallb] in Hbs. apply andb_prop in Hbs as [Ha Hbs].
    apply andb_prop in Hbs as [Hb Hbs]. apply andb_prop in Hbs as [Hc Hr].
    pose proof (pair_ok_bytes a b Ha Hb) as H. unfold pair_ok in H.
    split_ok H.
    pose proof (pair_ok_bytes b c Hb Hc) as H'. unfold pair_ok in H'.
    split_ok H'.
    cbn [base64_encode]. rewrite !legal_sextets_char by assumption.
    cbn [bytes_of_sextets]. rewrite (IH Hr).
    repeat match goal with
           | E : (_ =? _) = true |- _ => apply Z.eqb_eq in E
           end.
    f_equal; [assumption |]. f_equal.
    + match goal with
      | E : Z.land (Z.lor (Z.shiftl (Z.land a 3) 4) (Z.shiftr b 4)) 15 = _
        |- _ => rewrite E
      end.
      assumption.
    + f_equal. assumption.
Qed.

(** ** UTF-8 *)

Ltac to_arith :=
  change 0x3F with (Z.ones 6) in *; change 0x1F with (Z.ones 5) in *;
  change 0x0F with (Z.ones 4) in *; change 0x07 with (Z.ones 3) in *;
  change 0x3FF with (Z.ones 10) in *;
  rewrite ?Z.land_ones, ?Z.shiftr_div_pow2, ?Z.shiftl_mul_pow2 in * by lia;
  change (2 ^ 6) with 64 in *; change (2 ^ 5) with 32 in *;
  change (2 ^ 4) with 16 in *; change (2 ^ 3) with 8 in *;
  change (2 ^ 10) with 1024 in *; change (2 ^ 12) with 4096 in *;
  change (2 ^ 18) with 262144 in *.

Ltac arith := to_arith; Z.div_mod_to_equations; lia.

Lemma utf8_toString_one (b0 : Z) (r : list Z) :
  b0 <= 0x7F -> utf8_toString (b0 :: r) = b0 :: utf8_toString r.
Proof.
  intros H. cbn [utf8_toString].
  replace (b0 <=? 0x7F) with true by lia. reflexivity.
Qed.

Lemma utf8_toString_two (b0 b1 : Z) (r : list Z) :
  0xC2 <= b0 <= 0xDF -> 0x80 <= b1 <= 0xBF ->
  utf8_toString (b0 :: b1 :: r)
  = (Z.shiftl (Z.land b0 0x1F) 6 + Z.land b1 0x3F) :: utf8_toString r.
Proof.
  intros H0 H1. remember (b1 :: r) as t eqn:Ht. cbn [utf8_toString].
  replace (b0 <=? 0x7F) with false by lia.
  replace ((0xC2 <=? b0) && (b0 <=? 0xDF)) with true by lia.
  subst t. cbv beta iota.
  replace (is_cont b1) with true by (unfold is_cont; lia). reflexivity.
Qed.

Lemma second_ok_intro (b0 b1 : Z) :
  (b0 = 0xE0 -> 0xA0 <= b1) -> (b0 = 0xF0 -> 0x90 <= b1) ->
  (b0 = 0xED -> b1 <= 0x9F) -> (b0 = 0xF4 -> b1 <= 0x8F) ->
  0x80 <= b1 <= 0xBF ->
  second_ok b0 b1 = true.
Proof.
  intros. unfold second_ok, second_lo, second_hi.
  destruct (b0 =? 0xE0) eqn:E1; destruct (b0 =? 0xF0) eqn:E2;
    destruct (b0 =? 0xED) eqn:E3; destruct (b0 =? 0xF4) eqn:E4; lia.
Qed.

Lemma utf8_toString_three (b0 b1 b2 : Z) (r : list Z) :
  0xE0 <= b0 <= 0xEF -> second_ok b0 b1 = true -> 0x80 <= b2 <= 0xBF ->
  utf8_toString (b0 :: b1 :: b2 :: r)
  = (Z.shiftl (Z.land b0 0x0F) 12 + Z.shiftl (Z.land b1 0x3F) 6 +
     Z.land b2 0x3F) :: utf8_toString r.
Proof.
  intros H0 H1 H2. remember (b1 :: b2 :: r) as t eqn:Ht.
  cbn [utf8_toString].
  replace (b0 <=? 0x7F) with false by lia.
  replace ((0xC2 <=? b0) && (b0 <=? 0xDF)) with false by lia.
  replace ((0xE0 <=? b0) && (b0 <=? 0xEF)) with true by lia.
  subst t. cbv beta iota. rewrite H1.
  replace (is_cont b2) with true by (unfold is_cont; lia). reflexivity.
Qed.

Lemma utf8_toString_four (b0 b1 b2 b3 : Z) (r : list Z) :
  0xF0 <= b0 <= 0xF4 -> second_ok b0 b1 = true ->
  0x80 <= b2 <= 0xBF -> 0x80 <= b3 <= 0xBF ->
  utf8_toString (b0 :: b1 :: b2 :: b3 :: r)
  = units_of_code_point
      (Z.shiftl (Z.land b0 0x07) 18 + Z.shiftl (Z.land b1 0x3F) 12 +
       Z.shiftl (Z.land b2 0x3F) 6 + Z.land b3 0x3F)
    ++ utf8_toString r.
Proof.
  intros H0 H1 H2 H3. remember (b1 :: b2 :: b3 :: r) as t eqn:Ht.
  cbn [utf8_toString].
  replace (b0 <=? 0x7F) with false by lia.
  replace ((0xC2 <=? b0) && (b0 <=? 0xDF)) with false by lia.
  replace ((0xE0 <=? b0) && (b0 <=? 0xEF)) with false by lia.
  replace ((0xF0 <=? b0) && (b0 <=? 0xF4)) with true by lia.
  subst t. cbv beta iota. rewrite H1.
  replace (is_cont b2) with true by (unfold is_cont; lia).
  replace (is_cont b3) with true by (unfold is_cont; lia). reflexivity.
Qed.

Lemma is_code_unit_range (c : Z) : is_code_unit c = true -> 0 <= c < 0x10000.
Proof. unfold is_code_unit. lia. Qed.

(** A code unit that is no surrogate comes back as it is. *)
Lemma utf8_unit_roundtrip (c : Z) (rest : list Z) :
  is_code_unit c = true -> is_high c = false -> is_low c = false ->
  utf8_toString (utf8_of_code_point c ++ rest) = c :: utf8_toString rest.
Proof.
  intros Hc Hh Hl. apply is_code_unit_range in Hc.
  unfold is_high in Hh. unfold is_low in Hl.
  unfold utf8_of_code_point.
  destruct (c <? 0x80) eqn:E1.
  - cbn [app]. apply utf8_toString_one. lia.
  - destruct (c <? 0x800) eqn:E2.
    + cbn [app]. rewrite utf8_toString_two by arith.
      f_equal. arith.
    + replace (c <? 0x10000) with true by lia. cbn [app].
      rewrite utf8_toString_three.
      * f_equal. arith.
      * arith.
      * apply second_ok_intro; arith.
      * arith.
Qed.

(** A surrogate pair comes back as it is. *)
Lemma utf8_pair_roundtrip (hi lo : Z) (rest : list Z) :
  is_high hi = true -> is_low lo = true ->
  utf8_toString
    (utf8_of_code_point (0x10000 + (hi - 0xD800) * 0x400 + (lo - 0xDC00))
     ++ rest)
  = hi :: lo :: utf8_toString rest.
Proof.
  intros Hh Hl. unfold is_high in Hh. unfold is_low in Hl.
  unfold utf8_of_code_point.
  replace (0x10000 + (hi - 0xD800) * 0x400 + (lo - 0xDC00) <? 0x80)
    with false by lia.
  replace (0x10000 + (hi - 0xD800) * 0x400 + (lo - 0xDC00) <? 0x800)
    with false by lia.
  replace (0x10000 + (hi - 0xD800) * 0x400 + (lo - 0xDC00) <? 0x10000)
    with false by lia.
  cbn [app]. rewrite utf8_toString_four.
  - match goal with
    | |- units_of_code_point ?v ++ _ = _ =>
        replace v with (0x10000 + (hi - 0xD800) * 0x400 + (lo - 0xDC00))
          by arith
    end.
    unfold units_of_code_point.
    replace (0x10000 + (hi - 0xD800) * 0x400 + (lo - 0xDC00) <? 0x10000)
      with false by lia.
    cbn [app]. f_equal; [arith |]. f_equal. arith.
  - arith.
  - apply second_ok_intro; arith.
  - arith.
  - arith.
Qed.

Lemma utf8_replacement_roundtrip (rest : list Z) :
  utf8_toString ([0xEF; 0xBF; 0xBD] ++ rest)
  = REPLACEMENT :: utf8_toString rest.
Proof.
  cbn [app].
  rewrite utf8_toString_three; [reflexivity | lia | reflexivity | lia].
Qed.

(** Encoding a string and decoding it again only makes it well formed. *)
Lemma utf8_roundtrip :
  forall n s,
    (length s <= n)%nat ->
    forallb is_code_unit s = true ->
    utf8_toString (utf8_encode s) = toWellFormed s.
Proof.
  induction n as [| n IH]; intros s Hn Hs.
  - destruct s; [reflexivity | cbn in Hn; lia].
  - destruct s as [| c s]; [reflexivity |].
    cbn [forallb] in Hs. apply andb_prop in Hs as [Hc Hs].
    cbn [utf8_encode toWellFormed].
    destruct (is_high c) eqn:Hh.
    + destruct s as [| d s].
      * apply (utf8_replacement_roundtrip []).
      * destruct (is_low d) eqn:Hl.
        -- rewrite utf8_pair_roundtrip by assumption.
           cbn [forallb] in Hs. apply andb_prop in Hs as [_ Hs].
           rewrite IH; [reflexivity | cbn in Hn; lia | exact Hs].
        -- rewrite utf8_replacement_roundtrip.
           rewrite IH; [reflexivity | cbn in Hn; cbn; lia | exact Hs].
    + destruct (is_low c) eqn:Hl.
      * rewrite utf8_replacement_roundtrip.
        rewrite IH; [reflexivity | cbn in Hn; lia | exact Hs].
      * rewrite utf8_unit_roundtrip by assumption.
        rewrite IH; [reflexivity | cbn in Hn; lia | exact Hs].
Qed.

Lemma toWellFormed_id :
  forall n s,
    (length s <= n)%nat -> isWellFormed s = true -> toWellFormed s = s.
Proof.
  induction n as [| n IH]; intros s Hn Hs.
  - destruct s; [reflexivity | cbn in Hn; lia].
  - destruct s as [| c s]; [reflexivity |].
    cbn [isWellFormed toWellFormed] in *.
    destruct (is_high c).
    + destruct s as [| d s]; [discriminate Hs |].
      apply andb_prop in Hs as [Hd Hs]. rewrite Hd.
      rewrite IH; [reflexivity | cbn in Hn; lia | exact Hs].
    + apply andb_prop in Hs as [Hc Hs]. apply negb_true_iff in Hc.
      rewrite Hc. rewrite IH; [reflexivity | cbn in Hn; lia | exact Hs].
Qed.

Lemma utf8_of_code_point_bytes (cp : Z) :
  0 <= cp < 0x110000 -> forallb is_byte (utf8_of_code_point cp) = true.
Proof.
  intros H. unfold utf8_of_code_point.
  destruct (cp <? 0x80) eqn:E1; [|destruct (cp <? 0x800) eqn:E2;
    [| destruct (cp <? 0x10000) eqn:E3]];
    cbn [forallb]; unfold is_byte;
    repeat (apply andb_true_intro; split); try reflexivity;
    try (apply Z.leb_le); try (apply Z.ltb_lt); arith.
Qed.

Lemma utf8_encode_bytes :
  forall n s,
    (length s <= n)%nat ->
    forallb is_code_unit s = true ->
    forallb is_byte (utf8_encode s) = true.
Proof.
  induction n as [| n IH]; intros s Hn Hs.
  - destruct s; [reflexivity | cbn in Hn; lia].
  - destruct s as [| c s]; [reflexivity |].
    cbn [forallb] in Hs. apply andb_prop in Hs as [Hc Hs].
    apply is_code_unit_range in Hc.
    cbn [utf8_encode].
    destruct (is_high c) eqn:Hh.
    + destruct s as [| d s]; [reflexivity |].
      cbn [forallb] in Hs. apply andb_prop in Hs as [Hd Hs'].
      destruct (is_low d) eqn:Hl.
      * rewrite forallb_app, IH by (cbn in Hn; auto; lia).
        rewrite utf8_of_code_point_bytes; [reflexivity |].
        unfold is_high in Hh. unfold is_low in Hl. lia.
      * rewrite forallb_app, IH; [reflexivity | cbn in Hn; cbn; lia |].
        cbn [forallb]. now rewrite Hd, Hs'.
    + destruct (is_low c) eqn:Hl.
      * rewrite forallb_app, IH by (cbn in Hn; auto; lia). reflexivity.
      * rewrite forallb_app, IH by (cbn in Hn; auto; lia).
        rewrite utf8_of_code_point_bytes; [reflexivity | lia].
Qed.

Lemma toWellFormed_mended :
  forall n s, (length s <= n)%nat -> Forall2 mended (toWellFormed s) s.
Proof.
  induction n as [| n IH]; intros s Hn.
  - destruct s; [constructor | cbn in Hn; lia].
  - destruct s as [| c s]; [constructor |].
    cbn [toWellFormed].
    destruct (is_high c) eqn:Hh.
    + destruct s as [| d s].
      * constructor; [| constructor]. right. now rewrite Hh.
      * destruct (is_low d) eqn:Hl.
        -- constructor; [now left |]. constructor; [now left |].
           apply IH. cbn in Hn. lia.
        -- constructor; [right; now rewrite Hh |].
           apply IH. cbn in Hn. cbn. lia.
    + destruct (is_low c) eqn:Hl.
      * constructor; [right; now rewrite Hl, orb_true_r |].
        apply IH. cbn in Hn. lia.
      * constructor; [now left |]. apply IH. cbn in Hn. lia.
Qed.

Lemma mended_eqb (x y p : Z) :
  mended x y -> p < 0x80 -> (x =? p) = (y =? p).
Proof.
  intros [-> | [-> Hy]] Hp; [reflexivity |].
  unfold REPLACEMENT, is_high, is_low in *. lia.
Qed.

Lemma startsWith_mended (needle : jsstring) :
  forallb (fun p => p <? 0x80) needle = true ->
  forall a b, Forall2 mended a b -> startsWith a needle = startsWith b needle.
Proof.
  induction needle as [| p needle IH]; intros Hp a b Hab; [reflexivity |].
  cbn [forallb] in Hp. apply andb_prop in Hp as [Hp Hn].
  destruct Hab as [| x y a b Hxy Hab]; [reflexivity |].
  cbn [startsWith]. rewrite (mended_eqb x y p Hxy) by lia.
  now rewrite (IH Hn a b Hab).
Qed.

Lemma includes_mended (needle : jsstring) :
  forallb (fun p => p <? 0x80) needle = true ->
  forall a b, Forall2 mended a b -> includes a needle = includes b needle.
Proof.
  intros Hp a b Hab. induction Hab as [| x y a b Hxy Hab IH].
  - reflexivity.
  - cbn [includes]. rewrite IH.
    now rewrite (startsWith_mended needle Hp (x :: a) (y :: b))
      by (constructor; assumption).
Qed.

(** ** [decodeConfig] *)

Lemma decodeConfig_unfold (wgConfig : jsstring) :
  decodeConfig wgConfig
  = if includes (utf8_toString (base64_decode wgConfig)) INTERFACE_MARKER
    then utf8_toString (base64_decode wgConfig)
    else wgConfig.
Proof. reflexivity. Qed.

(** On the base64 text of a string, the decoder sees the string, made well
    formed. *)
Lemma decodeConfig_encoded (s : jsstring) :
  forallb is_code_unit s = true ->
  decodeConfig (base64_encode (utf8_encode s))
  = if includes s INTERFACE_MARKER then toWellFormed s
    else base64_encode (utf8_encode s).
Proof.
  intros Hs. rewrite decodeConfig_unfold.
  rewrite base64_roundtrip
    by (apply (utf8_encode_bytes (length s)); [lia | exact Hs]).
  rewrite (utf8_roundtrip (length s)) by (auto; lia).
  rewrite (includes_mended INTERFACE_MARKER eq_refl (toWellFormed s) s)
    by (apply (toWellFormed_mended (length s)); lia).
  reflexivity.
Qed.

(** C4, as amended.  For a well-formed string (no unpaired surrogate) that
    contains [[Interface]], decoding its base64 text gives the string
    back. *)
Theorem decodeConfig_roundtrip :
  forall s : jsstring,
    forallb is_code_unit s = true ->
    isWellFormed s = true ->
    includes s INTERFACE_MARKER = true ->
    decodeConfig (base64_encode (utf8_encode s)) = s.
Proof.
  intros s Hs Hwf Hin.
  rewrite decodeConfig_encoded by exact Hs. rewrite Hin.
  apply (toWellFormed_id (length s)); [lia | exact Hwf].
Qed.

Lemma decodeConfig_roundtrip_witness :
  decodeConfig
    (base64_encode
       (utf8_encode (js "[Interface]" ++ [LF; 0x20AC; 0xD83D; 0xDE00])))
  = js "[Interface]" ++ [LF; 0x20AC; 0xD83D; 0xDE00].
Proof.
  apply (decodeConfig_roundtrip
           (js "[Interface]" ++ [LF; 0x20AC; 0xD83D; 0xDE00]));
    reflexivity.
Defined.

(** C4, as stated, fails on a string with an unpaired surrogate: UTF-8
    cannot hold it, the encoder writes U+FFFD in its place. *)
Lemma decodeConfig_roundtrip_lone_surrogate :
  forallb is_code_unit (js "[Interface]" ++ [0xD800]) = true /\
  includes (js "[Interface]" ++ [0xD800]) INTERFACE_MARKER = true /\
  decodeConfig (base64_encode (utf8_encode (js "[Interface]" ++ [0xD800])))
  = js "[Interface]" ++ [0xFFFD] /\
  decodeConfig (base64_encode (utf8_encode (js "[Interface]" ++ [0xD800])))
  <> js "[Interface]" ++ [0xD800].
Proof.
  repeat split; try reflexivity.
  vm_compute. intros H. discriminate H.
Qed.

(** The same on the bytes of a file that is not UTF-8: a Latin-1 [e with
    acute], byte 0xE9, is decoded as U+FFFD. *)
Example decodeConfig_latin1_file :
  decodeConfig (base64_encode ([91; 73; 110; 116; 101; 114; 102; 97; 99; 101;
                                93; 10; 35; 0xE9]))
  = js "[Interface]" ++ [LF; 35; 0xFFFD].
Proof. reflexivity. Qed.

Lemma legal_sextets_significant (t : jsstring) :
  legal_sextets (filter significant t) = legal_sextets t.
Proof.
  induction t as [|c t IH]; [reflexivity |].
  cbn [filter]. unfold significant at 1.
  destruct (unbase64 c) as [v|] eqn:E.
  - cbn [legal_sextets]. now rewrite E, IH.
  - destruct (c mod 256 =? 61) eqn:E61; cbn [legal_sextets]; rewrite E, ?E61;
      [reflexivity | exact IH].
Qed.

(** [includes] finds exactly the substrings. *)
Lemma includes_occurs (needle : jsstring) :
  forall s, includes s needle = true <-> occurs_in needle s.
Proof.
  unfold occurs_in.
  induction s as [| c s IH]; cbn [includes].
  - rewrite orb_false_r. split.
    + intros H. apply startsWith_app in H as [t Ht].
      exists [], t. exact Ht.
    + intros [a [b H]]. apply startsWith_app.
      destruct a; [| discriminate H]. exists b. exact H.
  - rewrite orb_true_iff, IH. split.
    + intros [H | [a [b ->]]].
      * apply startsWith_app in H as [t Ht]. exists [], t. exact Ht.
      * exists (c :: a), b. reflexivity.
    + intros [[| x a] [b H]].
      * left. apply startsWith_app. exists b. exact H.
      * right. injection H as _ H. exists a, b. exact H.
Qed.

Lemma includes_not_occurs (needle s : jsstring) :
  includes s needle = false -> ~ occurs_in needle s.
Proof.
  intros H K. apply includes_occurs in K. rewrite K in H. discriminate H.
Qed.

(** The marker test of [decodeConfig] decides between the two results. *)
Lemma decodeConfig_cases (s : jsstring) :
  (occurs_in INTERFACE_MARKER (utf8_toString (base64_decode s)) /\
   decodeConfig s = utf8_toString (base64_decode s)) \/
  (~ occurs_in INTERFACE_MARKER (utf8_toString (base64_decode s)) /\
   decodeConfig s = s).
Proof.
  rewrite decodeConfig_unfold.
  destruct (includes (utf8_toString (base64_decode s)) INTERFACE_MARKER)
    eqn:E.
  - left. split; [now apply includes_occurs | reflexivity].
  - right. split; [now apply includes_not_occurs | reflexivity].
Qed.

(** With the decoder of Node the [try] block completes, and
    [decodeConfig_try] is [decodeConfig]. *)
Lemma decodeConfig_try_run :
  forall (World : Type) (wgConfig : jsstring) (st : state World),
    decodeConfig_try Buffer_from_base64 wgConfig st
    = (inl (decodeConfig wgConfig), st).
Proof.
  intros World wgConfig st. rewrite decodeConfig_unfold.
  cbv [decodeConfig_try try_block try_catch bind call ret
       Buffer_from_base64].
  destruct (includes (utf8_toString (base64_decode wgConfig))
              INTERFACE_MARKER); reflexivity.
Qed.

(** C6, as amended.  The base64 text of a string in which [[Interface]]
    does not occur is returned as it is; so is every input, base64 or not,
    when [[Interface]] does not occur in what the lenient decoder reads
    from it; and [decodeConfig] never throws, whatever the calls inside
    its [try] block do: with the decoder of Node it returns the value of
    [decodeConfig], in the state it started from. *)
Theorem decodeConfig_falls_back :
  (forall t : jsstring,
      forallb is_code_unit t = true ->
      ~ occurs_in INTERFACE_MARKER t ->
      decodeConfig (base64_encode (utf8_encode t))
      = base64_encode (utf8_encode t)) /\
  (forall s : jsstring,
      ~ occurs_in INTERFACE_MARKER (utf8_toString (base64_decode s)) ->
      decodeConfig s = s) /\
  (forall (World : Type) (from_base64 : jsstring -> list Z + thrown)
          (wgConfig : jsstring) (st : state World),
      exists v, decodeConfig_try from_base64 wgConfig st = (inl v, st)) /\
  (forall (World : Type) (wgConfig : jsstring) (st : state World),
      decodeConfig_try Buffer_from_base64 wgConfig st
      = (inl (decodeConfig wgConfig), st)).
Proof.
  split; [| split; [| split]].
  - intros t Ht Hin. rewrite decodeConfig_encoded by exact Ht.
    destruct (includes t INTERFACE_MARKER) eqn:E; [| reflexivity].
    apply includes_occurs in E. contradiction.
  - intros s Hno.
    destruct (decodeConfig_cases s) as [[Hin _] | [_ Hs]];
      [contradiction | exact Hs].
  - intros World from_base64 wgConfig st.
    cbv [decodeConfig_try try_block try_catch bind call ret].
    destruct (from_base64 wgConfig) as [buf | e]; [| now eexists].
    destruct (includes (utf8_toString buf) INTERFACE_MARKER); now eexists.
  - exact decodeConfig_try_run.
Qed.

Lemma decodeConfig_falls_back_witness :
  decodeConfig (base64_encode (utf8_encode (js "[Peer]" ++ [0xDC00])))
  = base64_encode (utf8_encode (js "[Peer]" ++ [0xDC00])) /\
  decodeConfig sample_config = sample_config.
Proof.
  destruct decodeConfig_falls_back as [Hbase64 [Hplain _]].
  split.
  - apply Hbase64; [reflexivity |].
    apply includes_not_occurs. reflexivity.
  - apply Hplain. apply includes_not_occurs. vm_compute. reflexivity.
Defined.

(** C6, as stated, fails on an input that is no base64: the decoder does
    not fail on it, and the configuration with the comment is not returned
    as it is. *)
Lemma decodeConfig_adopts_invalid_base64 :
  strict_base64 commented_config = false /\
  decodeConfig commented_config
  = [34; 0x7B; 0x5E; 0xFFFD; 0xFFFD; 0xFFFD; 0x78; 0; 0] ++
    js "[Interface]" /\
  decodeConfig commented_config <> commented_config.
Proof.
  split; [reflexivity |].
  split; [vm_compute; reflexivity |].
  vm_compute. intros H. discriminate H.
Qed.











(** ** Lines that begin with a key *)

Lemma after_blanks_line_head (test : Z -> bool) (r : jsstring) :
  after_blanks test (line_head r) = after_blanks test r.
Proof.
  unfold after_blanks. induction r as [| c r IH]; [reflexivity |].
  cbn [line_head]. destruct (isWhiteSpace c) eqn:Hw.
  - rewrite (isWhiteSpace_not_terminator c Hw). cbn [span]. rewrite Hw.
    cbn [skipn]. exact IH.
  - destruct (isLineTerminator c); cbn [span]; rewrite Hw; reflexivity.
Qed.

Lemma key_then_line_head (key : jsstring) (test : Z -> bool) :
  forallb (accepts CDot) key = true ->
  forall s, key_then key test (line_head s) = key_then key test s.
Proof.
  unfold key_then. induction key as [| k key IH]; intros Hkey s.
  - cbn [startsWith length skipn andb]. apply after_blanks_line_head.
  - cbn [forallb accepts] in Hkey. apply andb_prop in Hkey as [Hk Hkey].
    apply negb_true_iff in Hk.
    destruct s as [| c s]; [reflexivity |].
    cbn [line_head]. destruct (c =? k) eqn:Hc.
    + apply Z.eqb_eq in Hc. subst c. rewrite Hk.
      cbn [startsWith length skipn]. rewrite Z.eqb_refl. cbn [andb].
      apply IH. exact Hkey.
    + destruct (isLineTerminator c); cbn [startsWith]; rewrite Hc;
        reflexivity.
Qed.

Lemma key_then_nil (key : jsstring) (test : Z -> bool) :
  key_then key test [] = false.
Proof. unfold key_then. destruct key; reflexivity. Qed.

Lemma key_then_terminator (k : Z) (key : jsstring) (test : Z -> bool)
    (c : Z) (s : jsstring) :
  isLineTerminator k = false -> isLineTerminator c = true ->
  key_then (k :: key) test (c :: s) = false.
Proof.
  intros Hk Hc. unfold key_then. cbn [startsWith].
  destruct (c =? k) eqn:E; [| reflexivity].
  apply Z.eqb_eq in E. subst c. rewrite Hk in Hc. discriminate Hc.
Qed.

Lemma key_then_orb (key : jsstring) (f g : Z -> bool) (s : jsstring) :
  key_then key (fun c => f c || g c) s = key_then key f s || key_then key g s.
Proof.
  unfold key_then, after_blanks.
  destruct (startsWith s key); [| reflexivity]. cbn [andb].
  now destruct (skipn _ (skipn (length key) s)).
Qed.

Lemma at_some_line_start_orb (P Q : jsstring -> bool) :
  forall s prev,
    at_some_line_start (fun x => P x || Q x) prev s
    = at_some_line_start P prev s || at_some_line_start Q prev s.
Proof.
  induction s as [| c s IH]; intros prev; cbn [at_some_line_start].
  - destruct (at_line_start prev), (P []), (Q []); reflexivity.
  - rewrite IH.
    destruct (at_line_start prev), (P (c :: s)), (Q (c :: s)),
      (at_some_line_start P (Some c) s), (at_some_line_start Q (Some c) s);
      reflexivity.
Qed.

Lemma at_some_line_start_ext (P Q : jsstring -> bool) :
  (forall x, P x = Q x) ->
  forall s prev, at_some_line_start P prev s = at_some_line_start Q prev s.
Proof.
  intros H. induction s as [| c s IH]; intros prev; cbn [at_some_line_start].
  - now rewrite H.
  - now rewrite H, IH.
Qed.

(** What holds at a line start of a tail holds at a line start of the
    whole. *)
Lemma at_some_line_start_tail (P : jsstring -> bool) :
  forall m before rest,
    at_some_line_start P (hd_error (rev m ++ before)) rest = true ->
    at_some_line_start P (hd_error before) (m ++ rest) = true.
Proof.
  induction m as [| c m IH]; intros before rest H; [exact H |].
  cbn [app at_some_line_start]. cbn [rev] in H. rewrite <- app_assoc in H.
  pose proof (IH (c :: before) rest H) as H'. cbn [hd_error] in H'.
  rewrite H'. apply orb_true_r.
Qed.

(** A match of a line pattern starts with the key, blanks, and [=] or the
    end of the line. *)
Lemma blanks_then_equals (r : jsstring) :
  match skipn (span (accepts CSpace) r) r with
  | c :: _ => c =? 61
  | [] => false
  end = true ->
  after_blanks equals_or_terminator r = true.
Proof.
  unfold after_blanks. induction r as [| c r IH]; [discriminate |].
  cbn [span accepts]. destruct (isWhiteSpace c) eqn:Hw.
  - cbn [orb skipn]. exact IH.
  - cbn [orb skipn]. unfold equals_or_terminator.
    destruct (isLineTerminator c); [intros _; apply orb_true_r |].
    cbn [skipn]. intros H. now rewrite H.
Qed.

Lemma line_match_key_then (key : jsstring) (b : bool) (prev : option Z)
    (s : jsstring) (n : nat) :
  line_match key b prev s = Some n ->
  at_line_start prev = true /\ key_then key equals_or_terminator s = true.
Proof.
  unfold line_match, key_then.
  destruct (at_line_start prev); [| discriminate]. cbn [andb].
  destruct (startsWith s key); [| discriminate]. cbn [andb].
  intros H. split; [reflexivity |]. apply blanks_then_equals.
  destruct (skipn _ (skipn (length key) s)) as [| c t]; [discriminate |].
  now destruct (c =? 61).
Qed.

Lemma key_then_AssignmentAt (key : jsstring) (prev : option Z)
    (s : jsstring) :
  at_line_start prev = true -> key_then key is_equals s = true ->
  AssignmentAt key prev s.
Proof.
  unfold key_then, after_blanks. intros Hprev H.
  apply andb_prop in H as [Hk H].
  apply startsWith_app in Hk as [r ->].
  rewrite skipn_length_app in H.
  pose proof (span_firstn isWhiteSpace r) as Hws.
  pose proof (firstn_skipn (span isWhiteSpace r) r) as Hr.
  destruct (skipn (span isWhiteSpace r) r) as [| c t]; [discriminate |].
  apply Z.eqb_eq in H; subst c.
  split; [exact Hprev |].
  exists (firstn (span isWhiteSpace r) r), t. split; [| now rewrite Hr].
  eapply forallb_forall. intros x Hx.
  rewrite forallb_forall in Hws. cbn [accepts]. now rewrite (Hws x Hx).
Qed.

Lemma key_then_line_match (key : jsstring) (b : bool) (prev : option Z)
    (s : jsstring) :
  at_line_start prev = true -> key_then key is_equals s = true ->
  line_match key b prev s <> None.
Proof.
  intros Hprev H E. apply line_match_None in E. apply E.
  now apply key_then_AssignmentAt.
Qed.

Lemma search_Some_key_then (key : jsstring) :
  forall s prev i n,
    search (Bol :: map (fun c => One (CChar c)) key ++
            [Star CSpace; One (CChar 61); Star CDot]) prev s = Some (i, n) ->
    at_some_line_start (key_then key equals_or_terminator) prev s = true.
Proof.
  induction s as [| c s IH]; intros prev i n; cbn [search at_some_line_start];
    rewrite matchAt_line.
  - destruct (line_match key false prev []) as [m |] eqn:E; [| discriminate].
    apply line_match_key_then in E as [-> ->]. reflexivity.
  - destruct (line_match key false prev (c :: s)) as [m |] eqn:E.
    + apply line_match_key_then in E as [-> ->]. reflexivity.
    + destruct (search _ (Some c) s) as [[j m] |] eqn:E'; [| discriminate].
      intros _. rewrite (IH _ _ _ E'). apply orb_true_r.
Qed.

Lemma key_then_search_Some (key : jsstring) :
  forall s prev,
    at_some_line_start (key_then key is_equals) prev s = true ->
    search (Bol :: map (fun c => One (CChar c)) key ++
            [Star CSpace; One (CChar 61); Star CDot]) prev s <> None.
Proof.
  induction s as [| c s IH]; intros prev; cbn [search at_some_line_start];
    rewrite matchAt_line.
  - rewrite key_then_nil, andb_false_r. discriminate.
  - intros H. destruct (line_match key false prev (c :: s)) eqn:E;
      [discriminate |].
    apply orb_prop in H as [H | H].
    + apply andb_prop in H as [Hp Hk].
      exfalso. now apply (key_then_line_match key false prev (c :: s)).
    + specialize (IH _ H).
      destruct (search _ (Some c) s) as [[j m] |]; [discriminate |].
      now exfalso.
Qed.

(** ** What the DNS removal leaves at the line starts *)

(** Where the scan finds no match, the line it is in is kept. *)
Lemma replace_scan_line_head (t : jsstring) :
  forall s before,
    matchAt DNS_LINE_RE (hd_error before) s = None ->
    line_head (replace_scan DNS_LINE_RE t before 0 s) = line_head s.
Proof.
  induction s as [| c s IH]; intros before E.
  - now rewrite replace_scan_end.
  - rewrite replace_scan_miss by exact E. cbn [line_head].
    destruct (isLineTerminator c) eqn:Hc; [reflexivity |].
    f_equal. apply IH. rewrite matchAt_DNS_LINE_RE. unfold line_match.
    cbn [hd_error at_line_start]. now rewrite Hc.
Qed.

Section LineStarts.

Variable P : jsstring -> bool.
Hypothesis P_line_head : forall s, P (line_head s) = P s.
Hypothesis P_nil : P [] = false.
Hypothesis P_terminator :
  forall c s, isLineTerminator c = true -> P (c :: s) = false.

(** What [P] finds at a line start of the result was at a line start of
    the input.  [obefore] is the result so far, [before] the input passed
    so far, both last character first. *)
Lemma replace_scan_line_starts :
  forall n s before oprev,
    (length s <= n)%nat ->
    (at_line_start oprev = true ->
     at_line_start (hd_error before) = true \/ P s = false) ->
    at_some_line_start P oprev (replace_scan DNS_LINE_RE [] before 0 s)
    = true ->
    at_some_line_start P (hd_error before) s = true.
Proof.
  induction n as [| n IH]; intros s before oprev Hn Hsync Hout.
  - destruct s; [| cbn in Hn; lia].
    destruct (matchAt DNS_LINE_RE (hd_error before) []) eqn:E.
    + rewrite matchAt_DNS_LINE_RE in E. unfold line_match in E.
      destruct (at_line_start (hd_error before)); discriminate E.
    + rewrite replace_scan_end in Hout by exact E.
      cbn [at_some_line_start] in Hout.
      rewrite P_nil, andb_false_r in Hout. discriminate Hout.
  - destruct (matchAt DNS_LINE_RE (hd_error before) s) as [m |] eqn:E.
    + pose proof E as E'. rewrite matchAt_DNS_LINE_RE in E'.
      destruct (line_match_length_pos _ _ _ _ _ E') as [k ->].
      rewrite (replace_scan_hit _ _ _ _ _ E) in Hout.
      cbn [GetSubstitution app] in Hout.
      apply line_match_Some in E'
        as [Hprev [ws [body [nl [rest [Hs [Hws [Hbody [Hbreak Hlen]]]]]]]]].
      rewrite Hlen in Hout.
      assert (Hs' : s = (js "DNS" ++ ws ++ 61 :: body ++ nl) ++ rest)
        by (rewrite Hs, <- !app_assoc; cbn [app];
            now rewrite <- !app_assoc).
      rewrite (f_equal (firstn _) Hs'), (f_equal (skipn _) Hs') in Hout.
      rewrite firstn_length_app, skipn_length_app in Hout.
      rewrite Hs'. apply at_some_line_start_tail.
      apply (IH _ _ oprev); [| | exact Hout].
      * rewrite Hs in Hn. rewrite !length_app in Hn. cbn [length] in Hn.
        rewrite !length_app in Hn. rewrite js_DNS in Hn. cbn [length] in Hn.
        lia.
      * intros _.
        replace (js "DNS" ++ ws ++ 61 :: body ++ nl)
          with ((js "DNS" ++ ws) ++ 61 :: body ++ nl)
          by now rewrite <- app_assoc.
        rewrite hd_error_rev_match.
        destruct Hbreak as [-> | [-> Hrest]].
        -- left. change (61 :: body ++ [LF]) with ((61 :: body) ++ [LF]).
           now rewrite last_last.
        -- right. destruct rest as [| c rest]; [exact P_nil |].
           now apply P_terminator.
    + destruct s as [| c s].
      * rewrite replace_scan_end in Hout by exact E.
        cbn [at_some_line_start] in Hout.
        rewrite P_nil, andb_false_r in Hout. discriminate Hout.
      * pose proof (replace_scan_line_head [] (c :: s) before E) as Hhead.
        rewrite replace_scan_miss in * by exact E.
        cbn [at_some_line_start] in *.
        apply orb_prop in Hout as [Hout | Hout].
        -- apply andb_prop in Hout as [Ho HP].
           rewrite <- P_line_head, Hhead, P_line_head in HP.
           destruct (Hsync Ho) as [Hb | Hb]; [| congruence].
           now rewrite Hb, HP.
        -- assert (Hrec : at_some_line_start P (hd_error (c :: before)) s
                          = true).
           { apply (IH s (c :: before) (Some c)); [| | exact Hout].
             - cbn in Hn. lia.
             - intros H. now left. }
           cbn [hd_error] in Hrec. rewrite Hrec. apply orb_true_r.
Qed.

End LineStarts.

Lemma has_dns_line_at_some_line_start :
  forall s prev,
    has_dns_line prev s
    = at_some_line_start (key_then (js "DNS") is_equals) prev s.
Proof.
  induction s as [| c s IH]; intros prev; cbn [has_dns_line
    at_some_line_start]; [reflexivity |].
  now rewrite IH.
Qed.

Lemma key_then_hypotheses (k : Z) (key : jsstring) (test : Z -> bool) :
  forallb (accepts CDot) (k :: key) = true ->
  (forall s, key_then (k :: key) test (line_head s)
             = key_then (k :: key) test s) /\
  key_then (k :: key) test [] = false /\
  (forall c s, isLineTerminator c = true ->
               key_then (k :: key) test (c :: s) = false).
Proof.
  intros Hkey. split; [| split].
  - now apply key_then_line_head.
  - apply key_then_nil.
  - intros c s Hc. apply key_then_terminator; [| exact Hc].
    cbn [forallb accepts] in Hkey. apply andb_prop in Hkey as [Hk _].
    now apply negb_true_iff in Hk.
Qed.

(** A dangling key in the result was in the input. *)
Lemma replace_scan_dangling (k : Z) (key : jsstring) (test : Z -> bool)
    (content : jsstring) :
  forallb (accepts CDot) (k :: key) = true ->
  at_some_line_start (key_then (k :: key) test) None
    (replace_all DNS_LINE_RE [] content) = true ->
  at_some_line_start (key_then (k :: key) test) None content = true.
Proof.
  intros Hkey H.
  destruct (key_then_hypotheses k key test Hkey) as [H1 [H2 H3]].
  apply (replace_scan_line_starts _ H1 H2 H3 (length content) content []
           None); [lia | | exact H].
  intros _. now left.
Qed.

(** Without a dangling [DNS] in the input, the result has no DNS
    assignment at all. *)
Lemma replace_all_no_dns_match (content : jsstring) :
  no_dangling (js "DNS") content ->
  search DNS_RE None (replace_all DNS_LINE_RE [] content) = None.
Proof.
  intros Hd.
  destruct (search DNS_RE None (replace_all DNS_LINE_RE [] content))
    as [[i n] |] eqn:E; [| reflexivity].
  exfalso. apply (search_Some_key_then (js "DNS")) in E.
  rewrite (at_some_line_start_ext _
             (fun x => key_then (js "DNS") is_equals x ||
                       key_then (js "DNS") isLineTerminator x)) in E
    by (intros x; apply key_then_orb).
  rewrite at_some_line_start_orb in E. apply orb_prop in E as [E | E].
  - rewrite <- has_dns_line_at_some_line_start in E.
    unfold replace_all in E.
    rewrite (replace_scan_no_dns_line (length content) content [] None) in E;
      [discriminate E | lia | intros _; now left].
  - apply (replace_scan_dangling 68 [78; 83] isLineTerminator) in E;
      [| reflexivity].
    unfold no_dangling, dangling_key in Hd. rewrite js_DNS in Hd.
    congruence.
Qed.

Lemma replace_all_stable (content : jsstring) :
  search DNS_RE None content = None ->
  replace_all DNS_LINE_RE [] content = content.
Proof.
  intros E. unfold replace_all. apply replace_scan_no_match.
  cbn [hd_error]. revert E. apply search_none_ext.
  intros prev s. rewrite matchAt_DNS_RE, matchAt_DNS_LINE_RE.
  apply line_match_none_iff.
Qed.

(** ** Matching in front of a line that starts with another key *)

Lemma span_full_or_not (p : Z -> bool) (u : jsstring) :
  (span p u = length u /\ forallb p u = true) \/ (span p u < length u)%nat.
Proof.
  induction u as [| c u IH]; cbn [span length forallb].
  - left. now split.
  - destruct (p c); [| right; lia].
    destruct IH as [[H1 H2] | H]; [left; now rewrite H1, H2 | right; lia].
Qed.

Lemma span_app_within (p : Z -> bool) (u x : jsstring) :
  (span p u < length u)%nat -> span p (u ++ x) = span p u.
Proof.
  induction u as [| c u IH]; cbn [span length app]; [lia |].
  destruct (p c); [| reflexivity]. intros H. f_equal. apply IH. lia.
Qed.

Lemma span_closed (p : Z -> bool) (u : jsstring) (t : Z) :
  p t = false -> (span p (u ++ [t]) < length (u ++ [t]))%nat.
Proof.
  intros Ht. induction u as [| c u IH]; cbn [span length app].
  - rewrite Ht. lia.
  - destruct (p c); lia.
Qed.

Lemma skipn_app_le (n : nat) (u x : jsstring) :
  (n <= length u)%nat -> skipn n (u ++ x) = skipn n u ++ x.
Proof.
  intros H. rewrite skipn_app.
  replace (n - length u)%nat with 0%nat by lia. reflexivity.
Qed.

Lemma firstn_app_le (n : nat) (u x : jsstring) :
  (n <= length u)%nat -> firstn n (u ++ x) = firstn n u.
Proof.
  intros H. rewrite firstn_app.
  replace (n - length u)%nat with 0%nat by lia. cbn [firstn].
  apply app_nil_r.
Qed.

Lemma skipn_nonempty (n : nat) (u : jsstring) :
  (n < length u)%nat -> exists c tl, skipn n u = c :: tl.
Proof.
  revert u. induction n as [| n IH]; intros [| c u] H; cbn in H; try lia.
  - now exists c, u.
  - cbn [skipn]. apply IH. lia.
Qed.

Lemma tail_closed (u : jsstring) (c : Z) (tl r0 : jsstring) (t : Z) :
  u ++ c :: tl = r0 ++ [t] -> c <> t -> exists tl0, tl = tl0 ++ [t].
Proof.
  intros H Hc. destruct tl as [| x tl] using rev_ind.
  - apply app_inj_tail in H as [_ H]. contradiction.
  - exists tl.
    replace (u ++ c :: tl ++ [x]) with ((u ++ c :: tl) ++ [x]) in H
      by now rewrite <- app_assoc.
    apply app_inj_tail in H as [_ ->]. reflexivity.
Qed.

Lemma startsWith_closed (key w0 : jsstring) (t : Z) (x : jsstring) :
  forallb (accepts CDot) key = true -> isLineTerminator t = true ->
  startsWith ((w0 ++ [t]) ++ x) key = startsWith (w0 ++ [t]) key.
Proof.
  intros Hkey Ht. revert w0.
  induction key as [| k key IH]; intros w0; [reflexivity |].
  cbn [forallb accepts] in Hkey. apply andb_prop in Hkey as [Hk Hkey].
  apply negb_true_iff in Hk.
  destruct w0 as [| c w0]; cbn [app startsWith].
  - destruct (t =? k) eqn:E; [| reflexivity].
    apply Z.eqb_eq in E. subst t. rewrite Hk in Ht. discriminate Ht.
  - now rewrite (IH Hkey w0).
Qed.

Lemma rest_closed (key w0 r : jsstring) (t : Z) :
  forallb (accepts CDot) key = true -> isLineTerminator t = true ->
  w0 ++ [t] = key ++ r -> exists r0, r = r0 ++ [t].
Proof.
  intros Hkey Ht H. destruct r as [| x r] using rev_ind.
  - rewrite app_nil_r in H. subst key.
    rewrite forallb_app in Hkey. apply andb_prop in Hkey as [_ Hkey].
    cbn [forallb accepts] in Hkey. rewrite Ht in Hkey. discriminate Hkey.
  - exists r. rewrite app_assoc in H.
    apply app_inj_tail in H as [_ ->]. reflexivity.
Qed.

(** A match that starts in a text closed by a line terminator, with a
    character after it that is neither blank nor [=], lies in that text. *)
Lemma line_match_closed (key : jsstring) (b : bool) (prev : option Z)
    (w0 : jsstring) (t a : Z) (x : jsstring) :
  forallb (accepts CDot) key = true -> isLineTerminator t = true ->
  accepts CSpace a = false -> a <> 61 ->
  line_match key b prev ((w0 ++ [t]) ++ a :: x)
  = line_match key b prev (w0 ++ [t]).
Proof.
  intros Hkey Ht Ha Ha'. unfold line_match.
  destruct (at_line_start prev); [| reflexivity]. cbn [andb].
  rewrite startsWith_closed by assumption.
  destruct (startsWith (w0 ++ [t]) key) eqn:Hk; [| reflexivity].
  apply startsWith_app in Hk as [r Hr].
  destruct (rest_closed key w0 r t Hkey Ht Hr) as [r0 Hr0].
  rewrite Hr, <- app_assoc, !skipn_length_app.
  destruct (span_full_or_not (accepts CSpace) r) as [[Hfull Hall] | Hin].
  - rewrite (span_app_stop _ r a x Hall Ha), Hfull.
    rewrite skipn_length_app, skipn_all.
    apply Z.eqb_neq in Ha'. now rewrite Ha'.
  - rewrite span_app_within by exact Hin.
    rewrite skipn_app_le by lia.
    destruct (skipn_nonempty _ _ Hin) as [c [tl Hc]]. rewrite Hc.
    cbn [app]. destruct (c =? 61) eqn:Ec; [| reflexivity].
    apply Z.eqb_eq in Ec. subst c.
    pose proof (firstn_skipn (span (accepts CSpace) r) r) as Hsplit.
    rewrite Hc, Hr0 in Hsplit.
    destruct (tail_closed _ _ _ _ _ Hsplit) as [tl0 Htl].
    { intros E. rewrite <- E in Ht. discriminate Ht. }
    assert (Hdot : accepts CDot t = false) by (cbn; now rewrite Ht).
    pose proof (span_closed (accepts CDot) tl0 t Hdot) as Hlt.
    rewrite <- Htl in Hlt.
    rewrite span_app_within by exact Hlt.
    rewrite skipn_app_le by lia.
    destruct (skipn_nonempty _ _ Hlt) as [d [tl' Hd]]. rewrite Hd.
    reflexivity.
Qed.

Lemma line_closed_tail (c : Z) (p : jsstring) :
  line_closed (c :: p) -> line_closed p.
Proof.
  intros [H | [p0 [t [H Ht]]]]; [discriminate H |].
  destruct p0 as [| x p0]; cbn [app] in H; inversion H; subst.
  - now left.
  - right. now exists p0, t.
Qed.

Lemma line_closed_skipn (n : nat) (p : jsstring) :
  line_closed p -> line_closed (skipn n p).
Proof.
  revert p. induction n as [| n IH]; intros p Hp; [exact Hp |].
  destruct p as [| c p]; [exact Hp |].
  cbn [skipn]. apply IH. now apply line_closed_tail in Hp.
Qed.

Lemma line_closed_of_start (p ctx : jsstring) :
  at_line_start (hd_error (rev p ++ ctx)) = true ->
  p <> [] -> line_closed p.
Proof.
  intros H Hp. destruct p as [| x p] using rev_ind; [contradiction |].
  right. exists p, x. split; [reflexivity |].
  rewrite rev_app_distr in H. exact H.
Qed.

Lemma line_closed_start (p0 : jsstring) (t : Z) (ctx : jsstring) :
  isLineTerminator t = true ->
  at_line_start (hd_error (rev (p0 ++ [t]) ++ ctx)) = true.
Proof. intros Ht. rewrite rev_app_distr. exact Ht. Qed.

Lemma line_head_closed (w0 : jsstring) (t : Z) (x : jsstring) :
  isLineTerminator t = true ->
  line_head ((w0 ++ [t]) ++ x) = line_head (w0 ++ [t]).
Proof.
  intros Ht. induction w0 as [| c w0 IH]; cbn [app line_head].
  - now rewrite Ht.
  - destruct (isLineTerminator c); [reflexivity | now rewrite IH].
Qed.

Section ClosedPrefix.

Variable P : jsstring -> bool.
Hypothesis P_line_head : forall s, P (line_head s) = P s.
Hypothesis P_nil : P [] = false.

Lemma closed_prefix_decides (p x : jsstring) :
  p <> [] -> line_closed p -> P (p ++ x) = P p.
Proof.
  intros Hp [H | [p0 [t [-> Ht]]]]; [contradiction |].
  now rewrite <- P_line_head, line_head_closed, P_line_head.
Qed.

(** The line starts of a text in two parts, the first one closed. *)
Lemma at_some_line_start_app :
  forall p ctx x,
    line_closed p ->
    at_some_line_start P (hd_error ctx) (p ++ x)
    = at_some_line_start P (hd_error ctx) p ||
      at_some_line_start P (hd_error (rev p ++ ctx)) x.
Proof.
  induction p as [| c p IH]; intros ctx x Hp.
  - cbn [app rev at_some_line_start]. now rewrite P_nil, andb_false_r.
  - cbn [app at_some_line_start].
    assert (HP : P ((c :: p) ++ x) = P (c :: p))
      by (apply closed_prefix_decides; [discriminate | exact Hp]).
    cbn [app] in HP. rewrite HP.
    pose proof (IH (c :: ctx) x (line_closed_tail c p Hp)) as H.
    cbn [hd_error] in H. rewrite H. cbn [rev]. rewrite <- app_assoc.
    cbn [app]. now rewrite orb_assoc.
Qed.

End ClosedPrefix.

(** The scan of a text in two parts, the first one closed and the second
    one starting with a character that is neither blank nor [=]: no match
    runs from the one into the other. *)
Lemma replace_scan_app :
  forall n p before a x,
    (length p <= n)%nat -> line_closed p ->
    accepts CSpace a = false -> a <> 61 ->
    replace_scan DNS_LINE_RE [] before 0 (p ++ a :: x)
    = replace_scan DNS_LINE_RE [] before 0 p ++
      replace_scan DNS_LINE_RE [] (rev p ++ before) 0 (a :: x).
Proof.
  induction n as [| n IH]; intros p before a x Hn Hp Ha Ha'.
  - destruct p; [| cbn in Hn; lia].
    cbn [app rev]. rewrite (replace_scan_end DNS_LINE_RE [] before);
      [reflexivity |].
    rewrite matchAt_DNS_LINE_RE. unfold line_match.
    now rewrite andb_false_r.
  - destruct p as [| c p].
    + cbn [app rev]. rewrite (replace_scan_end DNS_LINE_RE [] before);
        [reflexivity |].
      rewrite matchAt_DNS_LINE_RE. unfold line_match.
      now rewrite andb_false_r.
    + assert (Hsame : matchAt DNS_LINE_RE (hd_error before)
                        ((c :: p) ++ a :: x)
                      = matchAt DNS_LINE_RE (hd_error before) (c :: p)).
      { rewrite !matchAt_DNS_LINE_RE.
        destruct Hp as [Hp | [p0 [t [Hp Ht]]]]; [discriminate Hp |].
        rewrite Hp. now apply line_match_closed. }
      destruct (matchAt DNS_LINE_RE (hd_error before) (c :: p))
        as [m |] eqn:E.
      * pose proof (matchAt_le _ _ _ _ E) as Hle.
        pose proof E as E'. rewrite matchAt_DNS_LINE_RE in E'.
        destruct (line_match_length_pos _ _ _ _ _ E') as [k ->].
        rewrite (replace_scan_hit _ _ _ _ _ Hsame).
        rewrite (replace_scan_hit _ _ _ _ _ E).
        cbn [GetSubstitution].
        rewrite firstn_app_le, skipn_app_le by exact Hle.
        rewrite IH; [| | now apply line_closed_skipn | exact Ha | exact Ha'].
        -- cbn [app]. f_equal. f_equal.
           rewrite app_assoc, <- rev_app_distr, firstn_skipn. reflexivity.
        -- rewrite length_skipn. cbn [length] in *. lia.
      * cbn [app] in Hsame. cbn [app].
        rewrite (replace_scan_miss _ _ _ _ _ Hsame).
        rewrite (replace_scan_miss _ _ _ _ _ E).
        rewrite (IH p (c :: before) a x);
          [| cbn in Hn; lia | now apply line_closed_tail in Hp
           | exact Ha | exact Ha'].
        cbn [app rev]. now rewrite <- app_assoc.
Qed.

(** The scan through the rest of a line that is no DNS assignment. *)
Lemma replace_scan_line :
  forall l before y,
    forallb (accepts CDot) l = true ->
    matchAt DNS_LINE_RE (hd_error before) (l ++ y) = None ->
    replace_scan DNS_LINE_RE [] before 0 (l ++ y)
    = l ++ replace_scan DNS_LINE_RE [] (rev l ++ before) 0 y.
Proof.
  induction l as [| c l IH]; intros before y Hl E; [reflexivity |].
  cbn [forallb accepts] in Hl. apply andb_prop in Hl as [Hc Hl].
  apply negb_true_iff in Hc.
  cbn [app] in *. rewrite (replace_scan_miss _ _ _ _ _ E).
  rewrite IH; [| exact Hl |].
  - cbn [rev]. now rewrite <- app_assoc.
  - rewrite matchAt_DNS_LINE_RE. unfold line_match.
    cbn [hd_error at_line_start]. now rewrite Hc.
Qed.

Lemma replace_scan_after_line (before post : jsstring) :
  at_line_start (hd_error before) = false ->
  match post with
  | [] => True
  | c :: _ => isLineTerminator c = true
  end ->
  match replace_scan DNS_LINE_RE [] before 0 post with
  | [] => True
  | c :: _ => isLineTerminator c = true
  end.
Proof.
  intros Hb Hpost. destruct post as [| c post].
  - now rewrite replace_scan_inside_line_end.
  - now rewrite replace_scan_inside_line.
Qed.

(** What the scan leaves of a closed text is closed.  [obefore] is the
    result so far, last character first. *)
Lemma replace_scan_closed :
  forall n p before obefore,
    (length p <= n)%nat ->
    (at_line_start (hd_error before) = true ->
     at_line_start (hd_error obefore) = true) ->
    at_line_start (hd_error (rev p ++ before)) = true ->
    at_line_start
      (hd_error (rev (replace_scan DNS_LINE_RE [] before 0 p) ++ obefore))
    = true.
Proof.
  induction n as [| n IH]; intros p before obefore Hn Hinv Hp.
  - destruct p; [| cbn in Hn; lia].
    rewrite replace_scan_end.
    + cbn [rev app] in *. now apply Hinv.
    + rewrite matchAt_DNS_LINE_RE. unfold line_match.
      now rewrite andb_false_r.
  - destruct (matchAt DNS_LINE_RE (hd_error before) p) as [m |] eqn:E.
    + pose proof (matchAt_le _ _ _ _ E) as Hle.
      pose proof E as E'. rewrite matchAt_DNS_LINE_RE in E'.
      destruct (line_match_length_pos _ _ _ _ _ E') as [k ->].
      apply line_match_key_then in E' as [Hstart _].
      rewrite (replace_scan_hit _ _ _ _ _ E). cbn [GetSubstitution app].
      apply IH.
      * rewrite length_skipn. destruct p; cbn [length] in *; lia.
      * intros _. now apply Hinv.
      * rewrite app_assoc, <- rev_app_distr, firstn_skipn. exact Hp.
    + destruct p as [| c p].
      * rewrite replace_scan_end by exact E. cbn [rev app] in *.
        now apply Hinv.
      * rewrite (replace_scan_miss _ _ _ _ _ E). cbn [rev].
        rewrite <- app_assoc. cbn [app].
        apply IH; [cbn in Hn; lia | intros H; exact H |].
        cbn [rev] in Hp. rewrite <- app_assoc in Hp. exact Hp.
Qed.

(** ** Where the first match is *)

Lemma search_Some_split (r : regex) :
  forall s ctx i n,
    search r (hd_error ctx) s = Some (i, n) ->
    (i <= length s)%nat /\
    matchAt r (hd_error (rev (firstn i s) ++ ctx)) (skipn i s) = Some n.
Proof.
  induction s as [| c s IH]; intros ctx i n; cbn [search].
  - destruct (matchAt r (hd_error ctx) []) eqn:E; [| discriminate].
    intros H; inversion H; subst. cbn. split; [lia | exact E].
  - destruct (matchAt r (hd_error ctx) (c :: s)) eqn:E.
    + intros H; inversion H; subst. cbn. split; [lia | exact E].
    + destruct (search r (Some c) s) as [[j m] |] eqn:E'; [| discriminate].
      intros H; inversion H; subst.
      destruct (IH (c :: ctx) j n E') as [Hj Hm].
      cbn [firstn skipn rev length]. rewrite <- app_assoc.
      split; [lia | exact Hm].
Qed.

Section FirstMatch.

Variable key : jsstring.
Hypothesis key_in_line : forallb (accepts CDot) key = true.

(** No line before the first match starts with the key, blanks and [=]. *)
Lemma search_prefix_quiet :
  forall p ctx x n,
    line_closed p ->
    search (line_pattern key) (hd_error ctx) (p ++ x) = Some (length p, n) ->
    at_some_line_start (key_then key is_equals) (hd_error ctx) p = false.
Proof.
  induction p as [| c p IH]; intros ctx x n Hp; cbn [app search length
    at_some_line_start].
  - intros _. now rewrite key_then_nil, andb_false_r.
  - unfold line_pattern. rewrite matchAt_line. fold (line_pattern key).
    destruct (line_match key false (hd_error ctx) (c :: p ++ x)) eqn:E;
      [discriminate |].
    destruct (search (line_pattern key) (Some c) (p ++ x)) as [[j m] |] eqn:E';
      [| discriminate].
    intros H; inversion H; subst.
    pose proof (IH (c :: ctx) x n (line_closed_tail c p Hp) E') as Hrec.
    cbn [hd_error] in Hrec. rewrite Hrec, orb_false_r.
    destruct (at_line_start (hd_error ctx)) eqn:Hs; [| reflexivity].
    cbn [andb].
    destruct (key_then key is_equals (c :: p)) eqn:Hk; [| reflexivity].
    exfalso.
    apply (key_then_line_match key false (hd_error ctx) (c :: p ++ x));
      [exact Hs | | exact E].
    change (c :: p ++ x) with ((c :: p) ++ x).
    rewrite (closed_prefix_decides (key_then key is_equals)
               (key_then_line_head key is_equals key_in_line));
      [exact Hk | discriminate | exact Hp].
Qed.

(** The first match is where a closed text without the key at a line
    start ends. *)
Lemma search_app :
  forall p ctx a x n,
    line_closed p -> accepts CSpace a = false -> a <> 61 ->
    at_some_line_start (key_then key equals_or_terminator) (hd_error ctx) p
    = false ->
    matchAt (line_pattern key) (hd_error (rev p ++ ctx)) (a :: x) = Some n ->
    search (line_pattern key) (hd_error ctx) (p ++ a :: x) = Some (length p, n).
Proof.
  induction p as [| c p IH]; intros ctx a x n Hp Ha Ha' Hq Hm.
  - cbn [app rev length] in *. cbn [search]. now rewrite Hm.
  - cbn [at_some_line_start] in Hq. apply orb_false_elim in Hq as [Hq1 Hq2].
    cbn [app search length].
    assert (E : matchAt (line_pattern key) (hd_error ctx) (c :: p ++ a :: x)
                = None).
    { unfold line_pattern. rewrite matchAt_line.
      change (c :: p ++ a :: x) with ((c :: p) ++ a :: x).
      destruct Hp as [Hp | [p0 [t [Hp Ht]]]]; [discriminate Hp |].
      rewrite Hp, line_match_closed by assumption. rewrite <- Hp.
      destruct (line_match key false (hd_error ctx) (c :: p)) eqn:E;
        [| reflexivity].
      apply line_match_key_then in E as [E1 E2].
      rewrite E1, E2 in Hq1. discriminate Hq1. }
    rewrite E.
    assert (Hrec : search (line_pattern key) (hd_error (c :: ctx)) (p ++ a :: x)
                   = Some (length p, n)).
    { apply IH; [| exact Ha | exact Ha' | exact Hq2 |].
      - now apply line_closed_tail in Hp.
      - cbn [rev] in Hm. rewrite <- app_assoc in Hm. exact Hm. }
    cbn [hd_error] in Hrec. now rewrite Hrec.
Qed.

(** The first match stays where it is when the text from it on is replaced
    by another that matches there. *)
Lemma search_prefix_swap :
  forall p ctx a x1 x2 n1 n2,
    line_closed p -> accepts CSpace a = false -> a <> 61 ->
    search (line_pattern key) (hd_error ctx) (p ++ a :: x1)
    = Some (length p, n1) ->
    matchAt (line_pattern key) (hd_error (rev p ++ ctx)) (a :: x2) = Some n2 ->
    search (line_pattern key) (hd_error ctx) (p ++ a :: x2)
    = Some (length p, n2).
Proof.
  induction p as [| c p IH]; intros ctx a x1 x2 n1 n2 Hp Ha Ha' Hs Hm.
  - cbn [app rev length] in *. cbn [search]. now rewrite Hm.
  - cbn [app search length] in *.
    assert (Hsame :
              matchAt (line_pattern key) (hd_error ctx) (c :: p ++ a :: x2)
              = matchAt (line_pattern key) (hd_error ctx)
                  (c :: p ++ a :: x1)).
    { unfold line_pattern. rewrite !matchAt_line.
      change (c :: p ++ a :: x2) with ((c :: p) ++ a :: x2).
      change (c :: p ++ a :: x1) with ((c :: p) ++ a :: x1).
      destruct Hp as [Hp | [p0 [t [Hp Ht]]]]; [discriminate Hp |].
      rewrite Hp, !line_match_closed by assumption. reflexivity. }
    rewrite Hsame.
    destruct (matchAt (line_pattern key) (hd_error ctx) (c :: p ++ a :: x1));
      [discriminate Hs |].
    destruct (search (line_pattern key) (Some c) (p ++ a :: x1))
      as [[j m] |] eqn:E';
      [| discriminate Hs].
    inversion Hs; subst.
    assert (Hrec : search (line_pattern key) (hd_error (c :: ctx))
                     (p ++ a :: x2)
                   = Some (length p, n2)).
    { apply (IH (c :: ctx) a x1 x2 n1 n2);
        [| exact Ha | exact Ha' | exact E' |].
      - now apply line_closed_tail in Hp.
      - cbn [rev] in Hm. rewrite <- app_assoc in Hm. exact Hm. }
    cbn [hd_error] in Hrec. now rewrite Hrec.
Qed.

End FirstMatch.

Lemma span_app_all (p : Z -> bool) (v post : jsstring) :
  forallb p v = true ->
  match post with
  | [] => True
  | c :: _ => p c = false
  end ->
  span p (v ++ post) = length v.
Proof.
  intros Hv Hpost. destruct post as [| c post].
  - rewrite app_nil_r. destruct (span_full_or_not p v) as [[H _] | H];
      [exact H |].
    pose proof (span_firstn p v). pose proof (span_skipn p v) as Hs.
    destruct (skipn_nonempty _ _ H) as [d [tl Hd]]. rewrite Hd in Hs.
    assert (Hin : In d v).
    { rewrite <- (firstn_skipn (span p v) v), Hd. apply in_or_app. right.
      now left. }
    rewrite forallb_forall in Hv. rewrite (Hv d Hin) in Hs. discriminate Hs.
  - now apply span_app_stop.
Qed.

Lemma plain_override_in_line (v : jsstring) :
  plain_override v = true ->
  forallb (accepts CDot) v = true /\
  forallb (fun c => negb (c =? 36)) v = true.
Proof.
  unfold plain_override. induction v as [| c v IH]; cbn [forallb accepts];
    [now split |].
  intros H. apply andb_prop in H as [Hc Hv]. apply andb_prop in Hc as [H1 H2].
  destruct (IH Hv) as [IH1 IH2]. now rewrite H1, H2, IH1, IH2.
Qed.

(** The line the override writes is matched whole. *)
Lemma line_match_override (prev : option Z) (v post : jsstring) :
  at_line_start prev = true ->
  plain_override v = true ->
  match post with
  | [] => True
  | c :: _ => isLineTerminator c = true
  end ->
  line_match (js "AllowedIPs") false prev ((js "AllowedIPs = " ++ v) ++ post)
  = Some (length (js "AllowedIPs = " ++ v)).
Proof.
  intros Hprev Hv Hpost. apply plain_override_in_line in Hv as [Hv _].
  unfold line_match. rewrite Hprev.
  change (js "AllowedIPs = " ++ v)
    with (js "AllowedIPs" ++ 32 :: 61 :: 32 :: v).
  rewrite <- app_assoc.
  assert (Hk : startsWith (js "AllowedIPs" ++ (32 :: 61 :: 32 :: v) ++ post)
                 (js "AllowedIPs") = true)
    by (apply startsWith_app; eauto).
  rewrite Hk, skipn_length_app. cbn [andb app].
  change (span (accepts CSpace) (32 :: 61 :: 32 :: v ++ post)) with 1%nat.
  cbn [skipn]. change (61 =? 61) with true. cbv iota.
  change (span (accepts CDot) (32 :: v ++ post))
    with (S (span (accepts CDot) (v ++ post))).
  rewrite span_app_all; [| exact Hv |].
  - cbn [skipn]. rewrite skipn_length_app. cbn [andb].
    f_equal. rewrite !length_app. cbn [length].
    destruct post; lia.
  - destruct post as [| c post]; [exact I |]. cbn [accepts].
    now rewrite Hpost.
Qed.

(** ** The pipeline a second time *)

Lemma effectiveConfig_eq (wgConfig allowedIps : jsstring) (keepDns : bool) :
  effectiveConfig wgConfig allowedIps keepDns
  = stripped keepDns (overridden allowedIps (decodeConfig wgConfig)).
Proof.
  unfold effectiveConfig, returned, transformConfig, overrideAllowedIps,
    stripDns, overridden, stripped.
  generalize (decodeConfig wgConfig). intros c.
  destruct (truthy allowedIps), keepDns; cbv [bind info emit ret negb fst];
    try reflexivity;
    match goal with
    | |- context [removeDnsConfig ?x ?st] =>
        destruct (removeDnsConfig_run unit x st) as [l [-> _]]
    end; reflexivity.
Qed.

Section InsideLine.

Variable P : jsstring -> bool.

Lemma at_some_line_start_inside :
  forall l c y,
    isLineTerminator c = false ->
    forallb (accepts CDot) l = true ->
    at_some_line_start P (Some c) (l ++ y) = true ->
    exists t r, y = t :: r /\ at_some_line_start P (Some t) r = true.
Proof.
  induction l as [| d l IH]; intros c y Hc Hl H.
  - cbn [app] in H. destruct y as [| t r]; cbn [at_some_line_start
      at_line_start] in H; rewrite Hc in H; cbn [andb orb] in H;
      [discriminate H |].
    now exists t, r.
  - cbn [forallb accepts] in Hl. apply andb_prop in Hl as [Hd Hl].
    apply negb_true_iff in Hd.
    cbn [app at_some_line_start at_line_start] in H. rewrite Hc in H.
    cbn [andb orb] in H. exact (IH d y Hd Hl H).
Qed.

End InsideLine.

Lemma replace_first_at (r : regex) (p line post : jsstring) :
  search r None (p ++ line ++ post) = Some (length p, length line) ->
  forallb (fun c => negb (c =? 36)) line = true ->
  replace_first r line (p ++ line ++ post) = p ++ line ++ post.
Proof.
  intros Hs Hl. unfold replace_first. rewrite Hs.
  rewrite firstn_length_app, skipn_length_app, skipn_length_app.
  now rewrite GetSubstitution_literal.
Qed.

Lemma override_line_plain (v : jsstring) :
  plain_override v = true ->
  forallb (fun c => negb (c =? 36)) (js "AllowedIPs = " ++ v) = true /\
  forallb (accepts CDot) (js "AllowedIPs = " ++ v) = true.
Proof.
  intros Hv. apply plain_override_in_line in Hv as [H1 H2].
  rewrite !forallb_app, H1, H2. split; reflexivity.
Qed.

(** What the override does where it finds an assignment. *)
Lemma overridden_split (v c0 : jsstring) (i n : nat) :
  plain_override v = true ->
  search ALLOWED_IPS_RE None c0 = Some (i, n) ->
  exists p m' post0,
    c0 = p ++ (65 :: m') ++ post0 /\
    line_closed p /\
    search ALLOWED_IPS_RE None (p ++ (65 :: m') ++ post0)
    = Some (length p, n) /\
    match post0 with
    | [] => True
    | c :: _ => isLineTerminator c = true
    end /\
    replace_first ALLOWED_IPS_RE (js "AllowedIPs = " ++ v) c0
    = p ++ (js "AllowedIPs = " ++ v) ++ post0.
Proof.
  intros Hv Hs.
  destruct (search_Some_split _ c0 [] i n Hs) as [Hi Hm].
  rewrite matchAt_ALLOWED_IPS_RE in Hm.
  apply line_match_Some in Hm
    as [Hprev [ws [body [nl [post0 [Hx [Hws [Hbody [[-> Hpost] Hn]]]]]]]]].
  rewrite app_nil_r in *. cbn [app] in Hx.
  assert (Hc0 : c0 = firstn i c0 ++
                     (65 :: [108; 108; 111; 119; 101; 100; 73; 80; 115] ++
                      ws ++ 61 :: body) ++ post0).
  { rewrite <- (firstn_skipn i c0) at 1. f_equal. rewrite Hx.
    cbn [app]. rewrite <- !app_assoc. reflexivity. }
  assert (Hlen : length (firstn i c0) = i) by (rewrite length_firstn; lia).
  exists (firstn i c0),
    ([108; 108; 111; 119; 101; 100; 73; 80; 115] ++ ws ++ 61 :: body), post0.
  split; [exact Hc0 |]. split; [| split; [| split]].
  - destruct (firstn i c0) eqn:E; [now left |].
    apply (line_closed_of_start _ []);
      [rewrite app_nil_r; exact Hprev | discriminate].
  - rewrite <- Hc0, Hlen. exact Hs.
  - exact Hpost.
  - unfold replace_first. rewrite Hs.
    destruct (override_line_plain v Hv) as [Hdollar _].
    rewrite GetSubstitution_literal by exact Hdollar.
    f_equal. f_equal. rewrite Hx, Hn.
    rewrite <- (assignment_assoc (js "AllowedIPs") ws body post0).
    apply skipn_length_app.
Qed.

Lemma override_line_head (v post : jsstring) :
  (js "AllowedIPs = " ++ v) ++ post
  = 65 :: (js "llowedIPs = " ++ v) ++ post.
Proof. reflexivity. Qed.

(** The override changes nothing the second time. *)
Lemma overridden_twice (v c0 : jsstring) :
  plain_override v = true ->
  overridden v (overridden v c0) = overridden v c0.
Proof.
  intros Hv. unfold overridden. destruct (truthy v); [| reflexivity].
  destruct (search ALLOWED_IPS_RE None c0) as [[i n] |] eqn:Hs.
  - destruct (overridden_split v c0 i n Hv Hs)
      as [p [m' [post0 [Hc0 [Hp [Hs' [Hpost ->]]]]]]].
    destruct (override_line_plain v Hv) as [Hdollar _].
    apply replace_first_at; [| exact Hdollar].
    rewrite override_line_head.
    apply (search_prefix_swap (js "AllowedIPs") eq_refl p [] 65
             (m' ++ post0) _ n);
      [exact Hp | reflexivity | discriminate | exact Hs' |].
    rewrite <- override_line_head.
    change (Bol :: map (fun c => One (CChar c)) (js "AllowedIPs") ++
            [Star CSpace; One (CChar 61); Star CDot])
      with ALLOWED_IPS_RE.
    rewrite matchAt_ALLOWED_IPS_RE. apply line_match_override; auto.
    destruct Hp as [-> | [p0 [t [-> Ht]]]]; [reflexivity |].
    now apply line_closed_start.
  - unfold replace_first. now rewrite !Hs.
Qed.

Lemma js_AllowedIPs :
  js "AllowedIPs" = [65; 108; 108; 111; 119; 101; 100; 73; 80; 115].
Proof. reflexivity. Qed.

Lemma last_in_line (l ctx : jsstring) :
  forallb (accepts CDot) l = true -> l <> [] ->
  at_line_start (hd_error (rev l ++ ctx)) = false.
Proof.
  intros Hl Hne. destruct l as [| x l _] using rev_ind; [contradiction |].
  rewrite rev_app_distr. cbn [rev app hd_error at_line_start].
  rewrite forallb_app in Hl. apply andb_prop in Hl as [_ Hx].
  cbn [forallb accepts] in Hx. rewrite andb_true_r in Hx.
  now apply negb_true_iff in Hx.
Qed.

Lemma line_closed_at_start (p ctx : jsstring) :
  line_closed p -> at_line_start (hd_error ctx) = true ->
  at_line_start (hd_error (rev p ++ ctx)) = true.
Proof.
  intros [-> | [p0 [t [-> Ht]]]] Hctx; [exact Hctx |].
  now apply line_closed_start.
Qed.

(** The override brings no dangling [DNS] in. *)
Lemma overridden_no_dangling_dns (v c0 : jsstring) :
  plain_override v = true ->
  no_dangling (js "DNS") c0 ->
  no_dangling (js "DNS") (overridden v c0).
Proof.
  intros Hv Hd. unfold overridden. destruct (truthy v); [| exact Hd].
  destruct (search ALLOWED_IPS_RE None c0) as [[i n] |] eqn:Hs;
    [| unfold replace_first; now rewrite Hs].
  destruct (overridden_split v c0 i n Hv Hs)
    as [p [m' [post0 [Hc0 [Hp [_ [Hpost ->]]]]]]].
  unfold no_dangling, dangling_key in *. rewrite js_DNS in *.
  destruct (key_then_hypotheses 68 [78; 83] isLineTerminator eq_refl)
    as [H1 [H2 _]].
  rewrite Hc0 in Hd.
  rewrite (at_some_line_start_app _ H1 H2 p [] _ Hp) in Hd.
  apply orb_false_elim in Hd as [Hd1 Hd2].
  rewrite (at_some_line_start_app _ H1 H2 p [] _ Hp), Hd1. cbn [orb].
  destruct (at_some_line_start (key_then [68; 78; 83] isLineTerminator)
              (hd_error (rev p ++ []))
              ((js "AllowedIPs = " ++ v) ++ post0)) eqn:E; [| reflexivity].
  exfalso. rewrite override_line_head in E.
  cbn [at_some_line_start] in E.
  change (key_then [68; 78; 83] isLineTerminator
            (65 :: (js "llowedIPs = " ++ v) ++ post0)) with false in E.
  rewrite andb_false_r in E. cbn [orb] in E.
  destruct (override_line_plain v Hv) as [_ Hline].
  apply at_some_line_start_inside in E as [t [r [-> Hr]]];
    [| reflexivity | exact Hline].
  assert (Htail : at_some_line_start (key_then [68; 78; 83] isLineTerminator)
                    (hd_error (rev p ++ [])) (((65 :: m') ++ [t]) ++ r)
                  = true).
  { apply at_some_line_start_tail. rewrite rev_app_distr. exact Hr. }
  rewrite <- app_assoc in Htail. cbn [app] in Htail, Hd2. congruence.
Qed.

(** The result of the two steps, where the override found an assignment:
    the removal leaves the overridden line as the first assignment. *)
Lemma stripped_override_stable (v c0 : jsstring) (i n : nat) :
  plain_override v = true ->
  no_dangling (js "AllowedIPs") c0 ->
  search ALLOWED_IPS_RE None c0 = Some (i, n) ->
  replace_first ALLOWED_IPS_RE (js "AllowedIPs = " ++ v)
    (replace_all DNS_LINE_RE []
       (replace_first ALLOWED_IPS_RE (js "AllowedIPs = " ++ v) c0))
  = replace_all DNS_LINE_RE []
      (replace_first ALLOWED_IPS_RE (js "AllowedIPs = " ++ v) c0).
Proof.
  intros Hv Hd Hs.
  destruct (overridden_split v c0 i n Hv Hs)
    as [p [m' [post0 [Hc0 [Hp [Hs' [Hpost ->]]]]]]].
  destruct (override_line_plain v Hv) as [Hdollar Hline].
  unfold replace_all.
  (* the scan stops at the end of [p], keeps the line, goes on *)
  rewrite override_line_head.
  rewrite (replace_scan_app (length p) p [] 65) by (auto; discriminate).
  rewrite <- override_line_head.
  rewrite (replace_scan_line (js "AllowedIPs = " ++ v));
    [| exact Hline
     | rewrite matchAt_DNS_LINE_RE; unfold line_match;
       now rewrite andb_false_r].
  set (p' := replace_scan DNS_LINE_RE [] [] 0 p).
  set (post' := replace_scan DNS_LINE_RE []
                  (rev (js "AllowedIPs = " ++ v) ++ rev p ++ []) 0 post0).
  assert (Hpost' : match post' with
                   | [] => True
                   | c :: _ => isLineTerminator c = true
                   end).
  { apply replace_scan_after_line; [| exact Hpost].
    apply last_in_line; [exact Hline | discriminate]. }
  assert (Hstart : at_line_start (hd_error (rev p' ++ [])) = true).
  { apply (replace_scan_closed (length p)); [lia | auto |].
    now apply line_closed_at_start. }
  assert (Hp' : line_closed p').
  { destruct (list_eq_dec Z.eq_dec p' []) as [E | E]; [now left |].
    now apply (line_closed_of_start _ []). }
  (* no line of [p'] starts with the key *)
  destruct (key_then_hypotheses 65 [108; 108; 111; 119; 101; 100; 73; 80; 115]
              equals_or_terminator eq_refl) as [H1 [H2 H3]].
  assert (Hquiet : at_some_line_start
                     (key_then (js "AllowedIPs") equals_or_terminator)
                     None p' = false).
  { destruct (at_some_line_start
                (key_then (js "AllowedIPs") equals_or_terminator) None p')
      eqn:E; [| reflexivity].
    exfalso. rewrite js_AllowedIPs in E.
    apply (replace_scan_dangling 65
             [108; 108; 111; 119; 101; 100; 73; 80; 115]
             equals_or_terminator p eq_refl) in E.
    rewrite <- js_AllowedIPs in E.
    rewrite (at_some_line_start_ext _
               (fun x => key_then (js "AllowedIPs") is_equals x ||
                         key_then (js "AllowedIPs") isLineTerminator x)) in E
      by (intros x; apply key_then_orb).
    rewrite at_some_line_start_orb in E. apply orb_prop in E as [E | E].
    - pose proof (search_prefix_quiet (js "AllowedIPs") eq_refl p []
                    _ n Hp Hs') as Hq.
      cbn [hd_error] in Hq. congruence.
    - unfold no_dangling, dangling_key in Hd. rewrite Hc0 in Hd.
      destruct (key_then_hypotheses 65
                  [108; 108; 111; 119; 101; 100; 73; 80; 115]
                  isLineTerminator eq_refl) as [G1 [G2 _]].
      rewrite js_AllowedIPs in Hd, E.
      rewrite (at_some_line_start_app _ G1 G2 p [] _ Hp) in Hd.
      cbn [hd_error] in Hd. rewrite E in Hd. discriminate Hd. }
  apply replace_first_at; [| exact Hdollar].
  rewrite override_line_head.
  apply (search_app (js "AllowedIPs") eq_refl p' [] 65);
    [exact Hp' | reflexivity | discriminate | exact Hquiet |].
  rewrite <- override_line_head.
  change (Bol :: map (fun c => One (CChar c)) (js "AllowedIPs") ++
          [Star CSpace; One (CChar 61); Star CDot])
    with ALLOWED_IPS_RE.
  rewrite matchAt_ALLOWED_IPS_RE.
  now apply line_match_override.
Qed.

(** Where the override found no assignment, the removal makes none. *)
Lemma stripped_no_assignment (c0 : jsstring) :
  no_dangling (js "AllowedIPs") c0 ->
  search ALLOWED_IPS_RE None c0 = None ->
  search ALLOWED_IPS_RE None (replace_all DNS_LINE_RE [] c0) = None.
Proof.
  intros Hd Hs.
  destruct (search ALLOWED_IPS_RE None (replace_all DNS_LINE_RE [] c0))
    as [[i n] |] eqn:E; [| reflexivity].
  exfalso. apply (search_Some_key_then (js "AllowedIPs")) in E.
  rewrite js_AllowedIPs in E.
  apply (replace_scan_dangling 65 [108; 108; 111; 119; 101; 100; 73; 80; 115]
           equals_or_terminator c0 eq_refl) in E.
  rewrite <- js_AllowedIPs in E.
  rewrite (at_some_line_start_ext _
             (fun x => key_then (js "AllowedIPs") is_equals x ||
                       key_then (js "AllowedIPs") isLineTerminator x)) in E
    by (intros x; apply key_then_orb).
  rewrite at_some_line_start_orb in E. apply orb_prop in E as [E | E].
  - apply (key_then_search_Some (js "AllowedIPs")) in E. now apply E.
  - unfold no_dangling, dangling_key in Hd. congruence.
Qed.

(** The two steps change nothing the second time. *)
Lemma steps_twice (v c0 : jsstring) (keep : bool) :
  plain_override v = true ->
  (keep = false ->
   no_dangling (js "DNS") c0 /\
   (truthy v = true -> no_dangling (js "AllowedIPs") c0)) ->
  stripped keep (overridden v (stripped keep (overridden v c0)))
  = stripped keep (overridden v c0).
Proof.
  intros Hv Hd. destruct keep.
  - cbn [stripped]. now apply overridden_twice.
  - destruct (Hd eq_refl) as [Hdns Hips].
    pose proof (overridden_no_dangling_dns v c0 Hv Hdns) as Hdns1.
    assert (Hover : overridden v (stripped false (overridden v c0))
                    = stripped false (overridden v c0)).
    { unfold overridden in *. cbn [stripped].
      destruct (truthy v); [| reflexivity].
      specialize (Hips eq_refl).
      destruct (search ALLOWED_IPS_RE None c0) as [[i n] |] eqn:Hs.
      - now apply (stripped_override_stable v c0 i n).
      - assert (Hc1 : replace_first ALLOWED_IPS_RE (js "AllowedIPs = " ++ v)
                        c0 = c0)
          by (unfold replace_first; now rewrite Hs).
        rewrite Hc1. unfold replace_first.
        now rewrite (stripped_no_assignment c0 Hips Hs). }
    rewrite Hover. cbn [stripped].
    apply replace_all_stable. now apply replace_all_no_dns_match.
Qed.

(** C5, as amended.  The pipeline returns [out], which the decoder does
    not take for base64 again; the override holds no [$] and no line
    terminator; and, when DNS lines are removed, the decoded configuration
    has no line made of [DNS] and blanks only, nor, with an override, of
    [AllowedIPs] and blanks only.  Then the pipeline returns [out] on
    [out]. *)
Theorem transformConfig_idempotent :
  forall (World : Type) (wgConfig allowedIps : jsstring) (keepDns : bool)
         (st st' : state World) (out : jsstring),
    returned (transformConfig wgConfig allowedIps keepDns) st = Some out ->
    decodeConfig out = out ->
    plain_override allowedIps = true ->
    (keepDns = false ->
     no_dangling (js "DNS") (decodeConfig wgConfig) /\
     (truthy allowedIps = true ->
      no_dangling (js "AllowedIPs") (decodeConfig wgConfig))) ->
    returned (transformConfig out allowedIps keepDns) st' = Some out.
Proof.
  intros World wgConfig allowedIps keepDns st st' out Hout Hdec Hv Hd.
  unfold returned in *. rewrite transformConfig_run in *.
  cbn [fst] in *. inversion Hout as [Hout'].
  rewrite Hout'. f_equal.
  rewrite (effectiveConfig_eq out), Hdec.
  rewrite <- Hout', effectiveConfig_eq.
  now apply steps_twice.
Qed.

Lemma transformConfig_idempotent_witness :
  returned
    (transformConfig
       (js "[Interface]" ++ [LF] ++ js "PrivateKey = x" ++ [LF] ++
        js "[Peer]" ++ [LF] ++ js "AllowedIPs = 10.0.0.0/8" ++ [LF])
       (js "10.0.0.0/8") false)
    (mkState tt [])
  = Some (js "[Interface]" ++ [LF] ++ js "PrivateKey = x" ++ [LF] ++
          js "[Peer]" ++ [LF] ++ js "AllowedIPs = 10.0.0.0/8" ++ [LF]).
Proof.
  apply (transformConfig_idempotent unit sample_config (js "10.0.0.0/8")
           false (mkState tt []) (mkState tt [])).
  - vm_compute. reflexivity.
  - vm_compute. reflexivity.
  - vm_compute. reflexivity.
  - intros _. split; [| intros _]; vm_compute; reflexivity.
Defined.

(** C5, as stated, fails: the decoder adopts the first result again. *)
Lemma transformConfig_not_idempotent :
  effectiveConfig (base64_encode (utf8_encode commented_config)) [] true
  = commented_config /\
  effectiveConfig commented_config [] true <> commented_config.
Proof.
  split; [vm_compute; reflexivity |].
  vm_compute. intros H. discriminate H.
Qed.

(** It fails in the two other steps as well: an override is expanded again,
    and so is a DNS assignment that the first removal has joined. *)
Example override_not_idempotent :
  effectiveConfig (js "AllowedIPs = a") (js "$&$&") true
  = js "AllowedIPs = AllowedIPs = aAllowedIPs = a" /\
  effectiveConfig (js "AllowedIPs = AllowedIPs = aAllowedIPs = a")
    (js "$&$&") true
  <> js "AllowedIPs = AllowedIPs = aAllowedIPs = a".
Proof.
  split; [vm_compute; reflexivity |].
  vm_compute. intros H. discriminate H.
Qed.

Example removal_not_idempotent :
  effectiveConfig (js "DNS" ++ [LF] ++ js "DNS = 1" ++ [LF] ++ js "= x") []
    false
  = js "DNS" ++ [LF] ++ js "= x" /\
  effectiveConfig (js "DNS" ++ [LF] ++ js "= x") [] false = [].
Proof. split; vm_compute; reflexivity. Qed.

Example override_after_removal_not_idempotent :
  effectiveConfig
    (js "AllowedIPs" ++ [LF] ++ js "DNS = 1" ++ [LF] ++ js "= x")
    (js "10.0.0.0/8") false
  = js "AllowedIPs" ++ [LF] ++ js "= x" /\
  effectiveConfig (js "AllowedIPs" ++ [LF] ++ js "= x") (js "10.0.0.0/8")
    false
  = js "AllowedIPs = 10.0.0.0/8".
Proof. split; vm_compute; reflexivity. Qed.

(* ================================================================== *)
(** * Further properties of the two phases *)

(** ** The setup phase on every runner *)

Lemma jsstring_eqb_eq (a b : jsstring) : jsstring_eqb a b = true <-> a = b.
Proof.
  revert b. induction a as [|x a IH]; intros [|y b]; cbn; split;
    try congruence; try discriminate.
  - rewrite andb_true_iff, Z.eqb_eq, IH. intros [-> ->]. reflexivity.
  - intros H. inversion H; subst. rewrite Z.eqb_refl. cbn. now apply IH.
Qed.

(** Splits on the outcome of the next command or write of [run]. *)
Ltac setup_step :=
  match goal with
  | |- context [match ?f ?c ?a ?w with pair _ _ => _ end] =>
      let E := fresh "E" in
      destruct (f c a w) as [[[?m|]|] ?w] eqn:E; cbn [fst snd world emitted]
  | |- context [match ?f ?p ?d ?m ?w with pair _ _ => _ end] =>
      let E := fresh "E" in
      destruct (f p d m w) as [[[?m|]|] ?w] eqn:E; cbn [fst snd world emitted]
  end.

(** All the ways [run] can go: the required input missing, or each of the
    eight operations resolving or throwing. *)
Ltac setup_cases inputs :=
  unfold configured;
  run_phase;
  cbv [getInput andb negb throw ret];
  destruct (truthy (inputs (js "wg-config-file"))) eqn:Hin;
  [ repeat (setup_step; cbv beta iota zeta;
            rewrite ?transformConfig_run; cbn [fst snd world emitted]);
    destruct (transform_log_quiet (trim (inputs (js "wg-config-file")))
                (trim (inputs (js "allowed-ips")))
                (jsstring_eqb (trim (inputs (js "keep-dns"))) (js "true")))
      as [Hops [Hfatal Hsaved]]
  | ].

Ltac read_log :=
  rewrite ?operations_of_app, ?fatal_messages_app, ?saved_states_app;
  repeat match goal with
    | H : _ = [] |- _ => rewrite H
    end.

Ltac replay_outcomes :=
  cbn [first_failure setup_operations perform world];
  repeat match goal with
    | E : ?f ?c ?a ?w = _ |- context [?f ?c ?a ?w] => rewrite E
    | E : ?f ?p ?d ?m ?w = _ |- context [?f ?p ?d ?m ?w] => rewrite E
    end.

(** X1.  Whatever the inputs and whatever the commands do, [run] returns
    normally and the operations it has issued are an initial segment of
    the fixed sequence refresh, install, mkdir, write of [/tmp/wg0.conf]
    with mode 0o600, move, chmod, tunnel up, status: no step is skipped or
    reordered, and nothing else is run or written. *)
Theorem run_operations_in_order :
  forall (World : Type)
         (exec_world : jsstring -> list jsstring -> World ->
                       option thrown * World)
         (write_world : jsstring -> jsstring -> Z -> World ->
                        option thrown * World)
         (inputs : jsstring -> jsstring)
         (st : state World),
  exists st' l rest,
    run exec_world write_world inputs st = (inl tt, st') /\
    emitted st' = emitted st ++ l /\
    setup_operations (configured inputs) = operations_of l ++ rest.
Proof.
  intros World exec_world write_world inputs [w0 l0].
  setup_cases inputs;
    (eexists; eexists; eexists; split; [reflexivity |]);
    (split; [cbn [emitted]; rewrite <- ?app_assoc; reflexivity |]);
    read_log; reflexivity.
Qed.

(** X2.  Every run of the setup phase ends in exactly one of two ways: the
    state [wireguard-started] is saved, last, after all eight operations and
    without any call of [core.setFailed]; or [core.setFailed] is called
    once, last, and the state is not saved. *)
Theorem run_reports_once :
  forall (World : Type)
         (exec_world : jsstring -> list jsstring -> World ->
                       option thrown * World)
         (write_world : jsstring -> jsstring -> Z -> World ->
                        option thrown * World)
         (inputs : jsstring -> jsstring)
         (st : state World),
  exists st' l,
    run exec_world write_world inputs st = (inl tt, st') /\
    emitted st' = emitted st ++ l /\
    ((fatal_messages l = [] /\
      saved_states l = [(js "wireguard-started", js "true")] /\
      last l (Info []) = SaveState (js "wireguard-started") (js "true") /\
      operations_of l = setup_operations (configured inputs)) \/
     (exists message,
        fatal_messages l = [message] /\
        saved_states l = [] /\
        last l (Info []) = SetFailed message)).
Proof.
  intros World exec_world write_world inputs [w0 l0].
  setup_cases inputs;
    (eexists; eexists; split; [reflexivity |]);
    (split; [cbn [emitted]; rewrite <- ?app_assoc; reflexivity |]);
    match goal with
    | |- (fatal_messages ?l = [] /\ _) \/ _ =>
        lazymatch l with
        | context [SaveState _ _] => left
        | _ => right; eexists
        end
    end;
    read_log; repeat split; rewrite ?app_assoc; apply last_last.
Qed.

(** X3.  The state [wireguard-started] is saved exactly when the required
    input is supplied and none of the eight operations throws, the status
    query [wg show] after the tunnel is up included. *)
Theorem run_marks_started_iff :
  forall (World : Type)
         (exec_world : jsstring -> list jsstring -> World ->
                       option thrown * World)
         (write_world : jsstring -> jsstring -> Z -> World ->
                        option thrown * World)
         (inputs : jsstring -> jsstring)
         (st : state World),
  exists st' l,
    run exec_world write_world inputs st = (inl tt, st') /\
    emitted st' = emitted st ++ l /\
    (saved_states l = [(js "wireguard-started", js "true")] <->
     truthy (inputs (js "wg-config-file")) = true /\
     first_failure exec_world write_world
       (setup_operations (configured inputs)) (world st) = None).
Proof.
  intros World exec_world write_world inputs [w0 l0].
  setup_cases inputs.
  all: (eexists; eexists; split; [reflexivity |]);
    (split; [cbn [emitted]; rewrite <- ?app_assoc; reflexivity |]).
  all: read_log; replay_outcomes.
  all: split;
    [ intros H; try discriminate H; split; reflexivity
    | intros [H' H]; try discriminate H; try discriminate H'; reflexivity ].
Qed.

(** X4.  Without the required input [wg-config-file], [run] touches
    nothing: no command is run and no file is written; its one effect is
    the call of [core.setFailed] with the message of [core.getInput]. *)
Theorem run_missing_config :
  forall (World : Type)
         (exec_world : jsstring -> list jsstring -> World ->
                       option thrown * World)
         (write_world : jsstring -> jsstring -> Z -> World ->
                        option thrown * World)
         (inputs : jsstring -> jsstring)
         (st : state World),
    inputs (js "wg-config-file") = [] ->
    run exec_world write_world inputs st
    = (inl tt,
       mkState (world st)
         (emitted st ++
          [SetFailed
             (js "Action failed: Input required and not supplied: " ++
              js "wg-config-file")])).
Proof.
  intros World exec_world write_world inputs [w0 l0] Hin.
  run_phase; cbv [getInput andb negb throw ret].
  rewrite Hin. reflexivity.
Qed.

Lemma run_missing_config_witness :
  run runner_exec runner_write (fun _ => [])
    (mkState (mkRunner false false []) [])
  = (inl tt,
     mkState (mkRunner false false [])
       [SetFailed
          (js "Action failed: Input required and not supplied: " ++
           js "wg-config-file")]).
Proof.
  exact (run_missing_config runner runner_exec runner_write (fun _ => [])
           (mkState (mkRunner false false []) []) eq_refl).
Defined.

(** X5.  The input [keep-dns] counts only when, trimmed, it is exactly
    [true]: with any other value ([True], [yes], [1]) [run] behaves in
    every respect as if the input were not given, and removes the DNS
    lines. *)
Theorem run_keep_dns_exact :
  forall (World : Type)
         (exec_world : jsstring -> list jsstring -> World ->
                       option thrown * World)
         (write_world : jsstring -> jsstring -> Z -> World ->
                        option thrown * World)
         (inputs : jsstring -> jsstring)
         (st : state World),
    trim (inputs (js "keep-dns")) <> js "true" ->
    run exec_world write_world inputs st
    = run exec_world write_world
        (fun name => if jsstring_eqb name (js "keep-dns") then []
                     else inputs name) st.
Proof.
  intros World exec_world write_world inputs st Hkeep.
  unfold run.
  cbv [try_catch bind getInput ret throw andb negb].
  change (jsstring_eqb (js "wg-config-file") (js "keep-dns")) with false.
  change (jsstring_eqb (js "allowed-ips") (js "keep-dns")) with false.
  change (jsstring_eqb (js "keep-dns") (js "keep-dns")) with true.
  cbv iota.
  destruct (jsstring_eqb (trim (inputs (js "keep-dns"))) (js "true")) eqn:E.
  - apply jsstring_eqb_eq in E. contradiction.
  - reflexivity.
Qed.

Lemma run_keep_dns_exact_witness :
  run runner_exec runner_write (sample_inputs (js "True"))
    (mkState (mkRunner false false []) [])
  = run runner_exec runner_write
      (fun name => if jsstring_eqb name (js "keep-dns") then []
                   else sample_inputs (js "True") name)
      (mkState (mkRunner false false []) []).
Proof.
  apply (run_keep_dns_exact runner runner_exec runner_write
           (sample_inputs (js "True"))).
  vm_compute. discriminate.
Defined.

(** X6.  With [keep-dns] set to [true], the setup phase is the setup phase
    of the earlier version of the action, which knew no DNS removal: the
    same outcome, the same events in the same order, the same world. *)
Theorem run_keep_dns_as_previous :
  forall (World : Type)
         (exec_world : jsstring -> list jsstring -> World ->
                       option thrown * World)
         (write_world : jsstring -> jsstring -> Z -> World ->
                        option thrown * World)
         (inputs : jsstring -> jsstring)
         (st : state World),
    trim (inputs (js "keep-dns")) = js "true" ->
    run exec_world write_world inputs st
    = Previous.run exec_world write_world inputs st.
Proof.
  intros World exec_world write_world inputs [w0 l0] Hkeep.
  unfold run, Previous.run, transformConfig, stripDns, overrideAllowedIps.
  change Previous.decodeConfig with decodeConfig.
  generalize (decodeConfig (trim (inputs (js "wg-config-file")))); intros c.
  cbv [try_catch bind getInput ret throw andb negb exec writeFileSync info
       setFailed saveState emit world emitted].
  rewrite Hkeep.
  change (jsstring_eqb (js "true") (js "true")) with true.
  cbv beta iota.
  destruct (truthy (inputs (js "wg-config-file"))); [| reflexivity].
  destruct (truthy (trim (inputs (js "allowed-ips"))));
    repeat (setup_step; try reflexivity).
Qed.

Lemma run_keep_dns_as_previous_witness :
  run runner_exec runner_write (sample_inputs (js " true "))
    (mkState (mkRunner false false []) [])
  = Previous.run runner_exec runner_write (sample_inputs (js " true "))
      (mkState (mkRunner false false []) []).
Proof.
  apply (run_keep_dns_as_previous runner runner_exec runner_write
           (sample_inputs (js " true "))).
  reflexivity.
Defined.

(** ** The teardown phase on every runner *)

(** X7.  [cleanup] always issues the interface probe and the file probe;
    it issues the down command exactly when the interface probe resolved
    and the delete command exactly when the file probe resolved; nothing
    else is run.  Whatever the down command does, the file probe follows
    it.  A probe that is rejected, for any reason, counts as absent. *)
Theorem cleanup_operations :
  forall (World : Type)
         (exec_world : jsstring -> list jsstring -> World ->
                       option thrown * World)
         (st : state World),
    let probe := exec_world (js "ip") [js "link"; js "show"; js "wg0"]
                   (world st) in
    let down := exec_world (js "sudo") [js "wg-quick"; js "down"; js "wg0"]
                  (snd probe) in
    let test := exec_world (js "sudo")
                  [js "test"; js "-f"; js "/etc/wireguard/wg0.conf"]
                  (if resolved (fst probe) then snd down else snd probe) in
    let rm := exec_world (js "sudo")
                [js "rm"; js "-f"; js "/etc/wireguard/wg0.conf"] (snd test) in
    exists l,
      cleanup exec_world st
      = (inl tt,
         mkState (if resolved (fst test) then snd rm else snd test)
           (emitted st ++ l)) /\
      operations_of l
      = [IP_LINK_SHOW] ++
        (if resolved (fst probe) then [WG_QUICK_DOWN] else []) ++
        [TEST_CONFIG] ++
        (if resolved (fst test) then [RM_CONFIG] else []).
Proof.
  intros World exec_world [w0 l0]; cbn zeta.
  run_phase.
  repeat (next_outcome; cbn [resolved fst snd]);
    (eexists; split; [rewrite <- ?app_assoc; reflexivity | reflexivity]).
Qed.

(** X8.  The warnings of [cleanup] are: one for a down command rejected
    with an [Error], naming its message (a rejection with another value
    gives none); then one for a rejected delete command.  Nothing else
    warns: absent interface, absent file and rejected probes are silent. *)
Theorem cleanup_warnings :
  forall (World : Type)
         (exec_world : jsstring -> list jsstring -> World ->
                       option thrown * World)
         (st : state World),
    let probe := exec_world (js "ip") [js "link"; js "show"; js "wg0"]
                   (world st) in
    let down := exec_world (js "sudo") [js "wg-quick"; js "down"; js "wg0"]
                  (snd probe) in
    let test := exec_world (js "sudo")
                  [js "test"; js "-f"; js "/etc/wireguard/wg0.conf"]
                  (if resolved (fst probe) then snd down else snd probe) in
    let rm := exec_world (js "sudo")
                [js "rm"; js "-f"; js "/etc/wireguard/wg0.conf"] (snd test) in
    exists st' l,
      cleanup exec_world st = (inl tt, st') /\
      emitted st' = emitted st ++ l /\
      warnings l
      = (if resolved (fst probe) then
           match fst down with
           | Some (ErrorObj message) =>
               [js "Failed to stop WireGuard: " ++ message]
           | _ => []
           end
         else []) ++
        (if resolved (fst test) then
           match fst rm with
           | Some (ErrorObj message) => [js "Cleanup failed: " ++ message]
           | Some OtherValue => [js "Cleanup failed with unknown error"]
           | None => []
           end
         else []).
Proof.
  intros World exec_world [w0 l0]; cbn zeta.
  run_phase.
  repeat (next_outcome; cbn [resolved fst snd]);
    (eexists; eexists; split; [reflexivity |]);
    (split; [cbn [emitted]; rewrite <- ?app_assoc; reflexivity |]);
    reflexivity.
Qed.

(** ** Configurations made of lines *)

Lemma startsWith_line (key : jsstring) :
  is_line key = true ->
  forall l t rest,
    isLineTerminator t = true ->
    startsWith (l ++ t :: rest) key = startsWith l key.
Proof.
  unfold is_line.
  induction key as [|k key IH]; intros Hkey l t rest Ht; [reflexivity |].
  cbn [forallb] in Hkey. apply andb_true_iff in Hkey as [Hk Hkey].
  destruct l as [|c l]; cbn [app startsWith].
  - destruct (t =? k) eqn:E; [| reflexivity].
    apply Z.eqb_eq in E. subst t. cbn [accepts] in Hk.
    rewrite Ht in Hk. discriminate Hk.
  - rewrite IH by assumption. reflexivity.
Qed.

(** A text is its leading blanks and what follows them. *)
Lemma blanks_split (r : jsstring) :
  exists ws r2,
    r = ws ++ r2 /\ forallb isWhiteSpace ws = true /\
    span isWhiteSpace r = length ws /\
    match r2 with
    | c :: _ => isWhiteSpace c = false
    | [] => True
    end.
Proof.
  exists (firstn (span isWhiteSpace r) r), (skipn (span isWhiteSpace r) r).
  split; [symmetry; apply firstn_skipn |].
  split; [apply span_firstn |].
  split; [| apply span_skipn].
  rewrite length_firstn. pose proof (span_le isWhiteSpace r). lia.
Qed.

Lemma blanks_are_spaces (ws : jsstring) :
  forallb isWhiteSpace ws = true -> forallb (accepts CSpace) ws = true.
Proof.
  induction ws as [|c ws IH]; [reflexivity |].
  cbn [forallb accepts]. intros H. apply andb_true_iff in H as [Hc Hws].
  rewrite Hc, IH by assumption. reflexivity.
Qed.

Lemma assigns_split (key l : jsstring) :
  assigns key l = true ->
  exists ws body,
    l = key ++ ws ++ 61 :: body /\ forallb isWhiteSpace ws = true.
Proof.
  unfold assigns, key_then, after_blanks, is_equals. intros H.
  apply andb_true_iff in H as [Hs Ha].
  apply startsWith_app in Hs as [r ->].
  rewrite skipn_length_app in Ha.
  destruct (blanks_split r) as [ws [r2 [-> [Hws [Hspan Hr2]]]]].
  rewrite Hspan, skipn_length_app in Ha.
  destruct r2 as [|c r3]; [discriminate Ha |].
  apply Z.eqb_eq in Ha. subst c.
  exists ws, r3. split; [reflexivity | exact Hws].
Qed.

(** The match of an assigning line is the line, with the [\n] that ends
    it when the pattern asks for it. *)
Lemma line_match_assigning_line (key : jsstring) (b : bool) (prev : option Z)
    (l rest : jsstring) :
  at_line_start prev = true ->
  is_line l = true -> assigns key l = true ->
  match rest with
  | [] => True
  | c :: _ => isLineTerminator c = true
  end ->
  line_match key b prev (l ++ rest)
  = Some (length l +
          match rest with
          | c :: _ => if b && (c =? 10)%Z then 1 else 0
          | [] => 0
          end)%nat.
Proof.
  intros Hprev Hl Ha Hrest.
  destruct (assigns_split key l Ha) as [ws [body [-> Hws]]].
  unfold is_line in Hl. rewrite !forallb_app in Hl. cbn [forallb] in Hl.
  apply andb_true_iff in Hl as [_ Hl].
  apply andb_true_iff in Hl as [_ Hl].
  apply andb_true_iff in Hl as [_ Hbody].
  unfold line_match. rewrite Hprev. cbn [andb].
  rewrite <- !app_assoc.
  replace (startsWith (key ++ ws ++ (61 :: body) ++ rest) key) with true
    by (symmetry; apply startsWith_app; eexists; reflexivity).
  rewrite skipn_length_app.
  cbn [app].
  rewrite (span_app_stop (accepts CSpace) ws 61 (body ++ rest))
    by (auto using blanks_are_spaces).
  rewrite skipn_length_app. cbn [Z.eqb Pos.eqb].
  assert (Hspan : span (accepts CDot) (body ++ rest) = length body).
  { apply span_app_all; [exact Hbody |].
    destruct rest as [|c rest']; [exact I |].
    cbn [accepts]. now rewrite Hrest. }
  rewrite Hspan, skipn_length_app.
  f_equal. rewrite !length_app. cbn [length].
  destruct rest as [|c rest']; lia.
Qed.

(** A line that neither assigns to the key nor holds the key alone is no
    match, whatever follows it. *)
Lemma line_match_other_line (key : jsstring) (b : bool) (prev : option Z)
    (l : jsstring) (t : Z) (rest : jsstring) :
  is_line key = true -> is_line l = true -> isLineTerminator t = true ->
  assigns key l = false -> bare_key key l = false ->
  line_match key b prev (l ++ t :: rest) = None.
Proof.
  intros Hkey Hl Ht Ha Hb.
  unfold line_match.
  rewrite (startsWith_line key Hkey l t rest Ht).
  destruct (startsWith l key) eqn:Hs;
    [| now rewrite andb_false_r].
  destruct (at_line_start prev); [cbn [andb] | reflexivity].
  apply startsWith_app in Hs as [r ->].
  rewrite <- app_assoc, skipn_length_app.
  unfold assigns, key_then, after_blanks, is_equals in Ha.
  unfold bare_key in Hb.
  replace (startsWith (key ++ r) key) with true in Ha, Hb
    by (symmetry; apply startsWith_app; eexists; reflexivity).
  rewrite skipn_length_app in Ha, Hb. cbn [andb] in Ha, Hb.
  unfold is_line in Hl. rewrite forallb_app in Hl.
  apply andb_true_iff in Hl as [_ Hr].
  destruct (blanks_split r) as [ws [r2 [-> [Hws [Hspan Hr2]]]]].
  rewrite Hspan, skipn_length_app in Ha.
  destruct r2 as [|c r3].
  - rewrite app_nil_r in Hb. rewrite Hws in Hb. discriminate Hb.
  - rewrite forallb_app in Hr. cbn [forallb] in Hr.
    apply andb_true_iff in Hr as [_ Hr].
    apply andb_true_iff in Hr as [Hc _].
    cbn [accepts] in Hc. apply negb_true_iff in Hc.
    rewrite <- app_assoc. cbn [app].
    rewrite (span_app_stop (accepts CSpace) ws c (r3 ++ t :: rest))
      by (cbn [accepts]; rewrite ?Hr2, ?Hc; auto using blanks_are_spaces).
    rewrite skipn_length_app, Ha. reflexivity.
Qed.

(** At the end of the text the key alone is no match either. *)
Lemma line_match_last_line (key : jsstring) (b : bool) (prev : option Z)
    (l : jsstring) :
  is_line l = true -> assigns key l = false ->
  line_match key b prev l = None.
Proof.
  intros Hl Ha.
  unfold line_match.
  destruct (startsWith l key) eqn:Hs;
    [| now rewrite andb_false_r].
  destruct (at_line_start prev); [cbn [andb] | reflexivity].
  apply startsWith_app in Hs as [r ->].
  rewrite skipn_length_app.
  unfold assigns, key_then, after_blanks, is_equals in Ha.
  replace (startsWith (key ++ r) key) with true in Ha
    by (symmetry; apply startsWith_app; eexists; reflexivity).
  rewrite skipn_length_app in Ha. cbn [andb] in Ha.
  unfold is_line in Hl. rewrite forallb_app in Hl.
  apply andb_true_iff in Hl as [_ Hr].
  destruct (blanks_split r) as [ws [r2 [-> [Hws [Hspan Hr2]]]]].
  rewrite Hspan, skipn_length_app in Ha.
  destruct r2 as [|c r3].
  - rewrite app_nil_r.
    assert (Hall : span (accepts CSpace) ws = length ws).
    { rewrite <- (app_nil_r ws) at 1.
      apply span_app_all; [now apply blanks_are_spaces | exact I]. }
    rewrite Hall, skipn_all. reflexivity.
  - rewrite forallb_app in Hr. cbn [forallb] in Hr.
    apply andb_true_iff in Hr as [_ Hr].
    apply andb_true_iff in Hr as [Hc _].
    cbn [accepts] in Hc. apply negb_true_iff in Hc.
    rewrite (span_app_stop (accepts CSpace) ws c r3)
      by (cbn [accepts]; rewrite ?Hr2, ?Hc; auto using blanks_are_spaces).
    rewrite skipn_length_app, Ha. reflexivity.
Qed.

Lemma is_line_DNS : is_line (js "DNS") = true.
Proof. reflexivity. Qed.

Lemma matchAt_DNS_LINE_RE_nil (prev : option Z) :
  matchAt DNS_LINE_RE prev [] = None.
Proof.
  rewrite matchAt_DNS_LINE_RE. unfold line_match. now rewrite andb_false_r.
Qed.

Lemma unlines_app (a b : list jsstring) :
  unlines (a ++ b) = unlines a ++ unlines b.
Proof. apply flat_map_app. Qed.

Lemma replace_scan_newline (before rest : jsstring) :
  replace_scan DNS_LINE_RE [] before 0 (LF :: rest)
  = LF :: replace_scan DNS_LINE_RE [] (LF :: before) 0 rest.
Proof.
  apply replace_scan_miss.
  rewrite matchAt_DNS_LINE_RE. unfold line_match.
  now rewrite andb_false_r.
Qed.

(** The global removal, line by line. *)
Lemma replace_scan_lines :
  forall (lines : list jsstring) (before tail : jsstring),
    at_line_start (hd_error before) = true ->
    forallb is_line lines = true ->
    is_line tail = true ->
    existsb (bare_key (js "DNS")) lines = false ->
    replace_scan DNS_LINE_RE [] before 0 (unlines lines ++ tail)
    = unlines (filter (fun l => negb (assigns (js "DNS") l)) lines) ++
      (if assigns (js "DNS") tail then [] else tail).
Proof.
  induction lines as [|l lines IH]; intros before tail Hprev Hlines Htail Hbare.
  - cbn [unlines flat_map filter app].
    destruct (assigns (js "DNS") tail) eqn:Ha.
    + pose proof (line_match_assigning_line (js "DNS") true
                    (hd_error before) tail [] Hprev Htail Ha I) as Hm.
      rewrite app_nil_r, Nat.add_0_r in Hm.
      destruct tail as [|c tail']; [discriminate Ha |].
      cbn [length] in Hm. rewrite <- matchAt_DNS_LINE_RE in Hm.
      rewrite (replace_scan_hit _ _ _ _ _ Hm).
      cbn [GetSubstitution app].
      change (S (length tail')) with (length (c :: tail')).
      rewrite skipn_all. apply replace_scan_end.
      apply matchAt_DNS_LINE_RE_nil.
    + pose proof (line_match_last_line (js "DNS") true (hd_error before)
                    tail Htail Ha) as Hm.
      rewrite <- matchAt_DNS_LINE_RE in Hm.
      pose proof (replace_scan_line tail before [] Htail) as Hscan.
      rewrite app_nil_r in Hscan. rewrite (Hscan Hm).
      rewrite replace_scan_end; [apply app_nil_r |].
      apply matchAt_DNS_LINE_RE_nil.
  - cbn [forallb] in Hlines. apply andb_true_iff in Hlines as [Hl Hlines].
    cbn [existsb] in Hbare. apply orb_false_iff in Hbare as [Hb Hbare].
    cbn [unlines flat_map filter]. fold (unlines lines).
    rewrite <- !app_assoc. cbn [app].
    destruct (assigns (js "DNS") l) eqn:Ha; cbn [negb].
    + pose proof (line_match_assigning_line (js "DNS") true
                    (hd_error before) l (LF :: unlines lines ++ tail)
                    Hprev Hl Ha eq_refl) as Hm.
      cbn [andb] in Hm. change (LF =? 10) with true in Hm. cbv iota in Hm.
      rewrite Nat.add_1_r in Hm. rewrite <- matchAt_DNS_LINE_RE in Hm.
      rewrite (replace_scan_hit _ _ _ _ _ Hm).
      cbn [GetSubstitution app].
      replace (S (length l)) with (length (l ++ [LF]))
        by (rewrite length_app; cbn [length]; lia).
      replace (l ++ LF :: unlines lines ++ tail)
        with ((l ++ [LF]) ++ unlines lines ++ tail)
        by (rewrite <- app_assoc; reflexivity).
      rewrite firstn_length_app, skipn_length_app.
      apply IH; try assumption.
      rewrite rev_app_distr. reflexivity.
    + pose proof (line_match_other_line (js "DNS") true (hd_error before)
                    l LF (unlines lines ++ tail) is_line_DNS Hl eq_refl
                    Ha Hb) as Hm.
      rewrite <- matchAt_DNS_LINE_RE in Hm.
      rewrite replace_scan_line by assumption.
      rewrite replace_scan_newline.
      cbn [unlines flat_map].
      fold (unlines (filter (fun l0 => negb (assigns (js "DNS") l0)) lines)).
      rewrite <- !app_assoc. cbn [app].
      f_equal. f_equal.
      apply IH; try assumption. reflexivity.
Qed.

(** X9.  On a configuration made of lines ended by [\n] (the last one may
    lack it), none of which holds the key [DNS] alone, [removeDnsConfig] is
    a filter: the lines that start with [DNS], blanks and [=] go, with
    their [\n]; every other line stays as it is, in its place. *)
Theorem removeDnsConfig_filters_lines :
  forall (World : Type) (lines : list jsstring) (tail : jsstring)
         (st : state World),
    forallb is_line lines = true ->
    is_line tail = true ->
    existsb (bare_key (js "DNS")) lines = false ->
    returned (removeDnsConfig (unlines lines ++ tail)) st
    = Some (unlines (filter (fun l => negb (assigns (js "DNS") l)) lines) ++
            (if assigns (js "DNS") tail then [] else tail)).
Proof.
  intros World lines tail st Hlines Htail Hbare.
  destruct (removeDnsConfig_run World (unlines lines ++ tail) st)
    as [l [Hrun _]].
  unfold returned. rewrite Hrun. cbn [fst].
  f_equal. unfold replace_all.
  apply replace_scan_lines; auto.
Qed.

Lemma removeDnsConfig_filters_lines_witness :
  returned
    (removeDnsConfig
       (unlines [js "[Interface]"; js "DNS = 1.1.1.1"; js "dns = 9.9.9.9";
                 js "  DNS = 9.9.9.9"; js "DNS=8.8.8.8, 8.8.4.4";
                 js "[Peer]"] ++
        js "DNS  = 1.0.0.1"))
    (mkState tt [])
  = Some (unlines [js "[Interface]"; js "dns = 9.9.9.9";
                   js "  DNS = 9.9.9.9"; js "[Peer]"]).
Proof.
  exact (removeDnsConfig_filters_lines unit
           [js "[Interface]"; js "DNS = 1.1.1.1"; js "dns = 9.9.9.9";
            js "  DNS = 9.9.9.9"; js "DNS=8.8.8.8, 8.8.4.4"; js "[Peer]"]
           (js "DNS  = 1.0.0.1") (mkState tt []) eq_refl eq_refl eq_refl).
Defined.

(** A character that does not begin the key is kept. *)
Lemma replace_scan_other (c : Z) (before rest : jsstring) :
  (c =? 68) = false ->
  replace_scan DNS_LINE_RE [] before 0 (c :: rest)
  = c :: replace_scan DNS_LINE_RE [] (c :: before) 0 rest.
Proof.
  intros Hc. apply replace_scan_miss.
  rewrite matchAt_DNS_LINE_RE. unfold line_match.
  rewrite js_DNS. cbn [startsWith]. rewrite Hc.
  cbn [andb]. now rewrite andb_false_r.
Qed.

Lemma replace_scan_crlf_lines :
  forall (lines : list jsstring) (before : jsstring),
    at_line_start (hd_error before) = true ->
    forallb is_line lines = true ->
    existsb (bare_key (js "DNS")) lines = false ->
    replace_scan DNS_LINE_RE [] before 0 (unlines_crlf lines)
    = unlines_crlf
        (map (fun l => if assigns (js "DNS") l then [] else l) lines).
Proof.
  induction lines as [|l lines IH]; intros before Hprev Hlines Hbare.
  - cbn [unlines_crlf flat_map map]. apply replace_scan_end.
    apply matchAt_DNS_LINE_RE_nil.
  - cbn [forallb] in Hlines. apply andb_true_iff in Hlines as [Hl Hlines].
    cbn [existsb] in Hbare. apply orb_false_iff in Hbare as [Hb Hbare].
    cbn [unlines_crlf flat_map map]. fold (unlines_crlf lines).
    fold (unlines_crlf
            (map (fun l0 => if assigns (js "DNS") l0 then [] else l0) lines)).
    rewrite <- !app_assoc. cbn [app].
    destruct (assigns (js "DNS") l) eqn:Ha.
    + pose proof (line_match_assigning_line (js "DNS") true
                    (hd_error before) l (13 :: LF :: unlines_crlf lines)
                    Hprev Hl Ha eq_refl) as Hm.
      cbn [andb] in Hm. change (13 =? 10) with false in Hm. cbv iota in Hm.
      rewrite Nat.add_0_r in Hm.
      destruct l as [|c l']; [discriminate Ha |].
      cbn [length] in Hm. rewrite <- matchAt_DNS_LINE_RE in Hm.
      rewrite (replace_scan_hit _ _ _ _ _ Hm).
      cbn [GetSubstitution app].
      change (S (length l')) with (length (c :: l')).
      change (c :: l' ++ 13 :: LF :: unlines_crlf lines)
        with ((c :: l') ++ 13 :: LF :: unlines_crlf lines).
      rewrite firstn_length_app, skipn_length_app.
      rewrite replace_scan_other by reflexivity.
      rewrite replace_scan_newline.
      f_equal. f_equal. apply IH; try assumption. reflexivity.
    + pose proof (line_match_other_line (js "DNS") true (hd_error before)
                    l 13 (LF :: unlines_crlf lines) is_line_DNS Hl eq_refl
                    Ha Hb) as Hm.
      rewrite <- matchAt_DNS_LINE_RE in Hm.
      rewrite replace_scan_line by assumption.
      rewrite replace_scan_other by reflexivity.
      rewrite replace_scan_newline.
      rewrite <- ?app_assoc. cbn [app].
      f_equal. f_equal. f_equal. apply IH; try assumption. reflexivity.
Qed.

(** X19.  On a configuration whose lines end with [\r\n], none of them
    holding the key [DNS] alone, [removeDnsConfig] empties the lines that
    start with [DNS], blanks and [=] but keeps their line end: an empty
    line stays in the place of each. *)
Theorem removeDnsConfig_on_crlf_lines :
  forall (World : Type) (lines : list jsstring) (st : state World),
    forallb is_line lines = true ->
    existsb (bare_key (js "DNS")) lines = false ->
    returned (removeDnsConfig (unlines_crlf lines)) st
    = Some (unlines_crlf
              (map (fun l => if assigns (js "DNS") l then [] else l) lines)).
Proof.
  intros World lines st Hlines Hbare.
  destruct (removeDnsConfig_run World (unlines_crlf lines) st)
    as [l [Hrun _]].
  unfold returned. rewrite Hrun. cbn [fst].
  f_equal. unfold replace_all.
  apply replace_scan_crlf_lines; auto.
Qed.

Lemma removeDnsConfig_on_crlf_lines_witness :
  returned
    (removeDnsConfig
       (unlines_crlf [js "[Interface]"; js "DNS = 1.1.1.1"; js "[Peer]"]))
    (mkState tt [])
  = Some (js "[Interface]" ++ [13; LF; 13; LF] ++ js "[Peer]" ++ [13; LF]).
Proof.
  exact (removeDnsConfig_on_crlf_lines unit
           [js "[Interface]"; js "DNS = 1.1.1.1"; js "[Peer]"]
           (mkState tt []) eq_refl eq_refl).
Defined.

Lemma replace_scan_shorter :
  forall (n : nat) (s before : jsstring),
    (length s <= n)%nat ->
    (length (replace_scan DNS_LINE_RE [] before 0 s) <= length s)%nat.
Proof.
  induction n as [|n IH]; intros s before Hn.
  - destruct s; [| cbn [length] in Hn; lia].
    rewrite replace_scan_end; [cbn; lia |].
    apply matchAt_DNS_LINE_RE_nil.
  - destruct (matchAt DNS_LINE_RE (hd_error before) s) as [m|] eqn:Hm.
    + pose proof (matchAt_le _ _ _ _ Hm) as Hle.
      rewrite matchAt_DNS_LINE_RE in Hm.
      destruct (line_match_length_pos _ _ _ _ _ Hm) as [k ->].
      rewrite <- matchAt_DNS_LINE_RE in Hm.
      rewrite (replace_scan_hit _ _ _ _ _ Hm). cbn [GetSubstitution app].
      etransitivity; [apply IH | ];
        rewrite length_skipn; lia.
    + destruct s as [|c s].
      * rewrite replace_scan_end by assumption. cbn; lia.
      * rewrite replace_scan_miss by assumption. cbn [length].
        apply le_n_S. apply IH. cbn [length] in Hn. lia.
Qed.

Lemma replace_scan_strictly_shorter :
  forall (s before : jsstring),
    search DNS_LINE_RE (hd_error before) s <> None ->
    (length (replace_scan DNS_LINE_RE [] before 0 s) < length s)%nat.
Proof.
  induction s as [|c s IH]; intros before Hs.
  - cbn [search] in Hs. rewrite matchAt_DNS_LINE_RE_nil in Hs.
    contradiction.
  - cbn [search] in Hs.
    destruct (matchAt DNS_LINE_RE (hd_error before) (c :: s)) as [m|] eqn:Hm.
    + pose proof (matchAt_le _ _ _ _ Hm) as Hle.
      rewrite matchAt_DNS_LINE_RE in Hm.
      destruct (line_match_length_pos _ _ _ _ _ Hm) as [k ->].
      rewrite <- matchAt_DNS_LINE_RE in Hm.
      rewrite (replace_scan_hit _ _ _ _ _ Hm). cbn [GetSubstitution app].
      eapply Nat.le_lt_trans;
        [apply (replace_scan_shorter (length (skipn (S k) (c :: s))));
         reflexivity |].
      rewrite length_skipn. lia.
    + rewrite replace_scan_miss by assumption. cbn [length].
      apply -> Nat.succ_lt_mono. apply IH.
      change (hd_error (c :: before)) with (Some c).
      destruct (search DNS_LINE_RE (Some c) s) as [[i m]|];
        [discriminate | contradiction].
Qed.

Lemma search_DNS_LINE_RE (prev : option Z) (s : jsstring) :
  search DNS_RE prev s <> None -> search DNS_LINE_RE prev s <> None.
Proof.
  intros H K. apply H.
  revert K. apply search_none_ext.
  intros p x. rewrite matchAt_DNS_RE, matchAt_DNS_LINE_RE.
  apply line_match_none_iff.
Qed.

(** X10.  [removeDnsConfig] logs its message exactly when it changes the
    configuration: either it logs nothing and returns its argument, or it
    logs the message and returns a strictly shorter text.  It never
    touches the world. *)
Theorem removeDnsConfig_logs_iff_changed :
  forall (World : Type) (configContent : jsstring) (st : state World),
  exists out l,
    removeDnsConfig configContent st
    = (inl out, mkState (world st) (emitted st ++ l)) /\
    ((l = [] /\ out = configContent) \/
     (l = [Info (js "Removing DNS setting to prevent resolvconf hang...")] /\
      (length out < length configContent)%nat)).
Proof.
  intros World configContent [w l0].
  unfold removeDnsConfig, matches.
  destruct (search DNS_RE None configContent) as [p|] eqn:Hs.
  - exists (replace_all DNS_LINE_RE [] configContent),
      [Info (js "Removing DNS setting to prevent resolvconf hang...")].
    split; [reflexivity |]. right. split; [reflexivity |].
    apply (replace_scan_strictly_shorter configContent []).
    apply search_DNS_LINE_RE. cbn [hd_error]. rewrite Hs. discriminate.
  - exists configContent, []. split.
    + cbv [ret world emitted]. now rewrite app_nil_r.
    + left. split; reflexivity.
Qed.

(** X11.  When no line of the configuration holds the key [DNS] alone,
    [removeDnsConfig] leaves nothing for a second pass: applied to its own
    result it returns it unchanged and logs nothing. *)
Theorem removeDnsConfig_idempotent :
  forall (World : Type) (configContent out : jsstring) (st st' : state World),
    no_dangling (js "DNS") configContent ->
    returned (removeDnsConfig configContent) st = Some out ->
    removeDnsConfig out st' = (inl out, st').
Proof.
  intros World configContent out st [w' l'] Hdang Hout.
  destruct (removeDnsConfig_run World configContent st) as [l [Hrun _]].
  unfold returned in Hout. rewrite Hrun in Hout. cbn [fst] in Hout.
  inversion Hout; subst out; clear Hout.
  unfold removeDnsConfig, matches.
  rewrite (replace_all_no_dns_match configContent Hdang).
  reflexivity.
Qed.

Lemma removeDnsConfig_idempotent_witness :
  removeDnsConfig
    (js "[Interface]" ++ [LF] ++ js "PrivateKey = x" ++ [LF] ++
     js "[Peer]" ++ [LF] ++ js "AllowedIPs = 0.0.0.0/0" ++ [LF])
    (mkState tt [])
  = (inl (js "[Interface]" ++ [LF] ++ js "PrivateKey = x" ++ [LF] ++
          js "[Peer]" ++ [LF] ++ js "AllowedIPs = 0.0.0.0/0" ++ [LF]),
     mkState tt []).
Proof.
  apply (removeDnsConfig_idempotent unit sample_config _ (mkState tt [])
           (mkState tt [])).
  - vm_compute. reflexivity.
  - vm_compute. reflexivity.
Defined.

(** ** The override *)

(** The first match of the pattern over lines: the lines before the first
    assigning one are passed. *)
Lemma search_line (key : jsstring) :
  forall (p : jsstring) (prev : option Z) (x : jsstring),
    is_line p = true ->
    line_match key false prev (p ++ LF :: x) = None ->
    search (line_pattern key) prev (p ++ LF :: x)
    = match search (line_pattern key) (Some LF) x with
      | Some (i, n) => Some (length p + 1 + i, n)%nat
      | None => None
      end.
Proof.
  induction p as [|c p IH]; intros prev x Hp Hm.
  - cbn [app search]. unfold line_pattern at 1.
    rewrite matchAt_line. cbn [app] in Hm. rewrite Hm.
    destruct (search (line_pattern key) (Some LF) x) as [[i n]|]; reflexivity.
  - cbn [app search]. unfold line_pattern at 1.
    rewrite matchAt_line. cbn [app] in Hm. rewrite Hm.
    unfold is_line in Hp. cbn [forallb] in Hp.
    apply andb_true_iff in Hp as [Hc Hp].
    rewrite IH.
    + destruct (search (line_pattern key) (Some LF) x) as [[i n]|];
        reflexivity.
    + exact Hp.
    + unfold line_match. cbn [at_line_start].
      cbn [accepts] in Hc. apply negb_true_iff in Hc. now rewrite Hc.
Qed.

Lemma search_lines (key : jsstring) :
  is_line key = true ->
  forall (pre : list jsstring) (prev : option Z) (l rest : jsstring),
    at_line_start prev = true ->
    forallb is_line pre = true ->
    existsb (assigns key) pre = false ->
    existsb (bare_key key) pre = false ->
    is_line l = true -> assigns key l = true ->
    match rest with
    | [] => True
    | c :: _ => isLineTerminator c = true
    end ->
    search (line_pattern key) prev (unlines pre ++ l ++ rest)
    = Some (length (unlines pre), length l).
Proof.
  intros Hkey.
  induction pre as [|p pre IH];
    intros prev l rest Hprev Hpre Hnone Hbare Hl Ha Hrest.
  - cbn [unlines flat_map app length].
    destruct (l ++ rest) eqn:E; cbn [search]; unfold line_pattern at 1;
      rewrite matchAt_line, <- E,
        (line_match_assigning_line key false prev l rest Hprev Hl Ha Hrest);
      (replace (match rest with
                | [] => 0%nat
                | c :: _ => if false && (c =? 10) then 1%nat else 0%nat
                end) with 0%nat by (destruct rest; reflexivity));
      rewrite Nat.add_0_r; reflexivity.
  - cbn [forallb] in Hpre. apply andb_true_iff in Hpre as [Hp Hpre].
    cbn [existsb] in Hnone, Hbare.
    apply orb_false_iff in Hnone as [Hn Hnone].
    apply orb_false_iff in Hbare as [Hb Hbare].
    cbn [unlines flat_map]. fold (unlines pre).
    rewrite <- !app_assoc. cbn [app].
    rewrite search_line.
    + rewrite (IH (Some LF) l rest) by auto.
      rewrite !length_app. cbn [length]. f_equal. f_equal. lia.
    + exact Hp.
    + apply line_match_other_line; auto.
Qed.

Lemma replace_first_lines (v : jsstring) (pre : list jsstring)
    (l rest : jsstring) :
  forallb (fun c => negb (c =? 36)) v = true ->
  forallb is_line pre = true ->
  existsb (assigns (js "AllowedIPs")) pre = false ->
  existsb (bare_key (js "AllowedIPs")) pre = false ->
  is_line l = true -> assigns (js "AllowedIPs") l = true ->
  match rest with
  | [] => True
  | c :: _ => isLineTerminator c = true
  end ->
  replace_first ALLOWED_IPS_RE (js "AllowedIPs = " ++ v)
    (unlines pre ++ l ++ rest)
  = unlines pre ++ (js "AllowedIPs = " ++ v) ++ rest.
Proof.
  intros Hplain Hpre Hnone Hbare Hl Ha Hrest.
  unfold replace_first.
  change ALLOWED_IPS_RE with (line_pattern (js "AllowedIPs")).
  rewrite (search_lines (js "AllowedIPs") eq_refl pre None l rest)
    by auto.
  rewrite firstn_length_app, skipn_length_app.
  rewrite firstn_length_app, skipn_length_app.
  rewrite GetSubstitution_literal; [reflexivity |].
  rewrite forallb_app. rewrite Hplain. reflexivity.
Qed.

(** X12.  The configuration is lines ended by [\n] up to a first line that
    starts with [AllowedIPs], blanks and [=]; none of the lines before it
    holds [AllowedIPs] alone; the override holds no [$].  Then the override
    puts [AllowedIPs = <override>] in the place of that one line and keeps
    every character before and after it, later [AllowedIPs] lines (of
    other peers) included. *)
Theorem overrideAllowedIps_replaces_first_line :
  forall (World : Type) (allowedIps : jsstring) (pre : list jsstring)
         (l rest : jsstring) (st : state World),
    truthy allowedIps = true ->
    forallb (fun c => negb (c =? 36)) allowedIps = true ->
    forallb is_line pre = true ->
    existsb (assigns (js "AllowedIPs")) pre = false ->
    existsb (bare_key (js "AllowedIPs")) pre = false ->
    is_line l = true -> assigns (js "AllowedIPs") l = true ->
    match rest with
    | [] => True
    | c :: _ => isLineTerminator c = true
    end ->
    returned (overrideAllowedIps allowedIps (unlines pre ++ l ++ rest)) st
    = Some (unlines pre ++ (js "AllowedIPs = " ++ allowedIps) ++ rest).
Proof.
  intros World v pre l rest st Hv Hplain Hpre Hnone Hbare Hl Ha Hrest.
  unfold returned, overrideAllowedIps. rewrite Hv.
  cbv [bind info emit ret fst].
  f_equal. now apply replace_first_lines.
Qed.

Lemma overrideAllowedIps_replaces_first_line_witness :
  returned
    (overrideAllowedIps (js "10.0.0.0/8, 192.168.1.0/24")
       (unlines [js "[Interface]"; js "PrivateKey = x"; js "[Peer]"] ++
        js "AllowedIPs=0.0.0.0/0" ++
        LF :: unlines [js "[Peer]"; js "AllowedIPs = ::/0"]))
    (mkState tt [])
  = Some (unlines [js "[Interface]"; js "PrivateKey = x"; js "[Peer]"] ++
          (js "AllowedIPs = " ++ js "10.0.0.0/8, 192.168.1.0/24") ++
          LF :: unlines [js "[Peer]"; js "AllowedIPs = ::/0"]).
Proof.
  exact (overrideAllowedIps_replaces_first_line unit
           (js "10.0.0.0/8, 192.168.1.0/24")
           [js "[Interface]"; js "PrivateKey = x"; js "[Peer]"]
           (js "AllowedIPs=0.0.0.0/0")
           (LF :: unlines [js "[Peer]"; js "AllowedIPs = ::/0"])
           (mkState tt []) eq_refl eq_refl eq_refl eq_refl eq_refl eq_refl
           eq_refl eq_refl).
Defined.

(** X13.  For an override without [$], on any text: the override logs its
    message and replaces the first assignment to [AllowedIPs] that starts a
    line, up to the end of its line, by [AllowedIPs = <override>]; the text
    before it and the text from the line's end on are kept; a text without
    such an assignment is kept whole. *)
Theorem overrideAllowedIps_replaces_first_assignment :
  forall (World : Type) (allowedIps configContent : jsstring)
         (st : state World),
    truthy allowedIps = true ->
    forallb (fun c => negb (c =? 36)) allowedIps = true ->
    exists out,
      overrideAllowedIps allowedIps configContent st
      = (inl out,
         mkState (world st)
           (emitted st ++
            [Info (js "Overriding AllowedIPs with: " ++ allowedIps)])) /\
      FirstAssignmentReplaced (js "AllowedIPs")
        (js "AllowedIPs = " ++ allowedIps) None configContent out.
Proof.
  intros World v c [w l0] Hv Hplain.
  destruct (overrideAllowedIps_literal World v c (mkState w l0) Hv Hplain)
    as [out [Hout Hrel]].
  exists out. split; [| exact Hrel].
  unfold returned, overrideAllowedIps in *. rewrite Hv in *.
  cbv [bind info emit ret fst world emitted] in *.
  inversion Hout. reflexivity.
Qed.

Lemma overrideAllowedIps_replaces_first_assignment_witness :
  exists out,
    overrideAllowedIps (js "10.0.0.0/8") sample_config (mkState tt [])
    = (inl out,
       mkState tt [Info (js "Overriding AllowedIPs with: " ++ js "10.0.0.0/8")])
    /\
    FirstAssignmentReplaced (js "AllowedIPs")
      (js "AllowedIPs = " ++ js "10.0.0.0/8") None sample_config out.
Proof.
  exact (overrideAllowedIps_replaces_first_assignment unit (js "10.0.0.0/8")
           sample_config (mkState tt []) eq_refl eq_refl).
Defined.

(** X14.  When no line of the configuration starts with [AllowedIPs]
    followed, after blanks, by [=] or by the end of the line (the key is
    absent, indented, or written in another case), the override changes
    nothing, for any override value, although it logs that it overrides. *)
Theorem overrideAllowedIps_without_assignment :
  forall (World : Type) (allowedIps configContent : jsstring)
         (st : state World),
    truthy allowedIps = true ->
    at_some_line_start (key_then (js "AllowedIPs") equals_or_terminator)
      None configContent = false ->
    overrideAllowedIps allowedIps configContent st
    = (inl configContent,
       mkState (world st)
         (emitted st ++
          [Info (js "Overriding AllowedIPs with: " ++ allowedIps)])).
Proof.
  intros World v c [w l0] Hv Hnone.
  unfold overrideAllowedIps. rewrite Hv.
  cbv [bind info emit ret world emitted].
  unfold replace_first.
  destruct (search ALLOWED_IPS_RE None c) as [[i n]|] eqn:Hs;
    [| reflexivity].
  apply (search_Some_key_then (js "AllowedIPs")) in Hs.
  rewrite Hs in Hnone. discriminate Hnone.
Qed.

Lemma overrideAllowedIps_without_assignment_witness :
  overrideAllowedIps (js "10.0.0.0/8")
    (unlines [js "[Peer]"; js "  AllowedIPs = 0.0.0.0/0";
              js "allowedips = ::/0"])
    (mkState tt [])
  = (inl (unlines [js "[Peer]"; js "  AllowedIPs = 0.0.0.0/0";
                   js "allowedips = ::/0"]),
     mkState tt [Info (js "Overriding AllowedIPs with: " ++ js "10.0.0.0/8")]).
Proof.
  exact (overrideAllowedIps_without_assignment unit (js "10.0.0.0/8")
           (unlines [js "[Peer]"; js "  AllowedIPs = 0.0.0.0/0";
                     js "allowedips = ::/0"])
           (mkState tt []) eq_refl eq_refl).
Defined.

(** X15.  For an override without [$] and without line terminator, the
    override step applied to its own result changes nothing, on any
    text. *)
Theorem overrideAllowedIps_idempotent :
  forall (World : Type) (allowedIps configContent out : jsstring)
         (st st' : state World),
    plain_override allowedIps = true ->
    returned (overrideAllowedIps allowedIps configContent) st = Some out ->
    returned (overrideAllowedIps allowedIps out) st' = Some out.
Proof.
  intros World v c out st st' Hplain Hout.
  pose proof (overridden_twice v c Hplain) as Htwice.
  unfold returned, overrideAllowedIps, overridden in *.
  destruct (truthy v); cbv [bind info emit ret fst] in *.
  - injection Hout as <-. f_equal. exact Htwice.
  - reflexivity.
Qed.

Lemma overrideAllowedIps_idempotent_witness :
  returned
    (overrideAllowedIps (js "10.0.0.0/8")
       (js "[Interface]" ++ [LF] ++ js "PrivateKey = x" ++ [LF] ++
        js "DNS = 1.1.1.1" ++ [LF] ++ js "[Peer]" ++ [LF] ++
        js "AllowedIPs = 10.0.0.0/8" ++ [LF]))
    (mkState tt [])
  = Some (js "[Interface]" ++ [LF] ++ js "PrivateKey = x" ++ [LF] ++
          js "DNS = 1.1.1.1" ++ [LF] ++ js "[Peer]" ++ [LF] ++
          js "AllowedIPs = 10.0.0.0/8" ++ [LF]).
Proof.
  apply (overrideAllowedIps_idempotent unit (js "10.0.0.0/8") sample_config
           _ (mkState tt []) (mkState tt [])).
  - reflexivity.
  - vm_compute. reflexivity.
Defined.

(** ** The whole transformation on lines *)

(** X16.  The input decodes (or is taken as it is) to lines ended by
    [\n] with a first [AllowedIPs] assignment among them, no line holding
    [AllowedIPs] (before it) or [DNS] alone; the override holds no [$] and
    no line terminator; [keep-dns] is off.  Then the transformation gives
    the lines of the configuration, the first [AllowedIPs] line replaced by
    [AllowedIPs = <override>], the lines that assign to [DNS] left out, in
    the same order. *)
Theorem transformConfig_on_lines :
  forall (World : Type) (wgConfig allowedIps : jsstring)
         (pre : list jsstring) (l : jsstring) (post : list jsstring)
         (tail : jsstring) (st : state World),
    truthy allowedIps = true ->
    plain_override allowedIps = true ->
    decodeConfig wgConfig = unlines (pre ++ l :: post) ++ tail ->
    forallb is_line (pre ++ l :: post) = true ->
    is_line tail = true ->
    existsb (assigns (js "AllowedIPs")) pre = false ->
    assigns (js "AllowedIPs") l = true ->
    existsb (bare_key (js "AllowedIPs")) pre = false ->
    existsb (bare_key (js "DNS")) (pre ++ post) = false ->
    returned (transformConfig wgConfig allowedIps false) st
    = Some (unlines
              (filter (fun x => negb (assigns (js "DNS") x))
                 (pre ++ (js "AllowedIPs = " ++ allowedIps) :: post)) ++
            (if assigns (js "DNS") tail then [] else tail)).
Proof.
  intros World wgConfig v pre l post tail st Hv Hplain Hdec Hlines Htail
         Hnone Ha Hbare Hdns.
  destruct (plain_override_in_line v Hplain) as [Hvline Hdollar].
  unfold returned. rewrite transformConfig_run. cbn [fst]. f_equal.
  rewrite effectiveConfig_eq, Hdec.
  unfold overridden, stripped. rewrite Hv.
  rewrite forallb_app in Hlines. cbn [forallb] in Hlines.
  apply andb_true_iff in Hlines as [Hpre Hlines].
  apply andb_true_iff in Hlines as [Hl Hpost].
  rewrite existsb_app in Hdns. apply orb_false_iff in Hdns as [Hdpre Hdpost].
  rewrite unlines_app. cbn [unlines flat_map]. fold (unlines post).
  rewrite <- !app_assoc. cbn [app].
  rewrite replace_first_lines by auto.
  unfold replace_all.
  replace (unlines pre ++ (js "AllowedIPs = " ++ v) ++
           LF :: unlines post ++ tail)
    with (unlines (pre ++ (js "AllowedIPs = " ++ v) :: post) ++ tail)
    by (rewrite unlines_app; cbn [unlines flat_map];
        rewrite <- !app_assoc; reflexivity).
  apply replace_scan_lines.
  - reflexivity.
  - rewrite forallb_app. cbn [forallb]. rewrite Hpre, Hpost.
    unfold is_line at 1. rewrite forallb_app, Hvline. reflexivity.
  - exact Htail.
  - rewrite existsb_app. cbn [existsb]. rewrite Hdpre, Hdpost. reflexivity.
Qed.

Lemma transformConfig_on_lines_witness :
  returned
    (transformConfig
       (base64_encode
          (utf8_encode
             (unlines [js "[Interface]"; js "PrivateKey = x";
                       js "DNS = 1.1.1.1"; js "[Peer]";
                       js "AllowedIPs = 0.0.0.0/0";
                       js "Endpoint = vpn.example.com:51820"])))
       (js "10.0.0.0/8") false)
    (mkState tt [])
  = Some (unlines [js "[Interface]"; js "PrivateKey = x"; js "[Peer]";
                   js "AllowedIPs = 10.0.0.0/8";
                   js "Endpoint = vpn.example.com:51820"]).
Proof.
  apply (transformConfig_on_lines unit _ (js "10.0.0.0/8")
           [js "[Interface]"; js "PrivateKey = x"; js "DNS = 1.1.1.1";
            js "[Peer]"]
           (js "AllowedIPs = 0.0.0.0/0")
           [js "Endpoint = vpn.example.com:51820"] [] (mkState tt []));
    vm_compute; reflexivity.
Defined.

(** ** Other ways of writing the base64 text *)

(** The decoder reads two texts alike when it reads the same sextets in
    them. *)
Lemma decodeConfig_same_sextets (t u : jsstring) :
  legal_sextets t = legal_sextets u ->
  includes (utf8_toString (base64_decode u)) INTERFACE_MARKER = true ->
  decodeConfig t = decodeConfig u.
Proof.
  intros Hsame Hin. rewrite !decodeConfig_unfold.
  unfold base64_decode in *. rewrite Hsame, Hin. reflexivity.
Qed.

Lemma decodeConfig_of_encoded (s : jsstring) :
  forallb is_code_unit s = true -> isWellFormed s = true ->
  utf8_toString (base64_decode (base64_encode (utf8_encode s))) = s.
Proof.
  intros Hs Hwf.
  rewrite base64_roundtrip
    by (apply (utf8_encode_bytes (length s)); [lia | exact Hs]).
  rewrite (utf8_roundtrip (length s)) by (auto; lia).
  apply (toWellFormed_id (length s)); [lia | exact Hwf].
Qed.

(** X17.  The layout of the base64 text does not matter: a text that,
    once the characters the decoder passes over are taken out (line breaks
    of a wrapped [base64] output, blanks, indentation), is the base64 text
    of a well-formed configuration with [[Interface]], decodes to that
    configuration. *)
Theorem decodeConfig_ignores_layout :
  forall s t : jsstring,
    forallb is_code_unit s = true ->
    isWellFormed s = true ->
    includes s INTERFACE_MARKER = true ->
    filter significant t = base64_encode (utf8_encode s) ->
    decodeConfig t = s.
Proof.
  intros s t Hs Hwf Hin Ht.
  pose proof (decodeConfig_of_encoded s Hs Hwf) as Hdec.
  rewrite (decodeConfig_same_sextets t (base64_encode (utf8_encode s))).
  - rewrite decodeConfig_unfold, Hdec, Hin. reflexivity.
  - rewrite <- Ht. symmetry. apply legal_sextets_significant.
  - rewrite Hdec. exact Hin.
Qed.

Lemma decodeConfig_ignores_layout_witness :
  decodeConfig
    (js "  W0ludGVy" ++ [13; LF] ++ js "  ZmFjZV0K" ++ [13; LF])
  = js "[Interface]" ++ [LF].
Proof.
  apply decodeConfig_ignores_layout; vm_compute; reflexivity.
Defined.

Lemma url_ok_all : all_from 64 0 url_ok = true.
Proof. vm_compute. reflexivity. Qed.

Lemma legal_sextets_url_char (v : Z) (s : jsstring) :
  is_sextet v = true ->
  (base64_char v =? 61) = false /\
  legal_sextets (url_safe (base64_char v) :: s) = v :: legal_sextets s.
Proof.
  intros Hv. apply is_sextet_range in Hv.
  pose proof (all_from_spec _ _ _ url_ok_all v Hv) as H.
  unfold url_ok in H. cbn [legal_sextets].
  destruct (unbase64 (url_safe (base64_char v))) as [w|]; [| discriminate H].
  apply andb_prop in H as [Hw Hne].
  apply Z.eqb_eq in Hw. subst w.
  apply negb_true_iff in Hne. split; [exact Hne | reflexivity].
Qed.

(** Reads the sextets of the URL-safe text of a group. *)
Ltac url_group :=
  cbn [base64_encode filter];
  repeat match goal with
    | Hv : is_sextet ?v = true |- context [base64_char ?v =? 61] =>
        rewrite (proj1 (legal_sextets_url_char v [] Hv))
    end;
  cbn [negb filter map Z.eqb Pos.eqb];
  rewrite !(fun v s Hv => proj2 (legal_sextets_url_char v s Hv))
    by assumption;
  rewrite !legal_sextets_char by assumption.

Lemma legal_sextets_base64url :
  forall bs,
    forallb is_byte bs = true ->
    legal_sextets (base64url_encode bs) = legal_sextets (base64_encode bs).
Proof.
  unfold base64url_encode.
  induction bs as [| a | a b | a b c r IH] using list_ind3; intros Hbs.
  - reflexivity.
  - cbn [forallb] in Hbs. apply andb_prop in Hbs as [Ha _].
    pose proof (pair_ok_bytes a a Ha Ha) as H. unfold pair_ok in H.
    split_ok H.
    url_group. reflexivity.
  - cbn [forallb] in Hbs. apply andb_prop in Hbs as [Ha Hbs].
    apply andb_prop in Hbs as [Hb _].
    pose proof (pair_ok_bytes a b Ha Hb) as H. unfold pair_ok in H.
    split_ok H.
    pose proof (pair_ok_bytes b b Hb Hb) as H'. unfold pair_ok in H'.
    split_ok H'.
    url_group. reflexivity.
  - cbn [forallb] in Hbs. apply andb_prop in Hbs as [Ha Hbs].
    apply andb_prop in Hbs as [Hb Hbs]. apply andb_prop in Hbs as [Hc Hr].
    pose proof (pair_ok_bytes a b Ha Hb) as H. unfold pair_ok in H.
    split_ok H.
    pose proof (pair_ok_bytes b c Hb Hc) as H'. unfold pair_ok in H'.
    split_ok H'.
    url_group. rewrite (IH Hr). reflexivity.
Qed.

(** X18.  The decode step also takes the URL-safe base64 of RFC 4648,
    written with [-] and [_] and without padding: on the base64url text of
    a well-formed configuration with [[Interface]] it returns that
    configuration. *)
Theorem decodeConfig_base64url :
  forall s : jsstring,
    forallb is_code_unit s = true ->
    isWellFormed s = true ->
    includes s INTERFACE_MARKER = true ->
    decodeConfig (base64url_encode (utf8_encode s)) = s.
Proof.
  intros s Hs Hwf Hin.
  pose proof (decodeConfig_of_encoded s Hs Hwf) as Hdec.
  rewrite (decodeConfig_same_sextets _ (base64_encode (utf8_encode s))).
  - rewrite decodeConfig_unfold, Hdec, Hin. reflexivity.
  - apply legal_sextets_base64url.
    apply (utf8_encode_bytes (length s)); [lia | exact Hs].
  - rewrite Hdec. exact Hin.
Qed.

Lemma decodeConfig_base64url_witness :
  base64url_encode (utf8_encode (js "[Interface]" ++ [LF] ++ js "#>>>???~~~"))
  = js "W0ludGVyZmFjZV0KIz4-Pj8_P35-fg" /\
  decodeConfig (js "W0ludGVyZmFjZV0KIz4-Pj8_P35-fg")
  = js "[Interface]" ++ [LF] ++ js "#>>>???~~~".
Proof.
  split; [vm_compute; reflexivity |].
  exact (decodeConfig_base64url (js "[Interface]" ++ [LF] ++ js "#>>>???~~~")
           eq_refl eq_refl eq_refl).
Defined.
